(** * keicoqk/gateway: a dynamic gRPC gateway

    Shallow embedding of the gateway's [core] package (descriptor pools,
    the static and the inline method resolvers, the invoker) and of the
    body transport encoding of its [sdk] package, with the properties of
    the natural-language specification stated and proved over it.

    Conventions.  A Go [string] and a Go [[]byte] are byte sequences: a
    [string] here is Rocq's [string] and a byte slice a [list ascii], so the
    conversions [[]byte(s)] and [string(b)] are [list_ascii_of_string] and
    [string_of_list_ascii].  Unsigned machine integers are [N]; a conversion
    [byte(v)] is [ascii_of_N], which truncates to eight bits.  Go maps are
    stdpp's [gmap].  The reader/writer locks of the resolvers are not
    modelled: every operation is a sequential state transformer. *)

From Stdlib Require Import NArith ZArith Ascii String List Lia.
From stdpp Require Import gmap strings list.

Local Open Scope string_scope.
Local Open Scope list_scope.
Local Open Scope N_scope.

(** ** Results *)

Inductive result (E A : Type) : Type :=
| Ok (a : A)
| Err (e : E).
Arguments Ok {E A} a.
Arguments Err {E A} e.

(** ** The [strings] package of the Go standard library *)

Module strings.

Definition byte_eqb (a b : ascii) : bool := Ascii.eqb a b.

(** [strings.HasPrefix]. *)
Fixpoint HasPrefix (s prefix : string) : bool :=
  match prefix, s with
  | EmptyString, _ => true
  | String p prefix', String c s' => byte_eqb p c && HasPrefix s' prefix'
  | String _ _, EmptyString => false
  end.

Fixpoint drop_bytes (n : nat) (s : string) : string :=
  match n, s with
  | O, _ => s
  | S n', String _ s' => drop_bytes n' s'
  | S _, EmptyString => EmptyString
  end.

(** [strings.TrimPrefix]: [s] without the leading [prefix], or [s] itself
    when it does not start with [prefix]. *)
Definition TrimPrefix (s prefix : string) : string :=
  if HasPrefix s prefix then drop_bytes (String.length prefix) s else s.

(** [strings.Contains]. *)
Fixpoint Contains (s substr : string) : bool :=
  HasPrefix s substr ||
  match s with
  | EmptyString => false
  | String _ s' => Contains s' substr
  end.

(** [strings.SplitN(s, "/", 2)]: the text before the first separator byte
    and the text after it, or [s] alone when there is no separator.  (For
    [n = 2] and a one-byte separator, the only use in the gateway.) *)
Fixpoint cut_byte (sep : ascii) (s : string) : option (string * string) :=
  match s with
  | EmptyString => None
  | String c s' =>
      if byte_eqb c sep then Some (EmptyString, s')
      else match cut_byte sep s' with
           | Some (before, after) => Some (String c before, after)
           | None => None
           end
  end.

Definition SplitN2 (s : string) (sep : ascii) : list string :=
  match cut_byte sep s with
  | Some (before, after) => [before; after]
  | None => [s]
  end.

(** White space as [unicode.IsSpace] has it, by UTF-8 encoding: the six
    ASCII spaces, U+0085, U+00A0, U+1680, U+2000..U+200A, U+2028, U+2029,
    U+202F, U+205F and U+3000.  UTF-8 decoding accepts shortest forms
    only, so a string starts (ends) with a white-space rune exactly when
    it starts (ends) with one of these byte sequences. *)
Definition asciiSpace (c : ascii) : bool :=
  let n := N_of_ascii c in
  (n =? 9) || (n =? 10) || (n =? 11) || (n =? 12) || (n =? 13) || (n =? 32).

Definition space2 (b0 b1 : ascii) : bool :=
  (N_of_ascii b0 =? 0xC2) && ((N_of_ascii b1 =? 0x85) || (N_of_ascii b1 =? 0xA0)).

Definition space3 (b0 b1 b2 : ascii) : bool :=
  let n0 := N_of_ascii b0 in
  let n1 := N_of_ascii b1 in
  let n2 := N_of_ascii b2 in
  ((n0 =? 0xE1) && (n1 =? 0x9A) && (n2 =? 0x80)) ||
  ((n0 =? 0xE2) && (n1 =? 0x80) &&
     (((0x80 <=? n2) && (n2 <=? 0x8A)) || (n2 =? 0xA8) || (n2 =? 0xA9) || (n2 =? 0xAF))) ||
  ((n0 =? 0xE2) && (n1 =? 0x81) && (n2 =? 0x9F)) ||
  ((n0 =? 0xE3) && (n1 =? 0x80) && (n2 =? 0x80)).

(** [strings.TrimLeftFunc(s, unicode.IsSpace)] on the bytes of [s]. *)
Fixpoint trim_left (s : list ascii) : list ascii :=
  match s with
  | b0 :: t0 =>
      if asciiSpace b0 then trim_left t0
      else match t0 with
           | b1 :: t1 =>
               if space2 b0 b1 then trim_left t1
               else match t1 with
                    | b2 :: t2 => if space3 b0 b1 b2 then trim_left t2 else s
                    | [] => s
                    end
           | [] => s
           end
  | [] => []
  end.

(** [strings.TrimRightFunc(s, unicode.IsSpace)], on the reversed bytes:
    the last byte of the string comes first. *)
Fixpoint trim_left_rev (r : list ascii) : list ascii :=
  match r with
  | b0 :: t0 =>
      if asciiSpace b0 then trim_left_rev t0
      else match t0 with
           | b1 :: t1 =>
               if space2 b1 b0 then trim_left_rev t1
               else match t1 with
                    | b2 :: t2 => if space3 b2 b1 b0 then trim_left_rev t2 else r
                    | [] => r
                    end
           | [] => r
           end
  | [] => []
  end.

Definition trim_right (s : list ascii) : list ascii :=
  rev (trim_left_rev (rev s)).

(** [strings.TrimSpace]. *)
Definition TrimSpace (s : string) : string :=
  string_of_list_ascii (trim_right (trim_left (list_ascii_of_string s))).

End strings.


(** ** The [unicode/utf8] conversions behind [[]rune(s)] and [string(r)] *)

Module utf8.

Definition RuneError : N := 0xFFFD.
Definition MaxRune : N := 0x10FFFF.

Definition in_range (lo hi : N) (b : ascii) : bool :=
  (lo <=? N_of_ascii b) && (N_of_ascii b <=? hi).

(** The low [k] bits of a byte. *)
Definition low (k : N) (b : ascii) : N := N.land (N_of_ascii b) (N.ones k).

Definition cont (b : ascii) : bool := in_range 0x80 0xBF b.

(** Bounds the second byte must meet after the leading byte [b0] of a
    sequence of three or four bytes (the [acceptRanges] table). *)
Definition accept3 (b0 b1 : ascii) : bool :=
  let n0 := N_of_ascii b0 in
  if n0 =? 0xE0 then in_range 0xA0 0xBF b1
  else if n0 =? 0xED then in_range 0x80 0x9F b1
  else in_range 0x80 0xBF b1.

Definition accept4 (b0 b1 : ascii) : bool :=
  let n0 := N_of_ascii b0 in
  if n0 =? 0xF0 then in_range 0x90 0xBF b1
  else if n0 =? 0xF4 then in_range 0x80 0x8F b1
  else in_range 0x80 0xBF b1.

(** [[]rune(s)]: the code points of [s]; a byte that starts no valid
    encoding yields [RuneError] and is skipped alone. *)
Fixpoint runes (s : list ascii) : list N :=
  match s with
  | [] => []
  | b0 :: t0 =>
      let n0 := N_of_ascii b0 in
      if n0 <? 0x80 then n0 :: runes t0
      else if in_range 0xC2 0xDF b0 then
        match t0 with
        | b1 :: t1 =>
            if cont b1
            then N.lor (N.shiftl (low 5 b0) 6) (low 6 b1) :: runes t1
            else RuneError :: runes t0
        | _ => RuneError :: runes t0
        end
      else if in_range 0xE0 0xEF b0 then
        match t0 with
        | b1 :: b2 :: t2 =>
            if accept3 b0 b1 && cont b2
            then N.lor (N.lor (N.shiftl (low 4 b0) 12) (N.shiftl (low 6 b1) 6))
                   (low 6 b2) :: runes t2
            else RuneError :: runes t0
        | _ => RuneError :: runes t0
        end
      else if in_range 0xF0 0xF4 b0 then
        match t0 with
        | b1 :: b2 :: b3 :: t3 =>
            if accept4 b0 b1 && cont b2 && cont b3
            then N.lor (N.lor (N.lor (N.shiftl (low 3 b0) 18) (N.shiftl (low 6 b1) 12))
                          (N.shiftl (low 6 b2) 6)) (low 6 b3) :: runes t3
            else RuneError :: runes t0
        | _ => RuneError :: runes t0
        end
      else RuneError :: runes t0
  end.

Definition tx (r : N) : ascii := ascii_of_N (N.lor 0x80 (N.land r 0x3F)).

(** [utf8.AppendRune]: the UTF-8 encoding of one rune. *)
Definition encode_rune (r : N) : list ascii :=
  if r <=? 0x7F then [ascii_of_N r]
  else if r <=? 0x7FF then
    [ascii_of_N (N.lor 0xC0 (N.shiftr r 6)); tx r]
  else if (MaxRune <? r) || ((0xD800 <=? r) && (r <=? 0xDFFF)) then
    [ascii_of_N 0xEF; ascii_of_N 0xBF; ascii_of_N 0xBD]
  else if r <=? 0xFFFF then
    [ascii_of_N (N.lor 0xE0 (N.shiftr r 12)); tx (N.shiftr r 6); tx r]
  else
    [ascii_of_N (N.lor 0xF0 (N.shiftr r 18)); tx (N.shiftr r 12); tx (N.shiftr r 6); tx r].

(** [string(r)] for a rune slice [r]. *)
Definition string_of_runes (r : list N) : list ascii :=
  flat_map encode_rune r.

End utf8.

(** ** [encoding/base64], [StdEncoding] *)

Module base64.

Definition encodeStd : string :=
  "ABCDEFGHIJKLMNOPQRSTUVWXYZabcdefghijklmnopqrstuvwxyz0123456789+/".

Definition padChar : ascii := "="%char.

(** [enc.encode[v]]. *)
Definition encode (v : N) : ascii :=
  nth (N.to_nat v) (list_ascii_of_string encodeStd) "000"%char.

Fixpoint index_of (c : ascii) (l : list ascii) (i : N) : N :=
  match l with
  | [] => 0xFF
  | x :: l' => if Ascii.eqb x c then i else index_of c l' (N.succ i)
  end.

(** [enc.decodeMap[c]]: the position of [c] in the alphabet, [0xFF] for
    a byte outside it. *)
Definition decodeMap (c : ascii) : N :=
  index_of c (list_ascii_of_string encodeStd) 0.

(** [Encoding.Encode]: three bytes give four characters; a remainder
    of one or two bytes is padded. *)
Fixpoint Encode (src : list ascii) : list ascii :=
  match src with
  | [] => []
  | [s0] =>
      let val := N.shiftl (N_of_ascii s0) 16 in
      [encode (N.land (N.shiftr val 18) 0x3F);
       encode (N.land (N.shiftr val 12) 0x3F);
       padChar; padChar]
  | [s0; s1] =>
      let val := N.lor (N.shiftl (N_of_ascii s0) 16) (N.shiftl (N_of_ascii s1) 8) in
      [encode (N.land (N.shiftr val 18) 0x3F);
       encode (N.land (N.shiftr val 12) 0x3F);
       encode (N.land (N.shiftr val 6) 0x3F);
       padChar]
  | s0 :: s1 :: s2 :: rest =>
      let val := N.lor (N.lor (N.shiftl (N_of_ascii s0) 16) (N.shiftl (N_of_ascii s1) 8))
                   (N_of_ascii s2) in
      encode (N.land (N.shiftr val 18) 0x3F)
      :: encode (N.land (N.shiftr val 12) 0x3F)
      :: encode (N.land (N.shiftr val 6) 0x3F)
      :: encode (N.land val 0x3F)
      :: Encode rest
  end.

Definition EncodeToString (src : list ascii) : string :=
  string_of_list_ascii (Encode src).

(** [CorruptInputError]: the offset of the offending input byte. *)
Inductive CorruptInputError : Type :=
| CorruptInput (offset : nat).

Definition is_newline (c : ascii) : bool :=
  (N_of_ascii c =? 10) || (N_of_ascii c =? 13).

Fixpoint skip_newlines (src : list ascii) (si : nat) : list ascii * nat :=
  match src with
  | c :: src' => if is_newline c then skip_newlines src' (S si) else (src, si)
  | [] => (src, si)
  end.

(** The value of a quantum: [dbuf[0]<<18 | dbuf[1]<<12 | dbuf[2]<<6 | dbuf[3]],
    absent sextets being zero. *)
Definition quantum_val (dbuf : list N) : N :=
  N.lor (N.lor (N.lor (N.shiftl (nth 0 dbuf 0) 18) (N.shiftl (nth 1 dbuf 0) 12))
           (N.shiftl (nth 2 dbuf 0) 6)) (nth 3 dbuf 0).

(** The [dlen - 1] bytes a quantum of [dlen] sextets decodes to. *)
Definition quantum_bytes (dlen : nat) (dbuf : list N) : list ascii :=
  let val := quantum_val dbuf in
  firstn (dlen - 1)
    [ascii_of_N (N.shiftr val 16); ascii_of_N (N.shiftr val 8); ascii_of_N val].

(** What follows the first padding character met with [j] sextets read:
    for [j = 2] a second padding character is required; then only
    newlines may follow. *)
Definition after_padding (j : nat) (dbuf : list N) (src : list ascii) (si : nat)
  : list ascii * option CorruptInputError :=
  match j with
  | 0%nat | 1%nat => ([], Some (CorruptInput (si - 1)))
  | _ =>
      let second :=
        if (j =? 2)%nat then
          let '(src1, si1) := skip_newlines src si in
          match src1 with
          | [] => Err (CorruptInput si1)
          | c :: src2 =>
              if Ascii.eqb c padChar then Ok (src2, S si1)
              else Err (CorruptInput (si1 - 1))
          end
        else Ok (src, si) in
      match second with
      | Err e => ([], Some e)
      | Ok (src2, si2) =>
          let '(src3, si3) := skip_newlines src2 si2 in
          (quantum_bytes j dbuf,
           match src3 with
           | [] => None
           | _ :: _ => Some (CorruptInput si3)
           end)
      end
  end.

(** [Encoding.Decode], that is [decodeQuantum] run until the input is
    used up (the word-at-a-time fast paths of [Decode] decode the same
    quanta and fall back to [decodeQuantum] on any other byte).  [si] is
    the offset of the next input byte and [dbuf] holds the [j] sextets
    of the quantum read so far.  The result is the decoded prefix [dst[:n]] and
    the error. *)
Fixpoint decode_from (src : list ascii) (si : nat) (dbuf : list N)
  : list ascii * option CorruptInputError :=
  let j := length dbuf in
  match src with
  | [] =>
      match j with
      | 0%nat => ([], None)
      | _ => ([], Some (CorruptInput (si - j)))
      end
  | c :: src' =>
      let si := S si in
      let out := decodeMap c in
      if negb (out =? 0xFF) then
        if (j =? 3)%nat then
          let '(rest, err) := decode_from src' si [] in
          (quantum_bytes 4 (dbuf ++ [out]) ++ rest, err)
        else decode_from src' si (dbuf ++ [out])
      else if is_newline c then decode_from src' si dbuf
      else if negb (Ascii.eqb c padChar) then ([], Some (CorruptInput (si - 1)))
      else after_padding j dbuf src' si
  end.

Definition Decode (src : list ascii) : list ascii * option CorruptInputError :=
  decode_from src 0 [].

(** [Encoding.DecodeString]: the decoded bytes (never a nil slice) and
    the error. *)
Definition DecodeString (s : string) : list ascii * option CorruptInputError :=
  Decode (list_ascii_of_string s).

End base64.

(** ** [crypto/sha256] and [encoding/hex] *)

Module sha256.

Definition mask32 : N := 0xFFFFFFFF.

(** Addition of [uint32] values wraps around. *)
Definition add32 (x y : N) : N := N.land (x + y) mask32.

(** [bits.RotateLeft32(x, -n)]. *)
Definition rotr (x n : N) : N :=
  N.lor (N.shiftr x n) (N.land (N.shiftl x (32 - n)) mask32).

(** [^x] on a [uint32]. *)
Definition not32 (x : N) : N := N.lxor x mask32.

(** The primes below 312: the first 64 primes. *)
Definition is_prime (p : nat) : bool :=
  forallb (fun d => negb (Nat.eqb (Nat.modulo p d) 0)) (seq 2 (p - 2)).

Definition primes : list N :=
  map N.of_nat (List.filter is_prime (seq 2 310)).

(** The integer cube root, one bit at a time from bit [n - 1] down. *)
Fixpoint cbrt_bits (n : nat) (x acc : N) : N :=
  match n with
  | O => acc
  | S n' =>
      let cand := acc + 2 ^ N.of_nat n' in
      if cand * cand * cand <=? x then cbrt_bits n' x cand else cbrt_bits n' x acc
  end.

(** The table [_K] of the round constants: the first 32 bits of the
    fractional parts of the cube roots of the first 64 primes. *)
Definition _K : list N :=
  map (fun p => N.land (cbrt_bits 36 (p * 2 ^ 96) 0) mask32) primes.

(** The chaining value [h0 .. h7]. *)
Definition digest : Type := (N * N * N * N * N * N * N * N)%type.

(** The initial value [init0 .. init7]: the first 32 bits of the
    fractional parts of the square roots of the first 8 primes. *)
Definition init_word (i : nat) : N :=
  N.land (N.sqrt (nth i primes 0 * 2 ^ 64)) mask32.

Definition init : digest :=
  (init_word 0, init_word 1, init_word 2, init_word 3,
   init_word 4, init_word 5, init_word 6, init_word 7).

(** [w[i]] for [i < 16]: big-endian words of the block. *)
Fixpoint words (n : nat) (p : list ascii) : list N :=
  match n with
  | O => []
  | S n' =>
      match p with
      | p0 :: p1 :: p2 :: p3 :: p' =>
          N.lor (N.lor (N.lor (N.shiftl (N_of_ascii p0) 24) (N.shiftl (N_of_ascii p1) 16))
                   (N.shiftl (N_of_ascii p2) 8)) (N_of_ascii p3) :: words n' p'
      | _ => []
      end
  end.

(** The message schedule, most recent word first: [w[i-1]] is at
    position 0 of [r]. *)
Definition schedule_step (r : list N) : list N :=
  let v1 := nth 1 r 0 in
  let t1 := N.lxor (N.lxor (rotr v1 17) (rotr v1 19)) (N.shiftr v1 10) in
  let v2 := nth 14 r 0 in
  let t2 := N.lxor (N.lxor (rotr v2 7) (rotr v2 18)) (N.shiftr v2 3) in
  add32 (add32 (add32 t1 (nth 6 r 0)) t2) (nth 15 r 0) :: r.

Definition schedule (p : list ascii) : list N :=
  rev (Nat.iter 48 schedule_step (rev (words 16 p))).

Definition round (st : digest) (kw : N * N) : digest :=
  let '(a, b, c, d, e, f, g, h) := st in
  let '(k, w) := kw in
  let t1 := add32 (add32 (add32 (add32 h
              (N.lxor (N.lxor (rotr e 6) (rotr e 11)) (rotr e 25)))
              (N.lxor (N.land e f) (N.land (not32 e) g))) k) w in
  let t2 := add32 (N.lxor (N.lxor (rotr a 2) (rotr a 13)) (rotr a 22))
              (N.lxor (N.lxor (N.land a b) (N.land a c)) (N.land b c)) in
  (add32 t1 t2, a, b, c, add32 d t1, e, f, g).

Definition block (hs : digest) (p : list ascii) : digest :=
  let '(a, b, c, d, e, f, g, h) := fold_left round (combine _K (schedule p)) hs in
  let '(h0, h1, h2, h3, h4, h5, h6, h7) := hs in
  (add32 h0 a, add32 h1 b, add32 h2 c, add32 h3 d,
   add32 h4 e, add32 h5 f, add32 h6 g, add32 h7 h).

(** [blockGeneric]: one [block] for every whole 64-byte chunk of [p]. *)
Fixpoint blockGeneric (nblocks : nat) (hs : digest) (p : list ascii) : digest :=
  match nblocks with
  | O => hs
  | S n' => blockGeneric n' (block hs (firstn 64 p)) (skipn 64 p)
  end.

(** Big-endian bytes of the low [8 * n] bits of [v]. *)
Fixpoint be_bytes (n : nat) (v : N) : list ascii :=
  match n with
  | O => []
  | S n' => ascii_of_N (N.shiftr v (8 * N.of_nat n')) :: be_bytes n' v
  end.

(** The padding of [checkSum]: a one bit, zeros up to 56 bytes mod 64,
    and the length in bits as a [uint64]. *)
Definition padding (len : N) : list ascii :=
  let t := if len mod 64 <? 56 then 56 - len mod 64 else 64 + 56 - len mod 64 in
  ascii_of_N 0x80 :: repeat (ascii_of_N 0) (N.to_nat t - 1)
    ++ be_bytes 8 (N.land (N.shiftl len 3) (N.ones 64)).

(** [sha256.Sum256]. *)
Definition Sum256 (data : list ascii) : list ascii :=
  let p := data ++ padding (N.of_nat (length data)) in
  let '(h0, h1, h2, h3, h4, h5, h6, h7) :=
    blockGeneric (Nat.div (length p) 64) init p in
  be_bytes 4 h0 ++ be_bytes 4 h1 ++ be_bytes 4 h2 ++ be_bytes 4 h3
    ++ be_bytes 4 h4 ++ be_bytes 4 h5 ++ be_bytes 4 h6 ++ be_bytes 4 h7.

End sha256.

Module hex.

Definition hextable : string := "0123456789abcdef".

Definition digit (v : N) : ascii :=
  nth (N.to_nat v) (list_ascii_of_string hextable) "000"%char.

Fixpoint Encode (src : list ascii) : list ascii :=
  match src with
  | [] => []
  | v :: src' =>
      digit (N.shiftr (N_of_ascii v) 4) :: digit (N.land (N_of_ascii v) 0x0F) :: Encode src'
  end.

(** [hex.EncodeToString]. *)
Definition EncodeToString (src : list ascii) : string :=
  string_of_list_ascii (Encode src).

End hex.

(** ** Package [sdk]: the body transport encoding (encoding.go) *)

Module sdk.

(** The loop [for i, j := 0, len(r)-1; i < j; i, j = i+1, j-1] that swaps
    [r[i]] and [r[j]] reverses the rune slice [r := []rune(s)]. *)
Definition reverse_runes (s : string) : string :=
  string_of_list_ascii
    (utf8.string_of_runes (rev (utf8.runes (list_ascii_of_string s)))).

Definition encodeBase64V1 (plain : list ascii) : string :=
  reverse_runes (base64.EncodeToString plain).

(** The byte slice returned is [None] for Go's [nil]. *)
Definition decodeBase64V1 (s : string)
  : option (list ascii) * option base64.CorruptInputError :=
  if String.eqb s "" then (None, None)
  else
    let '(decoded, err) := base64.DecodeString (reverse_runes s) in
    (Some decoded, err).

Inductive body_error : Type :=
| ErrReadBody (cause : string)
| ErrDecodeB64V1 (cause : base64.CorruptInputError).

(** [decodeRequestBody]; [raw] is what [io.ReadAll(r.Body)] returned. *)
Definition decodeRequestBody (raw : result string (list ascii))
  : result body_error (option (list ascii)) :=
  match raw with
  | Err e => Err (ErrReadBody e)
  | Ok raw =>
      match decodeBase64V1 (string_of_list_ascii raw) with
      | (_, Some e) => Err (ErrDecodeB64V1 e)
      | (decoded, None) => Ok decoded
      end
  end.

End sdk.

(** ** Descriptors (package [desc] of protoreflect), as far as the gateway
    reads them *)

Module desc.

(** A message schema; the gateway hands it to the payload codec only. *)
Record MessageDescriptor : Type := {
  msg_name : string
}.

Record MethodDescriptor : Type := {
  md_name : string;
(** [GetService().GetFullyQualifiedName()] *)
md_service : string;
md_input : MessageDescriptor;
md_output : MessageDescriptor;
md_client_streaming : bool;
md_server_streaming : bool
}.

Record ServiceDescriptor : Type := {
(** the package of the file that declares the service *)
sd_package : string;
sd_name : string;
sd_methods : list MethodDescriptor
}.

Record FileDescriptor : Type := {
  fd_services : list ServiceDescriptor
}.

(** The fully-qualified name is the package and the name joined by a
    dot, or the name alone in a file without a package. *)
Definition GetFullyQualifiedName (sd : ServiceDescriptor) : string :=
  if String.eqb (sd_package sd) "" then sd_name sd
  else sd_package sd +:+ "." +:+ sd_name sd.

(** In a linked descriptor set: the method of this service with this
    name. *)
Definition FindMethodByName (sd : ServiceDescriptor) (name : string)
  : option MethodDescriptor :=
  find (fun m => String.eqb (md_name m) name) (sd_methods sd).

End desc.

(** ** Package [core] *)

Module core.
Import desc.

(** The errors of the package; [cause] is the text of an error that comes
    from a library or from the operating system. *)
Inductive error : Type :=
| ErrInvalidFullMethodName (name : string)
| ErrReadDescriptorFile (path cause : string)
| ErrUnmarshalFileDescriptorSet (cause : string)
| ErrCreateFileDescriptors (cause : string)
| ErrMethodNotFoundInSet (fullMethodName : string)
| ErrMissingServiceOrMethod
| ErrAmbiguousServiceName (service : string) (candidates : list string)
| ErrServiceNotFound (service : string)
| ErrMethodNotFound (method serviceFQN : string)
| ErrEmptyDescriptorID
| ErrDescriptorNotFound (key : string)
| ErrMissingMethodInline
| ErrResolveInline (cause : error)
| ErrMissingFullMethodName
| ErrResolveMethod (cause : error)
| ErrStreamingNotSupported (methodName : string)
| ErrJSONToMessage (cause : string)
| ErrDial (target cause : string)
| ErrInvokeRpc (cause : string)
| ErrMessageToJSON (cause : string).

(** [ParseFullMethodName]. *)
Definition ParseFullMethodName (fullMethodName : string)
  : result error (string * string) :=
  let fullMethodName := strings.TrimPrefix fullMethodName "/" in
  let parts := strings.SplitN2 fullMethodName "/"%char in
  if negb (length parts =? 2)%nat then Err (ErrInvalidFullMethodName fullMethodName)
  else Ok (nth 0 parts "", nth 1 parts "").

Record ResolvedMethod : Type := {
  Method : MethodDescriptor;
  ServiceFQN : string
}.

Record InlineDescriptorPool : Type := {
  servicesByFQN : gmap string ServiceDescriptor;
  servicesByName : gmap string (list ServiceDescriptor)
}.

Definition empty_pool : InlineDescriptorPool :=
  {| servicesByFQN := ∅; servicesByName := ∅ |}.

(** The body of the loop over the services of [newInlineDescriptorPool]. *)
Definition add_service (pool : InlineDescriptorPool) (svc : ServiceDescriptor)
  : InlineDescriptorPool :=
  let fqn := GetFullyQualifiedName svc in
  {| servicesByFQN := <["." +:+ fqn := svc]> (<[fqn := svc]> (servicesByFQN pool));
     servicesByName :=
       <[sd_name svc := default [] (servicesByName pool !! sd_name svc) ++ [svc]]>
         (servicesByName pool) |}.

Definition pool_of_files (files : list FileDescriptor) : InlineDescriptorPool :=
  fold_left (fun pool fd => fold_left add_service (fd_services fd) pool)
    files empty_pool.

(** [InlineDescriptorPool.Resolve], up to the test for an empty name:
    the service and method names the lookup uses. *)
Definition normalize (service method : string) : string * string :=
  let service := strings.TrimSpace service in
  let method := strings.TrimSpace method in
  let '(service, method) :=
    if strings.Contains method "/" then
      match ParseFullMethodName method with
      | Ok (svc, m) =>
          if String.eqb service "" then (svc, m) else (service, method)
      | Err _ => (service, method)
      end
    else (service, method) in
  let service := strings.TrimPrefix service "/" in
  let service := strings.TrimPrefix service "." in
  let method := strings.TrimPrefix method "/" in
  (service, method).

(** The selection of the service: [Ok] with the service, or the error. *)
Definition select_service (p : InlineDescriptorPool) (service : string)
  : result error ServiceDescriptor :=
  match servicesByFQN p !! service with
  | Some v => Ok v
  | None =>
      match servicesByFQN p !! ("." +:+ service) with
      | Some v => Ok v
      | None =>
          let list := default [] (servicesByName p !! service) in
          match list with
          | [v] => Ok v
          | _ :: _ :: _ =>
              Err (ErrAmbiguousServiceName service (map GetFullyQualifiedName list))
          | [] => Err (ErrServiceNotFound service)
          end
      end
  end.

Definition InlineDescriptorPool_Resolve (p : InlineDescriptorPool) (service method : string)
  : result error ResolvedMethod :=
  let '(service, method) := normalize service method in
  if String.eqb service "" || String.eqb method "" then Err ErrMissingServiceOrMethod
  else
    match select_service p service with
    | Err e => Err e
    | Ok svc =>
        match FindMethodByName svc method with
        | None => Err (ErrMethodNotFound method (GetFullyQualifiedName svc))
        | Some md =>
            Ok {| Method := md; ServiceFQN := GetFullyQualifiedName svc |}
        end
    end.

(** What the package takes from outside: the protobuf decoder of
    descriptor sets, the linker of protoreflect, the file system and
    [filepath.Join] for the resolvers; the JSON codec of jsonpb and the
    gRPC client for the invoker.  [CreateFileDescriptorsFromSet] returns a
    Go map from file names to file descriptors; here it gives the list of
    the descriptors in the order in which the [range] loops of the
    resolvers visit the map, an order Go does not specify. *)
Section Environment.

Context {FileDescriptorSet : Type}.
Variable proto_Unmarshal : list ascii -> result string FileDescriptorSet.
Variable CreateFileDescriptorsFromSet :
  FileDescriptorSet -> result string (list FileDescriptor).
Variable filepath_Join : string -> string -> string.
Variable os_ReadFile : string -> result string (list ascii).

Context {Message ClientConn : Type}.
Variable jsonpb_Unmarshal : MessageDescriptor -> list ascii -> result string Message.
Variable jsonpb_Marshal : bool -> Message -> result string (list ascii).
Variable grpc_DialContext : option Z -> string -> result string ClientConn.
Variable grpcdynamic_InvokeRpc :
  option Z -> ClientConn -> MethodDescriptor -> Message -> result string Message.

Definition newInlineDescriptorPool (descriptorSetBytes : list ascii)
  : result error InlineDescriptorPool :=
  match proto_Unmarshal descriptorSetBytes with
  | Err e => Err (ErrUnmarshalFileDescriptorSet e)
  | Ok fds =>
      match CreateFileDescriptorsFromSet fds with
      | Err e => Err (ErrCreateFileDescriptors e)
      | Ok files => Ok (pool_of_files files)
      end
  end.

(** *** The static resolver *)

Record MethodResolver : Type := {
  descriptorDir : string;
  cache : gmap string MethodDescriptor
}.

Definition NewMethodResolver (descriptorDir : string) : MethodResolver :=
  {| descriptorDir := descriptorDir; cache := ∅ |}.

(** The methods of a descriptor set in the order of the three nested
    loops of [MethodResolver.Resolve], each with its service. *)
Definition all_methods (files : list FileDescriptor)
  : list (ServiceDescriptor * MethodDescriptor) :=
  flat_map (fun fd =>
    flat_map (fun svc => map (fun m => (svc, m)) (sd_methods svc))
      (fd_services fd)) files.

Definition full_name (sm : ServiceDescriptor * MethodDescriptor) : string :=
  "/" +:+ GetFullyQualifiedName (fst sm) +:+ "/" +:+ md_name (snd sm).

Definition MethodResolver_Resolve (r : MethodResolver) (fullMethodName : string)
  : result error MethodDescriptor * MethodResolver :=
  match cache r !! fullMethodName with
  | Some md => (Ok md, r)
  | None =>
      match ParseFullMethodName fullMethodName with
      | Err e => (Err e, r)
      | Ok (serviceName, _) =>
          let pbPath := filepath_Join (descriptorDir r) (serviceName +:+ ".pb") in
          match os_ReadFile pbPath with
          | Err e => (Err (ErrReadDescriptorFile pbPath e), r)
          | Ok data =>
              match proto_Unmarshal data with
              | Err e => (Err (ErrUnmarshalFileDescriptorSet e), r)
              | Ok fds =>
                  match CreateFileDescriptorsFromSet fds with
                  | Err e => (Err (ErrCreateFileDescriptors e), r)
                  | Ok files =>
                      match find (fun sm => String.eqb (full_name sm) fullMethodName)
                              (all_methods files) with
                      | Some (_, m) =>
                          (Ok m,
                           {| descriptorDir := descriptorDir r;
                              cache := <[fullMethodName := m]> (cache r) |})
                      | None => (Err (ErrMethodNotFoundInSet fullMethodName), r)
                      end
                  end
              end
          end
      end
  end.

(** *** The inline resolver *)

Record InlineMethodResolver : Type := {
  pools : gmap string InlineDescriptorPool
}.

Definition NewInlineMethodResolver : InlineMethodResolver :=
  {| pools := ∅ |}.

(** The first lines of [Resolve]: the cache key, empty when there is
    neither an identifier nor bytes. *)
Definition cache_key (descriptorSetBytes : list ascii) (descriptorID : string)
  : string :=
  if String.eqb descriptorID "" && (0 <? length descriptorSetBytes)%nat
  then hex.EncodeToString (sha256.Sum256 descriptorSetBytes)
  else descriptorID.

(** [InlineMethodResolver.Resolve]. *)
Definition InlineMethodResolver_Resolve (r : InlineMethodResolver)
    (descriptorSetBytes : list ascii) (descriptorID service method : string)
  : result error (ResolvedMethod * string) * InlineMethodResolver :=
  let key := cache_key descriptorSetBytes descriptorID in
  if String.eqb key "" then (Err ErrEmptyDescriptorID, r)
  else
    let obtained :=
      match pools r !! key with
      | Some pool => Ok (pool, r)
      | None =>
          if (length descriptorSetBytes =? 0)%nat
          then Err (ErrDescriptorNotFound key)
          else
            match newInlineDescriptorPool descriptorSetBytes with
            | Err e => Err e
            | Ok pool => Ok (pool, {| pools := <[key := pool]> (pools r) |})
            end
      end in
    match obtained with
    | Err e => (Err e, r)
    | Ok (pool, r') =>
        match InlineDescriptorPool_Resolve pool service method with
        | Err e => (Err e, r')
        | Ok rm => (Ok (rm, key), r')
        end
    end.

(** *** The payload codec *)

(** [jsonpbMarshaler = &jsonpb.Marshaler{EmitDefaults: true}]. *)
Definition jsonpbMarshaler_EmitDefaults : bool := true.

Definition JSONToMessage (method : MethodDescriptor) (jsonBody : list ascii)
  : result string Message :=
  jsonpb_Unmarshal (md_input method) jsonBody.

Definition MessageToJSON (msg : Message) : result string (list ascii) :=
  jsonpb_Marshal jsonpbMarshaler_EmitDefaults msg.

(** *** The invoker *)

Record Invoker : Type := {
  resolver : MethodResolver;
  inlineResolver : InlineMethodResolver;
  (** a [time.Duration], in nanoseconds *)
  timeout : Z
}.

Definition NewInvoker (descriptorDir : string) (timeout : Z) : Invoker :=
  {| resolver := NewMethodResolver descriptorDir;
     inlineResolver := NewInlineMethodResolver;
     timeout := timeout |}.

Record InvokeRequest : Type := {
  Target : string;
  FullMethodName : string;
  ServiceName : string;
  MethodName : string;
  InlineDescriptorSet : list ascii;
  DescriptorID : string;
  Body : list ascii
}.

(** A context is the time left before its deadline, if it has one. *)
Definition WithTimeout (ctx : option Z) (d : Z) : option Z :=
  match ctx with
  | Some remaining => Some (Z.min remaining d)
  | None => Some d
  end.

(** What an invocation does beyond resolving the method, in order. *)
Inductive event : Type :=
| EvJSONToMessage
| EvDial (target : string)
| EvInvokeRpc
| EvMessageToJSON
| EvClose.

(** The request [req] sent to another target with another body. *)
Definition with_target_body (req : InvokeRequest) (target : string) (body : list ascii)
  : InvokeRequest :=
  {| Target := target; FullMethodName := FullMethodName req;
     ServiceName := ServiceName req; MethodName := MethodName req;
     InlineDescriptorSet := InlineDescriptorSet req; DescriptorID := DescriptorID req;
     Body := body |}.

(** The first part of [Invoker.Invoke]: the resolved method and the name
    used in error messages. *)
Definition resolve_request (inv : Invoker) (req : InvokeRequest)
  : result error (ResolvedMethod * string) * Invoker :=
  if (0 <? length (InlineDescriptorSet req))%nat || negb (String.eqb (DescriptorID req) "")
  then
    if String.eqb (MethodName req) "" then (Err ErrMissingMethodInline, inv)
    else
      let '(res, ir) :=
        InlineMethodResolver_Resolve (inlineResolver inv) (InlineDescriptorSet req)
          (DescriptorID req) (ServiceName req) (MethodName req) in
      let inv' := {| resolver := resolver inv; inlineResolver := ir;
                     timeout := timeout inv |} in
      match res with
      | Err e => (Err (ErrResolveInline e), inv')
      | Ok (method, _) =>
          (Ok (method, "/" +:+ ServiceFQN method +:+ "/" +:+ md_name (Method method)), inv')
      end
  else
    if String.eqb (FullMethodName req) "" then (Err ErrMissingFullMethodName, inv)
    else
      let '(res, sr) := MethodResolver_Resolve (resolver inv) (FullMethodName req) in
      let inv' := {| resolver := sr; inlineResolver := inlineResolver inv;
                     timeout := timeout inv |} in
      match res with
      | Err e => (Err (ErrResolveMethod e), inv')
      | Ok md =>
          (Ok ({| Method := md; ServiceFQN := md_service md |}, FullMethodName req), inv')
      end.

(** [Invoker.Invoke]: the response or the error, the invoker with its
    caches updated, and the events in the order they happened. *)
Definition Invoke (inv : Invoker) (ctx : option Z) (req : InvokeRequest)
  : result error (list ascii) * Invoker * list event :=
  let ctx := if (0 <? timeout inv)%Z then WithTimeout ctx (timeout inv) else ctx in
  match resolve_request inv req with
  | (Err e, inv') => (Err e, inv', [])
  | (Ok (method, methodName), inv') =>
      if md_client_streaming (Method method) || md_server_streaming (Method method)
      then (Err (ErrStreamingNotSupported methodName), inv', [])
      else
        match JSONToMessage (Method method) (Body req) with
        | Err e => (Err (ErrJSONToMessage e), inv', [EvJSONToMessage])
        | Ok reqMsg =>
            match grpc_DialContext ctx (Target req) with
            | Err e =>
                (Err (ErrDial (Target req) e), inv',
                 [EvJSONToMessage; EvDial (Target req)])
            | Ok conn =>
                match grpcdynamic_InvokeRpc ctx conn (Method method) reqMsg with
                | Err e =>
                    (Err (ErrInvokeRpc e), inv',
                     [EvJSONToMessage; EvDial (Target req); EvInvokeRpc; EvClose])
                | Ok respMsg =>
                    (match MessageToJSON respMsg with
                     | Err e => Err (ErrMessageToJSON e)
                     | Ok json => Ok json
                     end, inv',
                     [EvJSONToMessage; EvDial (Target req); EvInvokeRpc;
                      EvMessageToJSON; EvClose])
                end
            end
        end
  end.

End Environment.

End core.

(** ** Notions the properties are stated with *)

Module props.
Import desc core.

(** The services of a descriptor set, in the order in which
    [newInlineDescriptorPool] visits them. *)
Definition all_services (files : list FileDescriptor) : list ServiceDescriptor :=
  flat_map fd_services files.

(** The pool that holds the services [services], added in this order. *)
Definition pool_from (services : list ServiceDescriptor) : InlineDescriptorPool :=
  fold_left add_service services empty_pool.

(** The services of a descriptor set with a given short name. *)
Definition with_short_name (name : string) (services : list ServiceDescriptor)
  : list ServiceDescriptor :=
  List.filter (fun svc => String.eqb (sd_name svc) name) services.

(** Identifiers of the protobuf language: a letter or an underscore, then
    letters, digits and underscores. *)
Definition ident_start (c : ascii) : bool :=
  let n := N_of_ascii c in
  ((65 <=? n) && (n <=? 90)) || ((97 <=? n) && (n <=? 122)) || (n =? 95).

Definition ident_char (c : ascii) : bool :=
  ident_start c || ((48 <=? N_of_ascii c) && (N_of_ascii c <=? 57)).

Fixpoint ident_chars (s : string) : bool :=
  match s with
  | EmptyString => true
  | String c s' => ident_char c && ident_chars s'
  end.

Definition is_ident (s : string) : bool :=
  match s with
  | EmptyString => false
  | String c s' => ident_start c && ident_chars s'
  end.

(** Identifiers joined by dots; [start] holds where an identifier must
    begin. *)
Fixpoint full_ident_from (start : bool) (s : string) : bool :=
  match s with
  | EmptyString => negb start
  | String c s' =>
      if start then ident_start c && full_ident_from false s'
      else if Ascii.eqb c "."%char then full_ident_from true s'
      else ident_char c && full_ident_from false s'
  end.

Definition is_full_ident (s : string) : bool := full_ident_from true s.

(** The bytes of dotted identifiers. *)
Definition name_char (c : ascii) : bool := ident_char c || Ascii.eqb c "."%char.

Fixpoint name_chars (s : string) : bool :=
  match s with
  | EmptyString => true
  | String c s' => name_char c && name_chars s'
  end.

(** A name that begins as an identifier does. *)
Definition starts_ident (s : string) : bool :=
  match s with
  | EmptyString => false
  | String c _ => ident_start c
  end.

(** The last lines of [InlineDescriptorPool.Resolve]: the method of the
    selected service. *)
Definition method_of (svc : ServiceDescriptor) (method : string)
  : result error ResolvedMethod :=
  match FindMethodByName svc method with
  | None => Err (ErrMethodNotFound method (GetFullyQualifiedName svc))
  | Some md => Ok {| Method := md; ServiceFQN := GetFullyQualifiedName svc |}
  end.

(** What a linked descriptor set guarantees of a service: its name and
    the names of its methods are identifiers and its package, if any, is
    a dotted identifier. *)
Definition valid_service (svc : ServiceDescriptor) : bool :=
  is_ident (sd_name svc)
  && (String.eqb (sd_package svc) "" || is_full_ident (sd_package svc))
  && forallb (fun m => is_ident (md_name m)) (sd_methods svc).

(** A valid descriptor set: valid services whose fully-qualified names
    differ from one another. *)
Definition valid_descriptor_set (files : list FileDescriptor) : Prop :=
  List.Forall (fun svc => valid_service svc = true) (all_services files)
  /\ List.NoDup (map GetFullyQualifiedName (all_services files)).

(** What [InlineMethodResolver.Resolve] returns when it resolves out of
    the pool [pool] cached under [key]. *)
Definition resolved_in (pool : InlineDescriptorPool) (key service method : string)
  : result error (ResolvedMethod * string) :=
  match InlineDescriptorPool_Resolve pool service method with
  | Err e => Err e
  | Ok rm => Ok (rm, key)
  end.

(** Text made of bytes below 128 only. *)
Definition ascii_only (l : list ascii) : Prop :=
  List.Forall (fun c => N_of_ascii c < 128) l.

(** The keys of the cache of the static resolver are full method names
    of methods of some descriptor set. *)
Definition cache_keys_wf (c : gmap string MethodDescriptor) : Prop :=
  forall k md, c !! k = Some md -> exists sm, k = full_name sm.

Section Calls.

Context {FileDescriptorSet : Type}.
Variable proto_Unmarshal : list ascii -> result string FileDescriptorSet.
Variable CreateFileDescriptorsFromSet :
  FileDescriptorSet -> result string (list FileDescriptor).

(** A call of [InlineMethodResolver.Resolve]. *)
Record call : Type := {
  c_bytes : list ascii;
  c_id : string;
  c_service : string;
  c_method : string
}.

Definition do_call (r : InlineMethodResolver) (c : call)
  : result error (ResolvedMethod * string) * InlineMethodResolver :=
  InlineMethodResolver_Resolve proto_Unmarshal CreateFileDescriptorsFromSet r
    (c_bytes c) (c_id c) (c_service c) (c_method c).

(** The resolver after a sequence of calls. *)
Definition after_calls (r : InlineMethodResolver) (calls : list call)
  : InlineMethodResolver :=
  fold_left (fun r c => snd (do_call r c)) calls r.

(** Bytes were supplied under the key [key] by the call [c]. *)
Definition supplies (key : string) (c : call) : Prop :=
  c_bytes c <> [] /\ cache_key (c_bytes c) (c_id c) = key.

End Calls.

End props.

(** ** A small environment to run the definitions in

    Stand-ins for the libraries and the file system: a decoder that knows
    three descriptor sets by the bytes that name them, a linker that
    accepts every set, and a directory with one descriptor file. *)

Module fixtures.
Import desc core.

Definition EchoRequest : MessageDescriptor := {| msg_name := "echo.EchoRequest" |}.
Definition EchoResponse : MessageDescriptor := {| msg_name := "echo.EchoResponse" |}.

Definition Echo : MethodDescriptor :=
  {| md_name := "Echo"; md_service := "echo.EchoService";
     md_input := EchoRequest; md_output := EchoResponse;
     md_client_streaming := false; md_server_streaming := false |}.

Definition Watch : MethodDescriptor :=
  {| md_name := "Watch"; md_service := "echo.EchoService";
     md_input := EchoRequest; md_output := EchoResponse;
     md_client_streaming := false; md_server_streaming := true |}.

(** The second version of the service answers [Echo] as a stream. *)
Definition Echo_v2 : MethodDescriptor :=
  {| md_name := "Echo"; md_service := "echo.EchoService";
     md_input := EchoRequest; md_output := EchoResponse;
     md_client_streaming := false; md_server_streaming := true |}.

Definition EchoService : ServiceDescriptor :=
  {| sd_package := "echo"; sd_name := "EchoService"; sd_methods := [Echo; Watch] |}.

Definition EchoService_v2 : ServiceDescriptor :=
  {| sd_package := "echo"; sd_name := "EchoService"; sd_methods := [Echo_v2] |}.

(** Two services with one short name. *)
Definition AdminEcho : ServiceDescriptor :=
  {| sd_package := "admin"; sd_name := "EchoService"; sd_methods := [Echo] |}.

Definition set_v1 : list FileDescriptor := [{| fd_services := [EchoService] |}].
Definition set_v2 : list FileDescriptor := [{| fd_services := [EchoService_v2] |}].
Definition set_two : list FileDescriptor :=
  [{| fd_services := [EchoService] |}; {| fd_services := [AdminEcho] |}].

Definition bytes_of (s : string) : list ascii := list_ascii_of_string s.

Definition Unmarshal (data : list ascii) : result string (list FileDescriptor) :=
  let name := string_of_list_ascii data in
  if String.eqb name "echo-v1" then Ok set_v1
  else if String.eqb name "echo-v2" then Ok set_v2
  else if String.eqb name "echo-two" then Ok set_two
  else Err "proto: cannot parse invalid wire-format data".

Definition Create (fds : list FileDescriptor) : result string (list FileDescriptor) :=
  Ok fds.

Definition Join (dir name : string) : string := dir +:+ "/" +:+ name.

Definition ReadFile (path : string) : result string (list ascii) :=
  if String.eqb path "core/echo.EchoService.pb" then Ok (bytes_of "echo-v1")
  else Err "no such file or directory".

(** A codec and a network that echo: the message is its JSON text. *)
Definition Unmarshal_json (_ : MessageDescriptor) (body : list ascii)
  : result string (list ascii) := Ok body.
Definition Marshal_json (_ : bool) (msg : list ascii) : result string (list ascii) :=
  Ok msg.
Definition Dial (_ : option Z) (target : string) : result string string := Ok target.
Definition InvokeRpc (_ : option Z) (_ : string) (_ : MethodDescriptor)
    (msg : list ascii) : result string (list ascii) := Ok msg.

Definition resolve_inline := InlineMethodResolver_Resolve Unmarshal Create.
Definition resolve_static := MethodResolver_Resolve Unmarshal Create Join ReadFile.
Definition invoke :=
  Invoke Unmarshal Create Join ReadFile Unmarshal_json Marshal_json Dial InvokeRpc.

(** A request for the streaming method [Watch], with its descriptor set
    inline. *)
Definition watch_request (target : string) (body : list ascii) : InvokeRequest :=
  {| Target := target; FullMethodName := "";
     ServiceName := "EchoService"; MethodName := "Watch";
     InlineDescriptorSet := bytes_of "echo-v1"; DescriptorID := "echo";
     Body := body |}.

Definition echo_request (target : string) (body : list ascii) : InvokeRequest :=
  {| Target := target; FullMethodName := "/echo.EchoService/Echo";
     ServiceName := ""; MethodName := "";
     InlineDescriptorSet := []; DescriptorID := "";
     Body := body |}.

(** The inline resolver after the first version of the descriptor set was
    supplied under the identifier ["echo"]. *)
Definition pool_v1 : InlineDescriptorPool := pool_of_files set_v1.
Definition pool_v2 : InlineDescriptorPool := pool_of_files set_v2.

Definition cached_v1 : InlineMethodResolver :=
  snd (resolve_inline NewInlineMethodResolver (bytes_of "echo-v1") "echo"
         "EchoService" "Echo").

End fixtures.

(** ** The HTTP handler (handler.go) and its options *)

Module gateway.

Record Options : Type := {
  (** a [time.Duration]; zero means no timeout *)
  Timeout : Z;
  Path : string;
  DefaultTarget : string
}.

(** [DefaultOptions]: the path is decoded from the transport encoding and
    the error of the decoding is dropped. *)
Definition DefaultOptions : Options :=
  let '(decoded, _) := sdk.decodeBase64V1 "=gHa0xWYlh2L" in
  {| Timeout := 0;
     Path := string_of_list_ascii (default [] decoded);
     DefaultTarget := "" |}.

(** The JSON structure of the request body; a [json.RawMessage] that was
    absent from the document is [None], Go's nil. *)
Record gatewayRequest : Type := {
  Target : string;
  TargetAddr : string;
  Method : string;
  FullMethodNameAlt : string;
  Body : option (list ascii);
  Service : string;
  Descriptor : string;
  DescriptorID : string;
  Params : option (list ascii)
}.

(** The text of an error response: a fixed text, or a prefix and the
    text of the error that follows it. *)
Inductive message : Type :=
| MsgText (text : string)
| MsgInvalidJSONBody (cause : string)
| MsgInvalidBase64Descriptor (cause : base64.CorruptInputError)
| MsgInvoke (cause : core.error).

Inductive response_body : Type :=
| NoBody
| ErrorJSON (msg : message)
| Payload (resp : list ascii).

(** What the handler wrote: the status code, the Content-Type header if
    it set one, and the body. *)
Record HttpResponse : Type := {
  status : nat;
  content_type : option string;
  body : response_body
}.

Definition StatusOK : nat := 200.
Definition StatusBadRequest : nat := 400.
Definition StatusNotFound : nat := 404.
Definition StatusBadGateway : nat := 502.

(** [writeJSONError]. *)
Definition writeJSONError (code : nat) (msg : message) : HttpResponse :=
  {| status := code; content_type := Some "application/json"; body := ErrorJSON msg |}.

(** [w.WriteHeader(http.StatusNotFound)] and nothing else. *)
Definition not_found : HttpResponse :=
  {| status := StatusNotFound; content_type := None; body := NoBody |}.

(** The request as the handler reads it: the HTTP method, what
    [io.ReadAll(r.Body)] returns, and the context. *)
Record HttpRequest : Type := {
  http_method : string;
  http_body : result string (list ascii);
  http_context : option Z
}.

(** Target precedence: target, then target_addr, then the default of
    the options. *)
Definition select_target (opts : Options) (req : gatewayRequest) : string :=
  let target := Target req in
  let target := if String.eqb target "" then TargetAddr req else target in
  let target := if String.eqb target "" then DefaultTarget opts else target in
  target.

(** body, else params, else the empty JSON object. *)
Definition select_body (req : gatewayRequest) : list ascii :=
  match Body req with
  | Some body => body
  | None =>
      match Params req with
      | Some body => body
      | None => list_ascii_of_string "{}"
      end
  end.

(** The part of the handler between the parsing of the JSON document and
    the call of [Invoke]: the request for the invoker, or the error
    response. *)
Definition invoke_request (opts : Options) (req : gatewayRequest)
  : result HttpResponse core.InvokeRequest :=
  let target := select_target opts req in
  if String.eqb target "" then Err (writeJSONError StatusBadRequest (MsgText "missing target"))
  else
    let body := select_body req in
    if negb (String.eqb (Descriptor req) "") then
      if String.eqb (Method req) "" then
        Err (writeJSONError StatusBadRequest
               (MsgText "missing method for inline descriptor request"))
      else
        match base64.DecodeString (Descriptor req) with
        | (_, Some err) =>
            Err (writeJSONError StatusBadRequest (MsgInvalidBase64Descriptor err))
        | (descBytes, None) =>
            Ok {| core.Target := target; core.FullMethodName := "";
                  core.ServiceName := Service req; core.MethodName := Method req;
                  core.InlineDescriptorSet := descBytes;
                  core.DescriptorID := DescriptorID req;
                  core.Body := body |}
        end
    else if negb (String.eqb (DescriptorID req) "") then
      if String.eqb (Method req) "" then
        Err (writeJSONError StatusBadRequest
               (MsgText "missing method for descriptor_id request"))
      else
        Ok {| core.Target := target; core.FullMethodName := "";
              core.ServiceName := Service req; core.MethodName := Method req;
              core.InlineDescriptorSet := [];
              core.DescriptorID := DescriptorID req;
              core.Body := body |}
    else
      let fullMethod := Method req in
      let fullMethod :=
        if String.eqb fullMethod "" then FullMethodNameAlt req else fullMethod in
      if String.eqb fullMethod "" then
        Err (writeJSONError StatusBadRequest
               (MsgText "missing method (full_method_name) or inline descriptor fields"))
      else
        Ok {| core.Target := target; core.FullMethodName := fullMethod;
              core.ServiceName := ""; core.MethodName := "";
              core.InlineDescriptorSet := [];
              core.DescriptorID := "";
              core.Body := body |}.

Section Handler.

Context {FileDescriptorSet Message ClientConn : Type}.
Variable proto_Unmarshal : list ascii -> result string FileDescriptorSet.
Variable CreateFileDescriptorsFromSet :
  FileDescriptorSet -> result string (list desc.FileDescriptor).
Variable filepath_Join : string -> string -> string.
Variable os_ReadFile : string -> result string (list ascii).
Variable jsonpb_Unmarshal : desc.MessageDescriptor -> list ascii -> result string Message.
Variable jsonpb_Marshal : bool -> Message -> result string (list ascii).
Variable grpc_DialContext : option Z -> string -> result string ClientConn.
Variable grpcdynamic_InvokeRpc :
  option Z -> ClientConn -> desc.MethodDescriptor -> Message -> result string Message.
(** [json.Unmarshal] into a [gatewayRequest], and [core.DefaultDescriptorDir]. *)
Variable json_Unmarshal : list ascii -> result string gatewayRequest.
Variable DefaultDescriptorDir : string.

(** The invoker that [Handler] makes once, for all requests. *)
Definition handler_invoker (opts : Options) : core.Invoker :=
  core.NewInvoker DefaultDescriptorDir (Timeout opts).

(** The function that [Handler] returns, on the invoker [inv]: the
    response, the invoker afterwards, and the events of the invocation. *)
Definition ServeHTTP (opts : Options) (inv : core.Invoker) (r : HttpRequest)
  : HttpResponse * core.Invoker * list core.event :=
  if negb (String.eqb (http_method r) "POST") then (not_found, inv, [])
  else
    match sdk.decodeRequestBody (http_body r) with
    | Err _ => (not_found, inv, [])
    | Ok decodedBody =>
        match json_Unmarshal (default [] decodedBody) with
        | Err err => (writeJSONError StatusBadRequest (MsgInvalidJSONBody err), inv, [])
        | Ok req =>
            match invoke_request opts req with
            | Err resp => (resp, inv, [])
            | Ok invokeReq =>
                let '(res, inv', events) :=
                  core.Invoke proto_Unmarshal CreateFileDescriptorsFromSet filepath_Join
                    os_ReadFile jsonpb_Unmarshal jsonpb_Marshal grpc_DialContext
                    grpcdynamic_InvokeRpc inv (http_context r) invokeReq in
                match res with
                | Err err =>
                    (writeJSONError StatusBadGateway (MsgInvoke err), inv', events)
                | Ok resp =>
                    ({| status := StatusOK; content_type := Some "application/json";
                        body := Payload resp |}, inv', events)
                end
            end
        end
    end.

End Handler.

End gateway.

(** ** Further notions: what the caches hold *)

Module caches.
Import desc core props.


(** Bytes that strings.TrimSpace leaves at the ends of a text: below 128
    and no white space. *)
Definition plain_char (c : ascii) : bool :=
  (N_of_ascii c <? 128) && negb (strings.asciiSpace c).

Section FirstParsed.

Context {FileDescriptorSet : Type}.
Variable proto_Unmarshal : list ascii -> result string FileDescriptorSet.
Variable CreateFileDescriptorsFromSet :
  FileDescriptorSet -> result string (list FileDescriptor).

(** The pool of the first call, in order, that supplied bytes under the
    key [key] which parsed. *)
Fixpoint first_parsed (key : string) (calls : list call) : option InlineDescriptorPool :=
  match calls with
  | [] => None
  | c :: calls' =>
      if (0 <? length (c_bytes c))%nat && String.eqb (cache_key (c_bytes c) (c_id c)) key
      then match newInlineDescriptorPool proto_Unmarshal CreateFileDescriptorsFromSet
                   (c_bytes c) with
           | Ok pool => Some pool
           | Err _ => first_parsed key calls'
           end
      else first_parsed key calls'
  end.

End FirstParsed.

End caches.

(** ** Further notions: request bodies *)

Module bodies.

(** A byte that base64 text cannot hold: outside the alphabet, no line
    break and not the padding character. *)
Definition foreign_byte (c : ascii) : bool :=
  (base64.decodeMap c =? 0xFF) && negb (base64.is_newline c)
  && negb (Ascii.eqb c base64.padChar).

(** The slice that [decodeBase64V1] returns for the bytes [b]: nil when
    there are none. *)
Definition slice_of (b : list ascii) : option (list ascii) :=
  match b with
  | [] => None
  | _ :: _ => Some b
  end.

(** Text made of line breaks only. *)
Fixpoint line_breaks (s : string) : bool :=
  match s with
  | EmptyString => true
  | String c s' => base64.is_newline c && line_breaks s'
  end.

End bodies.

(** ** Sample requests for the handler

    A stand-in for [json.Unmarshal] that knows two documents by name. *)

Module samples.

Definition echo_call : gateway.gatewayRequest :=
  {| gateway.Target := "localhost:50051"; gateway.TargetAddr := "";
     gateway.Method := "/echo.EchoService/Echo"; gateway.FullMethodNameAlt := "";
     gateway.Body := Some (list_ascii_of_string "{}");
     gateway.Service := ""; gateway.Descriptor := ""; gateway.DescriptorID := "";
     gateway.Params := None |}.

(** A request whose descriptor is a single line feed. *)
Definition blank_descriptor_call : gateway.gatewayRequest :=
  {| gateway.Target := ""; gateway.TargetAddr := "localhost:50051";
     gateway.Method := "Echo"; gateway.FullMethodNameAlt := "";
     gateway.Body := None;
     gateway.Service := "EchoService";
     gateway.Descriptor := String (ascii_of_N 10) EmptyString;
     gateway.DescriptorID := "";
     gateway.Params := None |}.

Definition parse_json (doc : list ascii) : result string gateway.gatewayRequest :=
  let name := string_of_list_ascii doc in
  if String.eqb name "echo call" then Ok echo_call
  else if String.eqb name "blank descriptor call" then Ok blank_descriptor_call
  else Err "invalid character".

(** A service without package beside one of the same name in a
    package. *)
Definition BareEcho : desc.ServiceDescriptor :=
  {| desc.sd_package := ""; desc.sd_name := "EchoService";
     desc.sd_methods := [fixtures.Echo_v2] |}.

Definition set_bare : list desc.FileDescriptor :=
  [{| desc.fd_services := [fixtures.EchoService] |};
   {| desc.fd_services := [BareEcho] |}].

Definition no_options : gateway.Options :=
  {| gateway.Timeout := 0; gateway.Path := "/grpc-gateway"; gateway.DefaultTarget := "" |}.

Definition serve :=
  gateway.ServeHTTP fixtures.Unmarshal fixtures.Create fixtures.Join fixtures.ReadFile
    fixtures.Unmarshal_json fixtures.Marshal_json fixtures.Dial fixtures.InvokeRpc
    parse_json.

Definition post (doc : string) : gateway.HttpRequest :=
  {| gateway.http_method := "POST";
     gateway.http_body :=
       Ok (list_ascii_of_string (sdk.encodeBase64V1 (list_ascii_of_string doc)));
     gateway.http_context := None |}.

End samples.

(** Linear arithmetic with division and remainder by constants. *)
Ltac divlia := zify; Z.to_euclidean_division_equations; lia.

(** * Properties *)

Example TrimSpace_ex1 : strings.TrimSpace "  pkg.Svc	" = "pkg.Svc".
Proof. reflexivity. Qed.

Example sha256_constants :
  length sha256._K = 64%nat
  /\ nth 0 sha256._K 0 = 0x428a2f98 /\ nth 63 sha256._K 0 = 0xc67178f2
  /\ sha256.init_word 0 = 0x6a09e667 /\ sha256.init_word 7 = 0x5be0cd19.
Proof. vm_compute. repeat split. Qed.

Example sha256_abc :
  hex.EncodeToString (sha256.Sum256 (list_ascii_of_string "abc"))
  = "ba7816bf8f01cfea414140de5dae2223b00361a396177a9cb410ff61f20015ad".
Proof. vm_compute. reflexivity. Qed.

Example sha256_two_blocks :
  hex.EncodeToString (sha256.Sum256
    (list_ascii_of_string "abcdbcdecdefdefgefghfghighijhijkijkljklmklmnlmnomnopnopq"))
  = "248d6a61d20638b8e5c026930c3e6039a33ce45964ff2167f6ecedd419db06c1".
Proof. vm_compute. reflexivity. Qed.

Example base64_ex1 : base64.EncodeToString (list_ascii_of_string "/grpc-gateway") = "L2dycGMtZ2F0ZXdheQ==".
Proof. reflexivity. Qed.
Example base64_ex2 : base64.DecodeString "L2dycGMtZ2F0ZXdheQ==" = (list_ascii_of_string "/grpc-gateway", None).
Proof. reflexivity. Qed.
Example base64_ex3 : base64.DecodeString "L2dyc
GMt=" = (list_ascii_of_string "/grpc-", Some (base64.CorruptInput 9)).
Proof. vm_compute. reflexivity. Qed.

(** ** Bytes and bit operations *)

Lemma land_shiftl_low (x y k : N) : y < 2 ^ k -> N.land (N.shiftl x k) y = 0.
Proof.
  intros Hy. apply N.bits_inj. intros n. rewrite N.land_spec, N.bits_0.
  destruct (N.lt_ge_cases n k) as [Hn | Hn].
  - rewrite N.shiftl_spec_low by assumption. reflexivity.
  - rewrite <- (N.mod_small y (2 ^ k)) by assumption.
    rewrite N.mod_pow2_bits_high by assumption. apply andb_false_r.
Qed.

Lemma lor_shiftl_add (x y k : N) : y < 2 ^ k -> N.lor (N.shiftl x k) y = x * 2 ^ k + y.
Proof.
  intros Hy. rewrite <- N.shiftl_mul_pow2.
  rewrite N.add_nocarry_lxor by (apply land_shiftl_low; assumption).
  symmetry. apply N.lxor_lor. apply land_shiftl_low; assumption.
Qed.

(** A disjunction of a multiple of [2 ^ k] and a number below [2 ^ k] is
    their sum. *)
Lemma lor_high_low (k x y : N) : x mod 2 ^ k = 0 -> y < 2 ^ k -> N.lor x y = x + y.
Proof.
  intros Hx Hy.
  assert (E : x = N.shiftl (x / 2 ^ k) k).
  { rewrite N.shiftl_mul_pow2. rewrite (N.div_mod x (2 ^ k)) at 1.
    - rewrite Hx. lia.
    - apply N.pow_nonzero. discriminate. }
  rewrite E at 1. rewrite lor_shiftl_add by assumption.
  rewrite <- N.shiftl_mul_pow2, <- E. reflexivity.
Qed.

Lemma ascii_of_N_high (q : N) (a : ascii) : ascii_of_N (256 * q + N_of_ascii a) = a.
Proof. destruct a as [[] [] [] [] [] [] [] []]; destruct q; reflexivity. Qed.

(** The conversion [byte(n)] keeps the low eight bits. *)
Lemma N_of_ascii_of_N (n : N) : N_of_ascii (ascii_of_N n) = n mod 256.
Proof.
  assert (Hr : n mod 256 < 256) by (apply N.mod_lt; discriminate).
  rewrite (N.div_mod n 256) at 1 by discriminate.
  rewrite <- (N_ascii_embedding (n mod 256)) at 1 by assumption.
  rewrite ascii_of_N_high. apply N_ascii_embedding; assumption.
Qed.

Lemma ascii_of_N_eq (n : N) (a : ascii) : n mod 256 = N_of_ascii a -> ascii_of_N n = a.
Proof.
  intros H. rewrite <- (ascii_N_embedding (ascii_of_N n)).
  rewrite N_of_ascii_of_N, H. apply ascii_N_embedding.
Qed.

(** ** The base64 round trip *)

Lemma below_64_cases (v : N) : v < 64 -> In v (map N.of_nat (seq 0 64)).
Proof.
  intros H. apply in_map_iff. exists (N.to_nat v). split; [lia |].
  apply in_seq. lia.
Qed.

Lemma decodeMap_encode (v : N) : v < 64 -> base64.decodeMap (base64.encode v) = v.
Proof.
  intros H. apply below_64_cases in H. revert v H.
  apply (proj1 (List.Forall_forall _ _)).
  vm_compute. repeat constructor.
Qed.

Lemma encode_is_ascii (v : N) : v < 64 -> N_of_ascii (base64.encode v) < 128.
Proof.
  intros H. apply below_64_cases in H. revert v H.
  apply (proj1 (List.Forall_forall _ _)).
  vm_compute. repeat constructor.
Qed.

Lemma sextet_lt (x : N) : N.land x 0x3F < 64.
Proof.
  change 0x3F with (N.ones 6). rewrite N.land_ones.
  apply N.mod_lt. discriminate.
Qed.

(** Three bytes as one 24-bit value. *)
Lemma chunk_val (a b c : ascii) :
  N.lor (N.lor (N.shiftl (N_of_ascii a) 16) (N.shiftl (N_of_ascii b) 8)) (N_of_ascii c)
  = N_of_ascii a * 65536 + N_of_ascii b * 256 + N_of_ascii c.
Proof.
  pose proof (N_ascii_bounded a). pose proof (N_ascii_bounded b).
  pose proof (N_ascii_bounded c).
  rewrite !N.shiftl_mul_pow2.
  change (2 ^ 16) with 65536. change (2 ^ 8) with 256.
  rewrite (lor_high_low 16 (N_of_ascii a * 65536)).
  - rewrite (lor_high_low 8); [reflexivity | |]; change (2 ^ 8) with 256; divlia.
  - change (2 ^ 16) with 65536. divlia.
  - change (2 ^ 16) with 65536. lia.
Qed.

(** The four sextets of a 24-bit value put together again. *)
Lemma quantum_val_sextets (val : N) :
  val < 16777216 ->
  base64.quantum_val
    [N.land (N.shiftr val 18) 0x3F; N.land (N.shiftr val 12) 0x3F;
     N.land (N.shiftr val 6) 0x3F; N.land val 0x3F] = val.
Proof.
  intros Hv. unfold base64.quantum_val. cbn [nth].
  change 0x3F with (N.ones 6).
  rewrite !N.land_ones, !N.shiftl_mul_pow2, !N.shiftr_div_pow2.
  change (2 ^ 18) with 262144. change (2 ^ 12) with 4096. change (2 ^ 6) with 64.
  rewrite (lor_high_low 18 (val / 262144 mod 64 * 262144)
             (val / 4096 mod 64 * 4096)).
  2: change (2 ^ 18) with 262144; divlia.
  2: change (2 ^ 18) with 262144; divlia.
  rewrite (lor_high_low 12 (val / 262144 mod 64 * 262144 + val / 4096 mod 64 * 4096)
             (val / 64 mod 64 * 64)).
  2: change (2 ^ 12) with 4096; divlia.
  2: change (2 ^ 12) with 4096; divlia.
  rewrite (lor_high_low 6).
  2: change (2 ^ 6) with 64; divlia.
  2: change (2 ^ 6) with 64; divlia.
  divlia.
Qed.

Lemma sextet_0_zero (val : N) : val mod 64 = 0 -> N.land val 0x3F = 0.
Proof.
  intros H. change 0x3F with (N.ones 6). rewrite N.land_ones. exact H.
Qed.

Lemma sextet_6_zero (val : N) : val mod 4096 = 0 -> N.land (N.shiftr val 6) 0x3F = 0.
Proof.
  intros H. change 0x3F with (N.ones 6).
  rewrite N.land_ones, N.shiftr_div_pow2. change (2 ^ 6) with 64. divlia.
Qed.

Lemma quantum_val_3 (val : N) :
  val < 16777216 -> val mod 64 = 0 ->
  base64.quantum_val
    [N.land (N.shiftr val 18) 0x3F; N.land (N.shiftr val 12) 0x3F;
     N.land (N.shiftr val 6) 0x3F] = val.
Proof.
  intros Hv H0. rewrite <- (quantum_val_sextets val Hv) at 4.
  unfold base64.quantum_val. cbn [nth].
  rewrite (sextet_0_zero val H0). reflexivity.
Qed.

Lemma quantum_val_2 (val : N) :
  val < 16777216 -> val mod 4096 = 0 ->
  base64.quantum_val
    [N.land (N.shiftr val 18) 0x3F; N.land (N.shiftr val 12) 0x3F] = val.
Proof.
  intros Hv H0. rewrite <- (quantum_val_sextets val Hv) at 3.
  unfold base64.quantum_val. cbn [nth].
  rewrite (sextet_6_zero val H0).
  rewrite (sextet_0_zero val) by divlia.
  reflexivity.
Qed.

Lemma quantum_bytes_4 (a b c : ascii) :
  let val := N.lor (N.lor (N.shiftl (N_of_ascii a) 16) (N.shiftl (N_of_ascii b) 8))
               (N_of_ascii c) in
  base64.quantum_bytes 4
    [N.land (N.shiftr val 18) 0x3F; N.land (N.shiftr val 12) 0x3F;
     N.land (N.shiftr val 6) 0x3F; N.land val 0x3F] = [a; b; c].
Proof.
  intros val. subst val. rewrite chunk_val.
  pose proof (N_ascii_bounded a). pose proof (N_ascii_bounded b).
  pose proof (N_ascii_bounded c).
  unfold base64.quantum_bytes. rewrite quantum_val_sextets by lia.
  cbn [Nat.sub firstn]. rewrite !N.shiftr_div_pow2.
  change (2 ^ 16) with 65536. change (2 ^ 8) with 256.
  f_equal; [| f_equal; [| f_equal]]; apply ascii_of_N_eq; divlia.
Qed.

Lemma quantum_bytes_3 (a b : ascii) :
  let val := N.lor (N.shiftl (N_of_ascii a) 16) (N.shiftl (N_of_ascii b) 8) in
  base64.quantum_bytes 3
    [N.land (N.shiftr val 18) 0x3F; N.land (N.shiftr val 12) 0x3F;
     N.land (N.shiftr val 6) 0x3F] = [a; b].
Proof.
  intros val. subst val.
  pose proof (chunk_val a b zero) as E. change (N_of_ascii zero) with 0 in E.
  rewrite N.lor_0_r, N.add_0_r in E. rewrite E.
  pose proof (N_ascii_bounded a). pose proof (N_ascii_bounded b).
  unfold base64.quantum_bytes. rewrite quantum_val_3 by divlia.
  cbn [Nat.sub firstn]. rewrite !N.shiftr_div_pow2.
  change (2 ^ 16) with 65536. change (2 ^ 8) with 256.
  f_equal; [| f_equal]; apply ascii_of_N_eq; divlia.
Qed.

Lemma quantum_bytes_2 (a : ascii) :
  let val := N.shiftl (N_of_ascii a) 16 in
  base64.quantum_bytes 2
    [N.land (N.shiftr val 18) 0x3F; N.land (N.shiftr val 12) 0x3F] = [a].
Proof.
  intros val. subst val. rewrite N.shiftl_mul_pow2. change (2 ^ 16) with 65536.
  pose proof (N_ascii_bounded a).
  unfold base64.quantum_bytes. rewrite quantum_val_2 by divlia.
  cbn [Nat.sub firstn]. rewrite !N.shiftr_div_pow2.
  change (2 ^ 16) with 65536.
  f_equal. apply ascii_of_N_eq. divlia.
Qed.

(** One step of the decoder on a character of the alphabet. *)
Lemma decode_from_sextet (v : N) (src : list ascii) (si : nat) (dbuf : list N) :
  v < 64 ->
  base64.decode_from (base64.encode v :: src) si dbuf =
  if (length dbuf =? 3)%nat
  then let '(rest, err) := base64.decode_from src (S si) [] in
       (base64.quantum_bytes 4 (dbuf ++ [v]) ++ rest, err)
  else base64.decode_from src (S si) (dbuf ++ [v]).
Proof.
  intros Hv. cbn [base64.decode_from]. rewrite (decodeMap_encode v Hv).
  assert (E : (v =? 0xFF) = false) by (apply N.eqb_neq; lia).
  rewrite E. reflexivity.
Qed.

Lemma list_ind3 {A : Type} (P : list A -> Prop) :
  P [] -> (forall a, P [a]) -> (forall a b, P [a; b]) ->
  (forall a b c l, P l -> P (a :: b :: c :: l)) ->
  forall l, P l.
Proof.
  intros H0 H1 H2 H3.
  fix IH 1. intros [| a [| b [| c l]]].
  - exact H0.
  - apply H1.
  - apply H2.
  - apply H3. apply IH.
Qed.

Lemma decode_from_Encode (b : list ascii) :
  forall si, base64.decode_from (base64.Encode b) si [] = (b, None).
Proof.
  induction b as [| a | a b | a b c l IH] using list_ind3; intros si.
  - reflexivity.
  - cbn [base64.Encode].
    rewrite !decode_from_sextet by apply sextet_lt.
    cbn [length Nat.eqb app].
    cbv [base64.decode_from base64.after_padding base64.skip_newlines
         base64.padChar base64.decodeMap base64.is_newline length Nat.eqb].
    cbn -[base64.quantum_bytes N.land N.shiftr N.shiftl N.lor].
    rewrite quantum_bytes_2. reflexivity.
  - cbn [base64.Encode].
    rewrite !decode_from_sextet by apply sextet_lt.
    cbn [length Nat.eqb app].
    cbv [base64.decode_from base64.after_padding base64.skip_newlines
         base64.padChar base64.decodeMap base64.is_newline length Nat.eqb].
    cbn -[base64.quantum_bytes N.land N.shiftr N.shiftl N.lor].
    rewrite quantum_bytes_3. reflexivity.
  - cbn [base64.Encode].
    rewrite !decode_from_sextet by apply sextet_lt.
    cbn [length Nat.eqb app]. rewrite IH.
    rewrite quantum_bytes_4. reflexivity.
Qed.

Lemma Decode_Encode (b : list ascii) : base64.Decode (base64.Encode b) = (b, None).
Proof. apply decode_from_Encode. Qed.

(** ** Reversal by runes on ASCII text *)

Lemma runes_ascii (l : list ascii) : props.ascii_only l -> utf8.runes l = map N_of_ascii l.
Proof.
  induction 1 as [| c l Hc _ IH]; [reflexivity |].
  cbn [utf8.runes map]. apply N.ltb_lt in Hc. rewrite Hc, IH. reflexivity.
Qed.

Lemma string_of_runes_ascii (l : list ascii) :
  props.ascii_only l -> utf8.string_of_runes (map N_of_ascii l) = l.
Proof.
  induction 1 as [| c l Hc _ IH]; [reflexivity |].
  unfold utf8.string_of_runes in *. cbn [map flat_map]. rewrite IH.
  unfold utf8.encode_rune.
  assert (E : (N_of_ascii c <=? 0x7F) = true) by (apply N.leb_le; lia).
  rewrite E, ascii_N_embedding. reflexivity.
Qed.

Lemma reverse_runes_ascii (l : list ascii) :
  props.ascii_only l ->
  sdk.reverse_runes (string_of_list_ascii l) = string_of_list_ascii (rev l).
Proof.
  intros H. unfold sdk.reverse_runes.
  rewrite list_ascii_of_string_of_list_ascii, (runes_ascii l H), <- map_rev.
  rewrite string_of_runes_ascii; [reflexivity |].
  apply List.Forall_rev. exact H.
Qed.

Lemma Encode_ascii (b : list ascii) : props.ascii_only (base64.Encode b).
Proof.
  induction b as [| a | a b | a b c l IH] using list_ind3;
    cbn [base64.Encode]; repeat apply List.Forall_cons;
    try apply List.Forall_nil; try (apply encode_is_ascii, sextet_lt);
    try (vm_compute; reflexivity).
  exact IH.
Qed.

Lemma Encode_nil_inv (b : list ascii) : base64.Encode b = [] -> b = [].
Proof. destruct b as [| a [| b [| c l]]]; [reflexivity | discriminate ..]. Qed.

(** ** C10: the transport encoding is a lossless round trip *)

(** C10.  For every byte string [b], decoding the encoding of [b] with
    [decodeBase64V1] succeeds (the error is nil) and returns the bytes of
    [b]; for the empty [b] the slice returned is nil. *)
Theorem decodeBase64V1_encodeBase64V1 (b : list ascii) :
  sdk.decodeBase64V1 (sdk.encodeBase64V1 b)
  = (match b with [] => None | _ :: _ => Some b end, None).
Proof.
  unfold sdk.decodeBase64V1, sdk.encodeBase64V1, base64.EncodeToString.
  rewrite (reverse_runes_ascii _ (Encode_ascii b)).
  destruct (String.eqb_spec (string_of_list_ascii (rev (base64.Encode b))) "") as [E | E].
  - apply (f_equal list_ascii_of_string) in E.
    rewrite list_ascii_of_string_of_list_ascii in E. cbn in E.
    apply (f_equal (@rev ascii)) in E. rewrite rev_involutive in E. cbn in E.
    apply Encode_nil_inv in E. subst b. reflexivity.
  - rewrite reverse_runes_ascii by (apply List.Forall_rev, Encode_ascii).
    rewrite rev_involutive. unfold base64.DecodeString.
    rewrite list_ascii_of_string_of_list_ascii, Decode_Encode.
    destruct b; [exfalso; apply E; reflexivity | reflexivity].
Qed.

(** ** The cache key of the inline resolver *)

Lemma be_bytes_4_cons (v : N) : exists a l, sha256.be_bytes 4 v = a :: l.
Proof. cbn [sha256.be_bytes]. eauto. Qed.

Lemma Sum256_nonempty (data : list ascii) : sha256.Sum256 data <> [].
Proof.
  unfold sha256.Sum256.
  destruct (sha256.blockGeneric _ _ _) as [[[[[[[h0 h1] h2] h3] h4] h5] h6] h7].
  destruct (be_bytes_4_cons h0) as (a & l & E). rewrite E. discriminate.
Qed.

Lemma hex_EncodeToString_nonempty (src : list ascii) :
  src <> [] -> hex.EncodeToString src <> "".
Proof.
  destruct src as [| v src]; [congruence |]. intros _. discriminate.
Qed.

Lemma cache_key_id (bytes : list ascii) (id : string) :
  id <> "" -> core.cache_key bytes id = id.
Proof.
  intros H. unfold core.cache_key. apply String.eqb_neq in H. rewrite H. reflexivity.
Qed.

Lemma cache_key_digest (bytes : list ascii) :
  bytes <> [] -> core.cache_key bytes "" = hex.EncodeToString (sha256.Sum256 bytes).
Proof.
  intros H. unfold core.cache_key. destruct bytes; [congruence | reflexivity].
Qed.

Lemma cache_key_none : core.cache_key [] "" = "".
Proof. reflexivity. Qed.

Lemma cache_key_bytes_nonempty (bytes : list ascii) (id : string) :
  bytes <> [] -> core.cache_key bytes id <> "".
Proof.
  intros H. destruct (String.eqb_spec id "") as [-> | Hid].
  - rewrite cache_key_digest by assumption.
    apply hex_EncodeToString_nonempty, Sum256_nonempty.
  - rewrite cache_key_id; assumption.
Qed.

Lemma length_eqb_0 {A : Type} (l : list A) : (length l =? 0)%nat = true <-> l = [].
Proof. destruct l; cbn; split; congruence. Qed.

Section InlineResolver.

Import desc core props.

Context {FileDescriptorSet : Type}.
Variable proto_Unmarshal : list ascii -> result string FileDescriptorSet.
Variable CreateFileDescriptorsFromSet :
  FileDescriptorSet -> result string (list FileDescriptor).

Abbreviation Resolve := (InlineMethodResolver_Resolve proto_Unmarshal CreateFileDescriptorsFromSet).
Abbreviation newPool := (newInlineDescriptorPool proto_Unmarshal CreateFileDescriptorsFromSet).
Abbreviation run := (after_calls proto_Unmarshal CreateFileDescriptorsFromSet).

(** A key that is cached: the pool of the cache is used and neither the
    bytes nor the cache matter further. *)
Lemma Resolve_cached r bytes id service method pool :
  cache_key bytes id <> "" ->
  pools r !! cache_key bytes id = Some pool ->
  Resolve r bytes id service method
  = (resolved_in pool (cache_key bytes id) service method, r).
Proof.
  intros Hk Hp. unfold InlineMethodResolver_Resolve, resolved_in.
  apply String.eqb_neq in Hk. rewrite Hk, Hp.
  destruct (InlineDescriptorPool_Resolve pool service method); reflexivity.
Qed.

Lemma Resolve_not_found r id service method :
  id <> "" -> pools r !! id = None ->
  Resolve r [] id service method = (Err (ErrDescriptorNotFound id), r).
Proof.
  intros Hid Hp. unfold InlineMethodResolver_Resolve.
  rewrite (cache_key_id [] id Hid).
  apply String.eqb_neq in Hid. rewrite Hid, Hp. reflexivity.
Qed.

Lemma Resolve_fresh_parse_error r bytes id service method e :
  bytes <> [] ->
  pools r !! cache_key bytes id = None ->
  newPool bytes = Err e ->
  Resolve r bytes id service method = (Err e, r).
Proof.
  intros Hb Hp He. unfold InlineMethodResolver_Resolve.
  pose proof (cache_key_bytes_nonempty bytes id Hb) as Hk.
  apply String.eqb_neq in Hk. rewrite Hk, Hp.
  destruct (length bytes =? 0)%nat eqn:El.
  - apply length_eqb_0 in El. congruence.
  - rewrite He. reflexivity.
Qed.

Lemma Resolve_fresh_parsed r bytes id service method pool :
  bytes <> [] ->
  pools r !! cache_key bytes id = None ->
  newPool bytes = Ok pool ->
  Resolve r bytes id service method
  = (resolved_in pool (cache_key bytes id) service method,
     {| pools := <[cache_key bytes id := pool]> (pools r) |}).
Proof.
  intros Hb Hp He. unfold InlineMethodResolver_Resolve, resolved_in.
  pose proof (cache_key_bytes_nonempty bytes id Hb) as Hk.
  apply String.eqb_neq in Hk. rewrite Hk, Hp.
  destruct (length bytes =? 0)%nat eqn:El.
  - apply length_eqb_0 in El. congruence.
  - rewrite He.
    destruct (InlineDescriptorPool_Resolve pool service method); reflexivity.
Qed.

(** An entry of the cache is never replaced or removed. *)
Lemma Resolve_keeps r bytes id service method k pool :
  pools r !! k = Some pool ->
  pools (snd (Resolve r bytes id service method)) !! k = Some pool.
Proof.
  intros Hk. unfold InlineMethodResolver_Resolve.
  destruct (String.eqb (cache_key bytes id) ""); [exact Hk |].
  destruct (pools r !! cache_key bytes id) as [p |] eqn:Hp.
  - destruct (InlineDescriptorPool_Resolve p service method); exact Hk.
  - destruct (length bytes =? 0)%nat; [exact Hk |].
    destruct (newPool bytes) as [p | e]; [| exact Hk].
    assert (Hne : cache_key bytes id <> k) by congruence.
    destruct (InlineDescriptorPool_Resolve p service method); cbn [snd pools];
      rewrite lookup_insert_ne by exact Hne; exact Hk.
Qed.

(** Every key but the one derived from the arguments is left alone. *)
Lemma Resolve_other_keys r bytes id service method k :
  k <> cache_key bytes id ->
  pools (snd (Resolve r bytes id service method)) !! k = pools r !! k.
Proof.
  intros Hne. unfold InlineMethodResolver_Resolve.
  destruct (String.eqb (cache_key bytes id) ""); [reflexivity |].
  destruct (pools r !! cache_key bytes id) as [p |] eqn:Hp.
  - destruct (InlineDescriptorPool_Resolve p service method); reflexivity.
  - destruct (length bytes =? 0)%nat; [reflexivity |].
    destruct (newPool bytes) as [p | e]; [| reflexivity].
    destruct (InlineDescriptorPool_Resolve p service method); cbn [snd pools];
      rewrite lookup_insert_ne by congruence; reflexivity.
Qed.

(** A successful resolution returns the derived key. *)
Lemma Resolve_returns_key r bytes id service method rm key :
  fst (Resolve r bytes id service method) = Ok (rm, key) ->
  key = cache_key bytes id.
Proof.
  unfold InlineMethodResolver_Resolve.
  destruct (String.eqb (cache_key bytes id) ""); [discriminate |].
  destruct (pools r !! cache_key bytes id) as [p |] eqn:Hp.
  - destruct (InlineDescriptorPool_Resolve p service method); cbn; congruence.
  - destruct (length bytes =? 0)%nat; [discriminate |].
    destruct (newPool bytes) as [p | e]; [| discriminate].
    destruct (InlineDescriptorPool_Resolve p service method); cbn; congruence.
Qed.

Lemma after_calls_keeps r calls k pool :
  pools r !! k = Some pool -> pools (run r calls) !! k = Some pool.
Proof.
  revert r. induction calls as [| c calls IH]; intros r Hk; [exact Hk |].
  cbn [after_calls fold_left]. apply IH. apply Resolve_keeps. exact Hk.
Qed.

(** A key enters the cache only through a call that supplies bytes
    under it. *)
Lemma after_calls_absent r calls k :
  pools r !! k = None ->
  (forall c, In c calls -> ~ supplies k c) ->
  pools (run r calls) !! k = None.
Proof.
  revert r. induction calls as [| c calls IH]; intros r Hk Hno; [exact Hk |].
  cbn [after_calls fold_left]. apply IH.
  - destruct (String.eqb_spec k (cache_key (c_bytes c) (c_id c))) as [E | E].
    + assert (Hb : c_bytes c = []).
      { destruct (c_bytes c) eqn:Eb; [reflexivity |]. exfalso.
        apply (Hno c); [left; reflexivity |]. split; [congruence |].
        rewrite Eb. congruence. }
      unfold do_call, InlineMethodResolver_Resolve. rewrite Hb in *.
      rewrite <- E.
      destruct (String.eqb k ""); [exact Hk |]. rewrite Hk. exact Hk.
    + unfold do_call. rewrite Resolve_other_keys by exact E. exact Hk.
  - intros c' Hc'. apply Hno. right. exact Hc'.
Qed.

Lemma pool_Resolve_not_empty_id pool service method :
  InlineDescriptorPool_Resolve pool service method <> Err ErrEmptyDescriptorID.
Proof.
  unfold InlineDescriptorPool_Resolve, select_service.
  destruct (normalize service method) as [s m].
  destruct (String.eqb s "" || String.eqb m ""); [discriminate |].
  destruct (servicesByFQN pool !! s) as [v |].
  { destruct (FindMethodByName v m); discriminate. }
  destruct (servicesByFQN pool !! ("." +:+ s)) as [v |].
  { destruct (FindMethodByName v m); discriminate. }
  destruct (default [] (servicesByName pool !! s)) as [| v [| w l]]; try discriminate.
  destruct (FindMethodByName v m); discriminate.
Qed.

Lemma newPool_not_empty_id bytes : newPool bytes <> Err ErrEmptyDescriptorID.
Proof.
  unfold newInlineDescriptorPool.
  destruct (proto_Unmarshal bytes) as [fds |]; [| discriminate].
  destruct (CreateFileDescriptorsFromSet fds); discriminate.
Qed.

(** A successful resolution leaves the pool it resolved out of in the
    cache, under the key it returns. *)
Lemma Resolve_ok_cached r bytes id service method rm key :
  fst (Resolve r bytes id service method) = Ok (rm, key) ->
  key = cache_key bytes id /\ key <> "" /\
  exists pool,
    pools (snd (Resolve r bytes id service method)) !! key = Some pool
    /\ InlineDescriptorPool_Resolve pool service method = Ok rm.
Proof.
  unfold InlineMethodResolver_Resolve.
  destruct (String.eqb_spec (cache_key bytes id) "") as [| Hne]; [discriminate |].
  destruct (pools r !! cache_key bytes id) as [p |] eqn:Hp.
  - destruct (InlineDescriptorPool_Resolve p service method) as [rm' |] eqn:Hr;
      cbn [fst snd]; [| discriminate].
    intros [= <- <-]. eauto.
  - destruct (length bytes =? 0)%nat; [discriminate |].
    destruct (newPool bytes) as [p | e]; [| discriminate].
    destruct (InlineDescriptorPool_Resolve p service method) as [rm' |] eqn:Hr;
      cbn [fst snd pools]; [| discriminate].
    intros [= <- <-]. repeat split; [exact Hne |].
    exists p. rewrite lookup_insert_eq. auto.
Qed.

(** C4.  The cache key of [InlineMethodResolver.Resolve]: a non-empty
    [descriptorID] verbatim; else, for non-empty bytes, the hex-encoded
    SHA-256 digest of the bytes.  The key is the one the cache is read at,
    the only one that can change, and the [cacheKeyUsed] returned on
    success.  [Resolve] fails with "empty descriptor id" exactly when both
    the identifier and the bytes are empty, and then leaves the cache as
    it is. *)
Theorem Resolve_key_derivation (r : InlineMethodResolver) (bytes : list ascii)
    (id service method : string) :
  (id <> "" -> cache_key bytes id = id)
  /\ (id = "" -> bytes <> [] ->
      cache_key bytes id = hex.EncodeToString (sha256.Sum256 bytes))
  /\ (forall rm key,
        fst (Resolve r bytes id service method) = Ok (rm, key) ->
        key = cache_key bytes id)
  /\ (forall pool,
        (id <> "" \/ bytes <> []) ->
        pools r !! cache_key bytes id = Some pool ->
        Resolve r bytes id service method
        = (resolved_in pool (cache_key bytes id) service method, r))
  /\ (forall k,
        k <> cache_key bytes id ->
        pools (snd (Resolve r bytes id service method)) !! k = pools r !! k)
  /\ ((id <> "" \/ bytes <> []) ->
      fst (Resolve r bytes id service method) <> Err ErrEmptyDescriptorID)
  /\ (id = "" -> bytes = [] ->
      Resolve r bytes id service method = (Err ErrEmptyDescriptorID, r)).
Proof.
  assert (Hkey : id <> "" \/ bytes <> [] -> cache_key bytes id <> "").
  { intros [H | H].
    - rewrite cache_key_id; assumption.
    - apply cache_key_bytes_nonempty; assumption. }
  repeat split.
  - apply cache_key_id.
  - intros -> Hb. apply cache_key_digest. exact Hb.
  - intros rm key. apply Resolve_returns_key.
  - intros pool H Hp. apply Resolve_cached; auto.
  - intros k. apply Resolve_other_keys.
  - intros H. specialize (Hkey H). unfold InlineMethodResolver_Resolve.
    apply String.eqb_neq in Hkey. rewrite Hkey.
    destruct (pools r !! cache_key bytes id) as [p |].
    + pose proof (pool_Resolve_not_empty_id p service method) as Hn.
      destruct (InlineDescriptorPool_Resolve p service method); cbn; congruence.
    + destruct (length bytes =? 0)%nat; [discriminate |].
      pose proof (newPool_not_empty_id bytes) as Hn'.
      destruct (newPool bytes) as [p | e]; [| cbn; congruence].
      pose proof (pool_Resolve_not_empty_id p service method) as Hn.
      destruct (InlineDescriptorPool_Resolve p service method); cbn; congruence.
  - intros -> ->. reflexivity.
Qed.

(** C3.  With empty bytes and an identifier under which no call ever
    supplied bytes, [Resolve] fails with "descriptor not found for id"; once
    a resolution under the identifier has succeeded, a resolution with the
    same identifier, service and method and no bytes returns the same
    resolved method, whatever calls were made in between. *)
Theorem Resolve_by_identifier_only (id service method : string) :
  id <> "" ->
  (forall calls,
     (forall c, In c calls -> ~ supplies id c) ->
     Resolve (run NewInlineMethodResolver calls) [] id service method
     = (Err (ErrDescriptorNotFound id), run NewInlineMethodResolver calls))
  /\ (forall r bytes rm key between,
        fst (Resolve r bytes id service method) = Ok (rm, key) ->
        Resolve (run (snd (Resolve r bytes id service method)) between)
          [] id service method
        = (Ok (rm, key), run (snd (Resolve r bytes id service method)) between)).
Proof.
  intros Hid. split.
  - intros calls Hno. apply Resolve_not_found; [exact Hid |].
    apply after_calls_absent; [apply lookup_empty | exact Hno].
  - intros r bytes rm key between Hok.
    destruct (Resolve_ok_cached _ _ _ _ _ _ _ Hok) as (Hk & Hne & pool & Hp & Hr).
    rewrite (cache_key_id bytes id Hid) in Hk. subst key.
    rewrite (Resolve_cached _ [] id service method pool).
    + rewrite (cache_key_id [] id Hid). unfold resolved_in. rewrite Hr. reflexivity.
    + rewrite cache_key_id; assumption.
    + rewrite (cache_key_id [] id Hid). apply after_calls_keeps. exact Hp.
Qed.

(** C1.  What the code does with bytes supplied under an identifier that
    is cached already: it neither parses them nor overwrites the entry; it
    resolves out of the pool cached earlier and leaves the cache as it is, so
    a later resolution by identifier only does not see the new bytes. *)
Theorem Resolve_cached_id_keeps_old_pool (r : InlineMethodResolver)
    (bytes : list ascii) (id service method : string) (pool : InlineDescriptorPool) :
  id <> "" ->
  pools r !! id = Some pool ->
  Resolve r bytes id service method = (resolved_in pool id service method, r)
  /\ Resolve (snd (Resolve r bytes id service method)) [] id service method
     = (resolved_in pool id service method, r).
Proof.
  intros Hid Hp.
  assert (E : forall b, Resolve r b id service method
                        = (resolved_in pool id service method, r)).
  { intros b. rewrite (Resolve_cached r b id service method pool).
    - rewrite cache_key_id by exact Hid. reflexivity.
    - rewrite cache_key_id; assumption.
    - rewrite cache_key_id; assumption. }
  split; [apply E |]. rewrite (E bytes). cbn [snd]. apply E.
Qed.

(** C9, as amended.  When the derived key is not cached and the bytes
    fail to parse, [Resolve] returns the parse error and leaves the cache
    unchanged, so that a later resolution by that key alone fails with
    "descriptor not found for id". *)
Theorem Resolve_parse_error_leaves_cache (r : InlineMethodResolver)
    (bytes : list ascii) (id service method : string) (e : error) :
  bytes <> [] ->
  newPool bytes = Err e ->
  pools r !! cache_key bytes id = None ->
  Resolve r bytes id service method = (Err e, r)
  /\ forall service' method',
       Resolve (snd (Resolve r bytes id service method)) []
         (cache_key bytes id) service' method'
       = (Err (ErrDescriptorNotFound (cache_key bytes id)), r).
Proof.
  intros Hb He Hp.
  rewrite (Resolve_fresh_parse_error r bytes id service method e Hb Hp He).
  split; [reflexivity |]. intros service' method'. cbn [snd].
  apply Resolve_not_found; [| exact Hp].
  apply cache_key_bytes_nonempty. exact Hb.
Qed.

End InlineResolver.

(** ** The inline resolver at work *)

Example cached_v1_lookup :
  core.pools fixtures.cached_v1 !! "echo" = Some fixtures.pool_v1.
Proof. vm_compute. reflexivity. Qed.

Example first_resolution :
  fst (fixtures.resolve_inline core.NewInlineMethodResolver
         (fixtures.bytes_of "echo-v1") "echo" "EchoService" "Echo")
  = Ok ({| core.Method := fixtures.Echo; core.ServiceFQN := "echo.EchoService" |}, "echo").
Proof. vm_compute. reflexivity. Qed.

Example digest_key :
  fst (fixtures.resolve_inline core.NewInlineMethodResolver
         (fixtures.bytes_of "echo-v1") "" "echo.EchoService" "Echo")
  = Ok ({| core.Method := fixtures.Echo; core.ServiceFQN := "echo.EchoService" |},
        "2d2ce1fad1e49fd8de5ff1c74d49b02556f280e33864c7ea1413d72dd6be7b08").
Proof. vm_compute. reflexivity. Qed.

Example empty_descriptor_id :
  fixtures.resolve_inline fixtures.cached_v1 [] "" "EchoService" "Echo"
  = (Err core.ErrEmptyDescriptorID, fixtures.cached_v1).
Proof. vm_compute. reflexivity. Qed.

(** The second version of the descriptor set declares [Echo] as a
    stream; supplied on its own it resolves to that method. *)
Example second_version_alone :
  fst (fixtures.resolve_inline core.NewInlineMethodResolver
         (fixtures.bytes_of "echo-v2") "echo" "EchoService" "Echo")
  = Ok ({| core.Method := fixtures.Echo_v2; core.ServiceFQN := "echo.EchoService" |}, "echo").
Proof. vm_compute. reflexivity. Qed.

(** Supplied under the identifier of the first version, the second
    version is ignored: the method of the first version comes back, the
    cache still holds the first pool, and so does a later resolution by
    identifier only. *)
Example second_version_under_cached_id :
  fixtures.resolve_inline fixtures.cached_v1 (fixtures.bytes_of "echo-v2") "echo"
    "EchoService" "Echo"
  = (Ok ({| core.Method := fixtures.Echo; core.ServiceFQN := "echo.EchoService" |}, "echo"),
     fixtures.cached_v1)
  /\ core.pools fixtures.cached_v1 !! "echo" <> Some fixtures.pool_v2
  /\ fst (fixtures.resolve_inline fixtures.cached_v1 [] "echo" "EchoService" "Echo")
     = Ok ({| core.Method := fixtures.Echo; core.ServiceFQN := "echo.EchoService" |}, "echo").
Proof.
  split; [vm_compute; reflexivity |]. split; [| vm_compute; reflexivity].
  rewrite cached_v1_lookup. intros H. discriminate H.
Qed.

Lemma Resolve_cached_id_keeps_old_pool_witness :
  "echo" <> ""
  /\ core.pools fixtures.cached_v1 !! "echo" = Some fixtures.pool_v1
  /\ fixtures.resolve_inline fixtures.cached_v1 (fixtures.bytes_of "echo-v2") "echo"
       "EchoService" "Echo"
     = (props.resolved_in fixtures.pool_v1 "echo" "EchoService" "Echo", fixtures.cached_v1).
Proof.
  split; [discriminate |]. split; [vm_compute; reflexivity |].
  apply (Resolve_cached_id_keeps_old_pool fixtures.Unmarshal fixtures.Create
           fixtures.cached_v1 (fixtures.bytes_of "echo-v2") "echo" "EchoService" "Echo"
           fixtures.pool_v1).
  - discriminate.
  - vm_compute. reflexivity.
Defined.

Lemma Resolve_by_identifier_only_witness :
  "echo" <> ""
  /\ fixtures.resolve_inline core.NewInlineMethodResolver [] "echo" "EchoService" "Echo"
     = (Err (core.ErrDescriptorNotFound "echo"), core.NewInlineMethodResolver)
  /\ fixtures.resolve_inline fixtures.cached_v1 [] "echo" "EchoService" "Echo"
     = (Ok ({| core.Method := fixtures.Echo; core.ServiceFQN := "echo.EchoService" |}, "echo"),
        fixtures.cached_v1).
Proof.
  split; [discriminate |].
  assert (Hid : "echo" <> "") by discriminate.
  destruct (Resolve_by_identifier_only fixtures.Unmarshal fixtures.Create
              "echo" "EchoService" "Echo" Hid) as [Hnone Hsome].
  split.
  - apply (Hnone []). intros c [].
  - apply (Hsome core.NewInlineMethodResolver (fixtures.bytes_of "echo-v1")
             {| core.Method := fixtures.Echo; core.ServiceFQN := "echo.EchoService" |}
             "echo" []).
    vm_compute. reflexivity.
Defined.

(** Bytes that do not parse, supplied under a cached identifier, are not
    looked at: no parse error comes back. *)
Lemma Resolve_parse_error_cached_id :
  core.newInlineDescriptorPool fixtures.Unmarshal fixtures.Create
    (fixtures.bytes_of "garbage")
  = Err (core.ErrUnmarshalFileDescriptorSet "proto: cannot parse invalid wire-format data")
  /\ fixtures.resolve_inline fixtures.cached_v1 (fixtures.bytes_of "garbage") "echo"
       "EchoService" "Echo"
     = (Ok ({| core.Method := fixtures.Echo; core.ServiceFQN := "echo.EchoService" |}, "echo"),
        fixtures.cached_v1)
  /\ fst (fixtures.resolve_inline fixtures.cached_v1 [] "echo" "EchoService" "Echo")
     <> Err (core.ErrDescriptorNotFound "echo").
Proof.
  split; [vm_compute; reflexivity |]. split; [vm_compute; reflexivity |].
  vm_compute. discriminate.
Qed.

Lemma Resolve_parse_error_leaves_cache_witness :
  fixtures.bytes_of "garbage" <> []
  /\ core.pools core.NewInlineMethodResolver
       !! core.cache_key (fixtures.bytes_of "garbage") "echo" = None
  /\ fixtures.resolve_inline core.NewInlineMethodResolver (fixtures.bytes_of "garbage")
       "echo" "EchoService" "Echo"
     = (Err (core.ErrUnmarshalFileDescriptorSet
               "proto: cannot parse invalid wire-format data"),
        core.NewInlineMethodResolver).
Proof.
  split; [discriminate |]. split; [vm_compute; reflexivity |].
  apply (Resolve_parse_error_leaves_cache fixtures.Unmarshal fixtures.Create
           core.NewInlineMethodResolver (fixtures.bytes_of "garbage") "echo"
           "EchoService" "Echo").
  - discriminate.
  - vm_compute. reflexivity.
  - vm_compute. reflexivity.
Defined.

(** ** Full method names and the static resolver *)

Lemma HasPrefix_slash (c : ascii) (s : string) :
  strings.HasPrefix (String c s) "/" = Ascii.eqb "/"%char c.
Proof.
  change "/" with (String "/"%char EmptyString).
  cbn [strings.HasPrefix]. unfold strings.byte_eqb.
  destruct s; cbn [strings.HasPrefix]; apply andb_true_r.
Qed.

Lemma cut_byte_none (s : string) :
  strings.Contains s "/" = false -> strings.cut_byte "/"%char s = None.
Proof.
  induction s as [| c s IH]; [reflexivity |].
  cbn [strings.Contains]. rewrite HasPrefix_slash.
  intros H. apply orb_false_iff in H. destruct H as [Hc Hs].
  cbn [strings.cut_byte]. unfold strings.byte_eqb.
  rewrite Ascii.eqb_sym, Hc, (IH Hs). reflexivity.
Qed.

Lemma cut_byte_some (s : string) :
  strings.Contains s "/" = true ->
  exists before after, strings.cut_byte "/"%char s = Some (before, after).
Proof.
  induction s as [| c s IH]; [discriminate |].
  cbn [strings.Contains]. rewrite HasPrefix_slash. intros H.
  cbn [strings.cut_byte]. unfold strings.byte_eqb. rewrite Ascii.eqb_sym.
  destruct (Ascii.eqb "/"%char c); [eauto |].
  destruct (IH H) as (b & a & E). rewrite E. eauto.
Qed.

Lemma ParseFullMethodName_one_segment (s : string) :
  strings.Contains (strings.TrimPrefix s "/") "/" = false ->
  core.ParseFullMethodName s
  = Err (core.ErrInvalidFullMethodName (strings.TrimPrefix s "/")).
Proof.
  intros H. unfold core.ParseFullMethodName, strings.SplitN2.
  rewrite (cut_byte_none _ H). reflexivity.
Qed.

Lemma ParseFullMethodName_two_segments (s : string) :
  strings.Contains (strings.TrimPrefix s "/") "/" = true ->
  exists service method, core.ParseFullMethodName s = Ok (service, method).
Proof.
  intros H. unfold core.ParseFullMethodName, strings.SplitN2.
  destruct (cut_byte_some _ H) as (b & a & E). rewrite E. cbn. eauto.
Qed.

Lemma Contains_append_slash (a b : string) :
  strings.Contains (a +:+ "/" +:+ b) "/" = true.
Proof.
  induction a as [| c a IH].
  - change ("" +:+ "/" +:+ b) with (String "/"%char b).
    cbn [strings.Contains]. rewrite HasPrefix_slash. reflexivity.
  - change (String c a +:+ "/" +:+ b) with (String c (a +:+ "/" +:+ b)).
    cbn [strings.Contains]. rewrite IH. apply orb_true_r.
Qed.

Lemma full_name_shape (sm : desc.ServiceDescriptor * desc.MethodDescriptor) :
  strings.HasPrefix (core.full_name sm) "/" = true
  /\ strings.Contains (strings.TrimPrefix (core.full_name sm) "/") "/" = true.
Proof.
  unfold core.full_name.
  set (rest := desc.GetFullyQualifiedName (fst sm) +:+ "/" +:+ desc.md_name (snd sm)).
  change ("/" +:+ rest) with (String "/"%char rest).
  assert (Hp : strings.HasPrefix (String "/"%char rest) "/" = true).
  { rewrite HasPrefix_slash. reflexivity. }
  split; [exact Hp |].
  unfold strings.TrimPrefix. rewrite Hp. cbn [String.length strings.drop_bytes].
  apply Contains_append_slash.
Qed.

Section StaticResolver.

Import desc core props.

Context {FileDescriptorSet : Type}.
Variable proto_Unmarshal : list ascii -> result string FileDescriptorSet.
Variable CreateFileDescriptorsFromSet :
  FileDescriptorSet -> result string (list FileDescriptor).
Variable filepath_Join : string -> string -> string.
Variable os_ReadFile : string -> result string (list ascii).

Abbreviation ResolveStatic :=
  (MethodResolver_Resolve proto_Unmarshal CreateFileDescriptorsFromSet
     filepath_Join os_ReadFile).

(** The cache holds full method names only: the invariant holds of a new
    resolver and every resolution keeps it. *)
Lemma cache_keys_wf_new dir : cache_keys_wf (cache (NewMethodResolver dir)).
Proof. intros k md H. cbn in H. rewrite lookup_empty in H. discriminate. Qed.

Lemma Resolve_cache_keys_wf r s :
  cache_keys_wf (cache r) -> cache_keys_wf (cache (snd (ResolveStatic r s))).
Proof.
  intros Hwf. unfold MethodResolver_Resolve.
  destruct (cache r !! s); [exact Hwf |].
  destruct (ParseFullMethodName s) as [[svc m] |]; [| exact Hwf].
  destruct (os_ReadFile _); [| exact Hwf].
  destruct (proto_Unmarshal _) as [fds |]; [| exact Hwf].
  destruct (CreateFileDescriptorsFromSet fds) as [files |]; [| exact Hwf].
  destruct (find _ (all_methods files)) as [[svc' m'] |] eqn:Hf; [| exact Hwf].
  cbn [snd cache]. intros k md Hk.
  destruct (String.eqb_spec s k) as [<- | Hne].
  - apply find_some in Hf. destruct Hf as [_ Hf]. apply String.eqb_eq in Hf.
    exists (svc', m'). symmetry. exact Hf.
  - rewrite lookup_insert_ne in Hk by exact Hne. apply (Hwf k md Hk).
Qed.

Lemma find_full_name_none files s :
  strings.HasPrefix s "/" = false ->
  find (fun sm => String.eqb (full_name sm) s) (all_methods files) = None.
Proof.
  intros Hs. induction (all_methods files) as [| sm l IH]; [reflexivity |].
  cbn [find]. rewrite IH.
  destruct (String.eqb_spec (full_name sm) s) as [E | E]; [| reflexivity].
  destruct (full_name_shape sm) as [Hp _]. rewrite E in Hp. congruence.
Qed.

(** C2, as amended.  A full method name with a path segment missing, that
    is, one without a separator once the optional leading separator is set
    aside, fails with "invalid full method name" and leaves the cache
    alone.  A name that lacks the leading separator fails as well, and
    never matches a method; when it has a separator inside, it is parsed
    as the well-formed name is, and the error is not "invalid full method
    name". *)
Theorem Resolve_malformed_full_method_name (r : MethodResolver) (s : string) :
  cache_keys_wf (cache r) ->
  (strings.Contains (strings.TrimPrefix s "/") "/" = false ->
   ResolveStatic r s
   = (Err (ErrInvalidFullMethodName (strings.TrimPrefix s "/")), r))
  /\ (strings.HasPrefix s "/" = false ->
      (exists e, ResolveStatic r s = (Err e, r))
      /\ (strings.Contains s "/" = true ->
          forall name, fst (ResolveStatic r s) <> Err (ErrInvalidFullMethodName name))).
Proof.
  intros Hwf.
  assert (Hmiss1 : strings.Contains (strings.TrimPrefix s "/") "/" = false ->
                   cache r !! s = None).
  { intros H. destruct (cache r !! s) as [md |] eqn:E; [| reflexivity].
    destruct (Hwf s md E) as [sm ->].
    destruct (full_name_shape sm) as [_ Hc]. congruence. }
  assert (Hmiss2 : strings.HasPrefix s "/" = false -> cache r !! s = None).
  { intros H. destruct (cache r !! s) as [md |] eqn:E; [| reflexivity].
    destruct (Hwf s md E) as [sm ->].
    destruct (full_name_shape sm) as [Hp _]. congruence. }
  split.
  - intros H. unfold MethodResolver_Resolve.
    rewrite (Hmiss1 H), (ParseFullMethodName_one_segment s H). reflexivity.
  - intros H. split.
    + unfold MethodResolver_Resolve. rewrite (Hmiss2 H).
      destruct (ParseFullMethodName s) as [[svc m] |]; [| eauto].
      destruct (os_ReadFile _); [| eauto].
      destruct (proto_Unmarshal _) as [fds |]; [| eauto].
      destruct (CreateFileDescriptorsFromSet fds) as [files |]; [| eauto].
      rewrite (find_full_name_none files s H). eauto.
    + intros Hc name. unfold MethodResolver_Resolve. rewrite (Hmiss2 H).
      assert (Ht : strings.TrimPrefix s "/" = s).
      { unfold strings.TrimPrefix. rewrite H. reflexivity. }
      destruct (ParseFullMethodName_two_segments s) as (svc & m & E).
      { rewrite Ht. exact Hc. }
      rewrite E.
      destruct (os_ReadFile _); [| discriminate].
      destruct (proto_Unmarshal _) as [fds |]; [| discriminate].
      destruct (CreateFileDescriptorsFromSet fds) as [files |]; [| discriminate].
      rewrite (find_full_name_none files s H). discriminate.
Qed.

End StaticResolver.

Example ParseFullMethodName_well_formed :
  core.ParseFullMethodName "/echo.EchoService/Echo" = Ok ("echo.EchoService", "Echo").
Proof. reflexivity. Qed.

Example static_resolution :
  fst (fixtures.resolve_static (core.NewMethodResolver "core") "/echo.EchoService/Echo")
  = Ok fixtures.Echo.
Proof. vm_compute. reflexivity. Qed.

(** The name without its leading separator is not reported as invalid:
    the descriptor file of the service is read and parsed, and the search
    for the method fails. *)
Lemma Resolve_missing_leading_separator :
  strings.HasPrefix "echo.EchoService/Echo" "/" = false
  /\ core.ParseFullMethodName "echo.EchoService/Echo" = Ok ("echo.EchoService", "Echo")
  /\ fixtures.resolve_static (core.NewMethodResolver "core") "echo.EchoService/Echo"
     = (Err (core.ErrMethodNotFoundInSet "echo.EchoService/Echo"),
        core.NewMethodResolver "core")
  /\ fixtures.resolve_static (core.NewMethodResolver "core") "pkg.Svc/Method"
     = (Err (core.ErrReadDescriptorFile "core/pkg.Svc.pb" "no such file or directory"),
        core.NewMethodResolver "core").
Proof. repeat split; vm_compute; reflexivity. Qed.

Lemma Resolve_malformed_full_method_name_witness :
  props.cache_keys_wf (core.cache (core.NewMethodResolver "core"))
  /\ fixtures.resolve_static (core.NewMethodResolver "core") "/echo.EchoService"
     = (Err (core.ErrInvalidFullMethodName "echo.EchoService"),
        core.NewMethodResolver "core").
Proof.
  split; [apply cache_keys_wf_new |].
  apply (Resolve_malformed_full_method_name fixtures.Unmarshal fixtures.Create
           fixtures.Join fixtures.ReadFile (core.NewMethodResolver "core")
           "/echo.EchoService" (cache_keys_wf_new "core")).
  vm_compute. reflexivity.
Defined.

(** ** The invoker *)

Section InvokerClaims.

Import desc core props.

Context {FileDescriptorSet Message ClientConn : Type}.
Variable proto_Unmarshal : list ascii -> result string FileDescriptorSet.
Variable CreateFileDescriptorsFromSet :
  FileDescriptorSet -> result string (list FileDescriptor).
Variable filepath_Join : string -> string -> string.
Variable os_ReadFile : string -> result string (list ascii).
Variable jsonpb_Unmarshal : MessageDescriptor -> list ascii -> result string Message.
Variable jsonpb_Marshal : bool -> Message -> result string (list ascii).
Variable grpc_DialContext : option Z -> string -> result string ClientConn.
Variable grpcdynamic_InvokeRpc :
  option Z -> ClientConn -> MethodDescriptor -> Message -> result string Message.

Abbreviation resolve_req :=
  (resolve_request proto_Unmarshal CreateFileDescriptorsFromSet filepath_Join os_ReadFile).
Abbreviation Invoke' :=
  (Invoke proto_Unmarshal CreateFileDescriptorsFromSet filepath_Join os_ReadFile
     jsonpb_Unmarshal jsonpb_Marshal grpc_DialContext grpcdynamic_InvokeRpc).

(** The method is resolved from the selector fields alone. *)
Lemma resolve_request_with_target_body inv req target body :
  resolve_req inv (with_target_body req target body) = resolve_req inv req.
Proof. reflexivity. Qed.

(** C6.  When the method a request resolves to has the client-streaming
    or the server-streaming flag set, [Invoke] fails with "streaming method
    not supported", whatever the target, the body and the context are, and
    nothing has happened by then but the resolution: the body was not
    decoded and no connection was dialed. *)
Theorem Invoke_streaming_not_supported (inv inv' : Invoker) (req : InvokeRequest)
    (method : ResolvedMethod) (methodName : string) :
  resolve_req inv req = (Ok (method, methodName), inv') ->
  md_client_streaming (Method method) || md_server_streaming (Method method) = true ->
  forall ctx target body,
    Invoke' inv ctx (with_target_body req target body)
    = (Err (ErrStreamingNotSupported methodName), inv', []).
Proof.
  intros Hres Hflag ctx target body. unfold Invoke.
  rewrite resolve_request_with_target_body, Hres, Hflag. reflexivity.
Qed.

End InvokerClaims.

Example Invoke_unary :
  fst (fixtures.invoke (core.NewInvoker "core" 0) None
         (fixtures.echo_request "localhost:50051" (fixtures.bytes_of "{}")))
  = (Ok (fixtures.bytes_of "{}"),
     {| core.resolver :=
          {| core.descriptorDir := "core";
             core.cache := {["/echo.EchoService/Echo" := fixtures.Echo]} |};
        core.inlineResolver := core.NewInlineMethodResolver;
        core.timeout := 0 |}).
Proof. vm_compute. reflexivity. Qed.

Example Invoke_unary_events :
  snd (fixtures.invoke (core.NewInvoker "core" 0) None
         (fixtures.echo_request "localhost:50051" (fixtures.bytes_of "{}")))
  = [core.EvJSONToMessage; core.EvDial "localhost:50051"; core.EvInvokeRpc;
     core.EvMessageToJSON; core.EvClose].
Proof. vm_compute. reflexivity. Qed.

Lemma Invoke_streaming_not_supported_witness :
  fst (fixtures.invoke (core.NewInvoker "core" 0) None
         (fixtures.watch_request "localhost:50051" (fixtures.bytes_of "{}")))
  = (Err (core.ErrStreamingNotSupported "/echo.EchoService/Watch"),
     {| core.resolver := core.NewMethodResolver "core";
        core.inlineResolver := fixtures.cached_v1;
        core.timeout := 0 |})
  /\ snd (fixtures.invoke (core.NewInvoker "core" 0) None
            (fixtures.watch_request "localhost:50051" (fixtures.bytes_of "{}")))
     = [].
Proof.
  pose proof (Invoke_streaming_not_supported fixtures.Unmarshal fixtures.Create
                fixtures.Join fixtures.ReadFile fixtures.Unmarshal_json
                fixtures.Marshal_json fixtures.Dial fixtures.InvokeRpc
                (core.NewInvoker "core" 0)
                {| core.resolver := core.NewMethodResolver "core";
                   core.inlineResolver := fixtures.cached_v1;
                   core.timeout := 0 |}
                (fixtures.watch_request "" [])
                {| core.Method := fixtures.Watch; core.ServiceFQN := "echo.EchoService" |}
                "/echo.EchoService/Watch") as H.
  assert (H1 : fixtures.invoke (core.NewInvoker "core" 0) None
                 (fixtures.watch_request "localhost:50051" (fixtures.bytes_of "{}"))
               = (Err (core.ErrStreamingNotSupported "/echo.EchoService/Watch"),
                  {| core.resolver := core.NewMethodResolver "core";
                     core.inlineResolver := fixtures.cached_v1;
                     core.timeout := 0 |}, [])).
  { apply (H ltac:(vm_compute; reflexivity) ltac:(reflexivity) None
             "localhost:50051" (fixtures.bytes_of "{}")). }
  rewrite H1. split; reflexivity.
Defined.

(** ** Names that normalization leaves alone *)

Lemma name_char_plain (c : ascii) :
  props.name_char c = true ->
  N_of_ascii c < 128 /\ strings.asciiSpace c = false
  /\ Ascii.eqb "/"%char c = false.
Proof.
  destruct c as [[] [] [] [] [] [] [] []]; intros H; try discriminate H;
    repeat split; reflexivity.
Qed.

Lemma ident_start_not_dot (c : ascii) :
  props.ident_start c = true -> Ascii.eqb "."%char c = false /\ props.ident_char c = true.
Proof.
  destruct c as [[] [] [] [] [] [] [] []]; intros H; try discriminate H;
    split; reflexivity.
Qed.

Lemma ident_char_name_char (c : ascii) :
  props.ident_char c = true -> props.name_char c = true /\ Ascii.eqb c "."%char = false.
Proof.
  destruct c as [[] [] [] [] [] [] [] []]; intros H; try discriminate H;
    split; reflexivity.
Qed.

Lemma space2_first (b0 b1 : ascii) : N_of_ascii b0 < 128 -> strings.space2 b0 b1 = false.
Proof.
  intros H. unfold strings.space2.
  assert (E : (N_of_ascii b0 =? 0xC2) = false) by (apply N.eqb_neq; lia).
  rewrite E. reflexivity.
Qed.

Lemma space3_first (b0 b1 b2 : ascii) :
  N_of_ascii b0 < 128 -> strings.space3 b0 b1 b2 = false.
Proof.
  intros H. unfold strings.space3.
  assert (E1 : (N_of_ascii b0 =? 0xE1) = false) by (apply N.eqb_neq; lia).
  assert (E2 : (N_of_ascii b0 =? 0xE2) = false) by (apply N.eqb_neq; lia).
  assert (E3 : (N_of_ascii b0 =? 0xE3) = false) by (apply N.eqb_neq; lia).
  cbv zeta. rewrite E1, E2, E3. reflexivity.
Qed.

Lemma space2_last (b0 b1 : ascii) : N_of_ascii b1 < 128 -> strings.space2 b0 b1 = false.
Proof.
  intros H. unfold strings.space2.
  assert (E1 : (N_of_ascii b1 =? 0x85) = false) by (apply N.eqb_neq; lia).
  assert (E2 : (N_of_ascii b1 =? 0xA0) = false) by (apply N.eqb_neq; lia).
  rewrite E1, E2. apply andb_false_r.
Qed.

Lemma space3_last (b0 b1 b2 : ascii) :
  N_of_ascii b2 < 128 -> strings.space3 b0 b1 b2 = false.
Proof.
  intros H. unfold strings.space3. cbv zeta.
  assert (E1 : (N_of_ascii b2 =? 0x80) = false) by (apply N.eqb_neq; lia).
  assert (E2 : (0x80 <=? N_of_ascii b2) = false) by (apply N.leb_gt; lia).
  assert (E3 : (N_of_ascii b2 =? 0xA8) = false) by (apply N.eqb_neq; lia).
  assert (E4 : (N_of_ascii b2 =? 0xA9) = false) by (apply N.eqb_neq; lia).
  assert (E5 : (N_of_ascii b2 =? 0xAF) = false) by (apply N.eqb_neq; lia).
  assert (E6 : (N_of_ascii b2 =? 0x9F) = false) by (apply N.eqb_neq; lia).
  rewrite E1, E2, E3, E4, E5, E6. cbn [andb orb].
  rewrite !andb_false_r. reflexivity.
Qed.

Lemma trim_left_plain (c : ascii) (l : list ascii) :
  props.name_char c = true -> strings.trim_left (c :: l) = c :: l.
Proof.
  intros H. destruct (name_char_plain c H) as (Hlt & Hsp & _).
  cbn [strings.trim_left]. rewrite Hsp.
  destruct l as [| b1 [| b2 l]]; [reflexivity | |].
  - rewrite space2_first by exact Hlt. reflexivity.
  - rewrite space2_first, space3_first by exact Hlt. reflexivity.
Qed.

Lemma trim_left_rev_plain (c : ascii) (l : list ascii) :
  props.name_char c = true -> strings.trim_left_rev (c :: l) = c :: l.
Proof.
  intros H. destruct (name_char_plain c H) as (Hlt & Hsp & _).
  cbn [strings.trim_left_rev]. rewrite Hsp.
  destruct l as [| b1 [| b2 l]]; [reflexivity | |].
  - rewrite space2_last by exact Hlt. reflexivity.
  - rewrite space2_last, space3_last by exact Hlt. reflexivity.
Qed.

Lemma name_chars_Forall (s : string) :
  props.name_chars s = true ->
  List.Forall (fun c => props.name_char c = true) (list_ascii_of_string s).
Proof.
  induction s as [| c s IH]; cbn [props.name_chars list_ascii_of_string].
  - constructor.
  - intros H. apply andb_true_iff in H. destruct H as [Hc Hs].
    constructor; auto.
Qed.

(** [TrimSpace] leaves a dotted identifier as it is. *)
Lemma TrimSpace_name (s : string) : props.name_chars s = true -> strings.TrimSpace s = s.
Proof.
  intros H. apply name_chars_Forall in H. unfold strings.TrimSpace.
  rewrite <- (string_of_list_ascii_of_string s) at 2. f_equal.
  set (l := list_ascii_of_string s) in *. clearbody l.
  assert (E : strings.trim_left l = l).
  { destruct H as [| c l Hc Hl]; [reflexivity | apply trim_left_plain; exact Hc]. }
  rewrite E. unfold strings.trim_right.
  destruct (rev l) as [| c t] eqn:Er.
  - apply (f_equal (@rev ascii)) in Er. rewrite rev_involutive in Er.
    subst l. reflexivity.
  - assert (Hc : props.name_char c = true).
    { apply (proj1 (List.Forall_forall _ _) H). apply in_rev.
      rewrite Er. left. reflexivity. }
    rewrite (trim_left_rev_plain c t Hc), <- Er. apply rev_involutive.
Qed.

Lemma Contains_name (s : string) :
  props.name_chars s = true -> strings.Contains s "/" = false.
Proof.
  induction s as [| c s IH]; [reflexivity |].
  cbn [props.name_chars]. intros H. apply andb_true_iff in H. destruct H as [Hc Hs].
  cbn [strings.Contains]. rewrite HasPrefix_slash, (IH Hs).
  destruct (name_char_plain c Hc) as (_ & _ & E). rewrite E. reflexivity.
Qed.

Lemma TrimPrefix_starts_ident (s : string) (p : ascii) :
  props.starts_ident s = true -> props.ident_start p = false ->
  strings.TrimPrefix s (String p EmptyString) = s.
Proof.
  destruct s as [| c s]; [discriminate |]. cbn [props.starts_ident]. intros Hc Hp.
  unfold strings.TrimPrefix. cbn [strings.HasPrefix]. unfold strings.byte_eqb.
  destruct (Ascii.eqb_spec p c) as [-> | _]; [congruence | reflexivity].
Qed.

Lemma ident_chars_name_chars (s : string) :
  props.ident_chars s = true -> props.name_chars s = true.
Proof.
  induction s as [| c s IH]; [reflexivity |].
  cbn [props.ident_chars props.name_chars]. intros H.
  apply andb_true_iff in H. destruct H as [Hc Hs].
  destruct (ident_char_name_char c Hc) as [Hn _]. rewrite Hn, (IH Hs). reflexivity.
Qed.

Lemma is_ident_facts (s : string) :
  props.is_ident s = true ->
  props.starts_ident s = true /\ props.ident_chars s = true /\ props.name_chars s = true.
Proof.
  destruct s as [| c s]; [discriminate |]. cbn [props.is_ident props.starts_ident].
  intros H. apply andb_true_iff in H. destruct H as [Hc Hs].
  destruct (ident_start_not_dot c Hc) as [_ Hic].
  assert (Hi : props.ident_chars (String c s) = true).
  { cbn [props.ident_chars]. rewrite Hic, Hs. reflexivity. }
  auto using ident_chars_name_chars.
Qed.

Lemma full_ident_from_name_chars (s : string) :
  forall start, props.full_ident_from start s = true -> props.name_chars s = true.
Proof.
  induction s as [| c s IH]; [reflexivity |]. intros start.
  cbn [props.full_ident_from props.name_chars]. destruct start.
  - intros H. apply andb_true_iff in H. destruct H as [Hc Hs].
    destruct (ident_start_not_dot c Hc) as [_ Hic].
    destruct (ident_char_name_char c Hic) as [Hn _].
    rewrite Hn, (IH false Hs). reflexivity.
  - unfold props.name_char.
    destruct (Ascii.eqb c "."%char).
    + intros H. rewrite (IH true H), orb_true_r. reflexivity.
    + intros H. apply andb_true_iff in H. destruct H as [Hc Hs].
      rewrite Hc, (IH false Hs). reflexivity.
Qed.

Lemma is_full_ident_facts (s : string) :
  props.is_full_ident s = true ->
  props.starts_ident s = true /\ props.name_chars s = true.
Proof.
  intros H. split; [| apply (full_ident_from_name_chars s true H)].
  destruct s as [| c s]; [discriminate |].
  unfold props.is_full_ident in H. cbn [props.full_ident_from] in H.
  apply andb_true_iff in H. destruct H as [Hc _]. exact Hc.
Qed.

Lemma name_chars_append (a b : string) :
  props.name_chars a = true -> props.name_chars b = true ->
  props.name_chars (a +:+ b) = true.
Proof.
  intros Ha Hb. induction a as [| c a IH]; [exact Hb |].
  cbn [props.name_chars] in Ha. apply andb_true_iff in Ha. destruct Ha as [Hc Ha].
  change (String c a +:+ b) with (String c (a +:+ b)).
  cbn [props.name_chars]. rewrite Hc, (IH Ha). reflexivity.
Qed.

Lemma starts_ident_append (a b : string) :
  props.starts_ident a = true -> props.starts_ident (a +:+ b) = true.
Proof. destruct a as [| c a]; [discriminate | intros H; exact H]. Qed.

(** An identifier holds no dot, so it is not a package, a dot and a name. *)
Lemma ident_chars_no_dot (a b : string) :
  props.ident_chars (a +:+ "." +:+ b) = false.
Proof.
  induction a as [| c a IH].
  - reflexivity.
  - change (String c a +:+ "." +:+ b) with (String c (a +:+ "." +:+ b)).
    cbn [props.ident_chars]. rewrite IH. apply andb_false_r.
Qed.

(** The fully-qualified name of a valid service. *)
Lemma valid_service_facts (svc : desc.ServiceDescriptor) :
  props.valid_service svc = true ->
  props.is_ident (desc.sd_name svc) = true
  /\ props.starts_ident (desc.GetFullyQualifiedName svc) = true
  /\ props.name_chars (desc.GetFullyQualifiedName svc) = true
  /\ (forall m, In m (desc.sd_methods svc) -> props.is_ident (desc.md_name m) = true).
Proof.
  unfold props.valid_service. intros H.
  apply andb_true_iff in H. destruct H as [H Hm].
  apply andb_true_iff in H. destruct H as [Hn Hp].
  destruct (is_ident_facts _ Hn) as (Hs & _ & Hc).
  assert (Hms : forall m, In m (desc.sd_methods svc) ->
                          props.is_ident (desc.md_name m) = true).
  { intros m Hin. apply (proj1 (forallb_forall _ _) Hm m Hin). }
  unfold desc.GetFullyQualifiedName.
  destruct (String.eqb (desc.sd_package svc) "") eqn:Ep; [auto |].
  cbn [orb] in Hp. destruct (is_full_ident_facts _ Hp) as [Hps Hpc].
  repeat split; auto.
  - apply starts_ident_append. exact Hps.
  - apply name_chars_append; [exact Hpc |].
    apply (name_chars_append "." _); [reflexivity | exact Hc].
Qed.

(** A dotted identifier and an identifier pass [normalize] unchanged. *)
Lemma normalize_names (service method : string) :
  props.starts_ident service = true -> props.name_chars service = true ->
  props.is_ident method = true ->
  core.normalize service method = (service, method)
  /\ service <> "" /\ method <> "".
Proof.
  intros Hs Hc Hm. destruct (is_ident_facts _ Hm) as (Hms & _ & Hmc).
  unfold core.normalize.
  rewrite (TrimSpace_name service Hc), (TrimSpace_name method Hmc).
  rewrite (Contains_name method Hmc).
  change "/" with (String "/"%char EmptyString).
  change "." with (String "."%char EmptyString).
  rewrite (TrimPrefix_starts_ident service "/"%char Hs eq_refl).
  rewrite (TrimPrefix_starts_ident service "."%char Hs eq_refl).
  rewrite (TrimPrefix_starts_ident method "/"%char Hms eq_refl).
  repeat split.
  - destruct service; [discriminate Hs | discriminate].
  - destruct method; [discriminate Hms | discriminate].
Qed.

(** ** The indices of a descriptor pool *)

Section Pool.

Import desc core props.

Lemma pool_of_files_services files :
  pool_of_files files = pool_from (all_services files).
Proof.
  unfold pool_of_files, pool_from, all_services. generalize empty_pool as acc.
  induction files as [| fd files IH]; intros acc; [reflexivity |].
  cbn [fold_left flat_map]. rewrite fold_left_app. apply IH.
Qed.

Lemma pool_from_snoc l x : pool_from (l ++ [x]) = add_service (pool_from l) x.
Proof. unfold pool_from. apply fold_left_app. Qed.

(** The index by short name lists, per name, the services of that name
    in the order of the descriptor set. *)
Lemma servicesByName_spec l n :
  default [] (servicesByName (pool_from l) !! n) = with_short_name n l.
Proof.
  induction l as [| x l IH] using rev_ind.
  - cbn. rewrite lookup_empty. reflexivity.
  - rewrite pool_from_snoc. unfold with_short_name in *.
    rewrite List.filter_app. cbn [add_service servicesByName List.filter].
    destruct (String.eqb_spec (sd_name x) n) as [E | E].
    + subst n. rewrite lookup_insert_eq. cbn [default]. rewrite IH. reflexivity.
    + rewrite lookup_insert_ne by exact E. rewrite IH, app_nil_r. reflexivity.
Qed.

(** The index by fully-qualified name holds every service under its
    name and under its name after a dot, and nothing else. *)
Lemma servicesByFQN_sound l k v :
  servicesByFQN (pool_from l) !! k = Some v ->
  In v l /\ (k = GetFullyQualifiedName v \/ k = "." +:+ GetFullyQualifiedName v).
Proof.
  induction l as [| x l IH] using rev_ind.
  - cbn. rewrite lookup_empty. discriminate.
  - rewrite pool_from_snoc. cbn [add_service servicesByFQN].
    rewrite !lookup_insert. repeat case_decide.
    + intros [= <-]. split; [apply in_or_app; right; left; reflexivity | auto].
    + intros [= <-]. split; [apply in_or_app; right; left; reflexivity | auto].
    + intros Hl. destruct (IH Hl) as [Hin Hk].
      split; [apply in_or_app; left; exact Hin | exact Hk].
Qed.

Lemma servicesByFQN_complete l v :
  In v l -> is_Some (servicesByFQN (pool_from l) !! GetFullyQualifiedName v).
Proof.
  induction l as [| x l IH] using rev_ind; [intros [] |].
  intros Hin. rewrite pool_from_snoc. cbn [add_service servicesByFQN].
  rewrite !lookup_insert. repeat case_decide; eauto.
  apply in_app_or in Hin. destruct Hin as [Hin | [-> | []]]; [auto | congruence].
Qed.

Lemma FindMethodByName_some svc name md :
  FindMethodByName svc name = Some md -> In md (sd_methods svc) /\ md_name md = name.
Proof.
  unfold FindMethodByName. intros H. apply find_some in H.
  destruct H as [Hin E]. apply String.eqb_eq in E. auto.
Qed.

Lemma FindMethodByName_none svc name :
  FindMethodByName svc name = None ->
  forall md, In md (sd_methods svc) -> md_name md <> name.
Proof.
  unfold FindMethodByName. intros H md Hin.
  apply String.eqb_neq. apply (find_none _ _ H md Hin).
Qed.

Lemma FindMethodByName_present svc md :
  In md (sd_methods svc) ->
  exists md', FindMethodByName svc (md_name md) = Some md'.
Proof.
  intros Hin. destruct (FindMethodByName svc (md_name md)) as [md' |] eqn:E; [eauto |].
  exfalso. apply (FindMethodByName_none _ _ E md Hin). reflexivity.
Qed.

(** [Resolve] after normalization. *)
Lemma Resolve_normalized p service method s m :
  normalize service method = (s, m) -> s <> "" -> m <> "" ->
  InlineDescriptorPool_Resolve p service method
  = match select_service p s with
    | Err e => Err e
    | Ok svc => method_of svc m
    end.
Proof.
  intros Hn Hs Hm. unfold InlineDescriptorPool_Resolve. rewrite Hn.
  apply String.eqb_neq in Hs. apply String.eqb_neq in Hm. rewrite Hs, Hm.
  cbn [orb]. destruct (select_service p s); reflexivity.
Qed.

(** C5.  The order in which [InlineDescriptorPool.Resolve] looks the
    service up, for the names [s] and [m] that normalization leaves: the
    index by fully-qualified name at [s]; then the same index at [s] after
    a dot; then the services with the short name [s], of which there must be
    exactly one; two or more give an error that lists the fully-qualified
    name of each of them.  The method is looked up in the selected service
    by its exact name, and a miss is an error that names the method and the
    fully-qualified name of the service. *)
Theorem Resolve_lookup_order (files : list FileDescriptor) (service method s m : string) :
  normalize service method = (s, m) -> s <> "" -> m <> "" ->
  let p := pool_of_files files in
  let candidates := with_short_name s (all_services files) in
  (forall v, servicesByFQN p !! s = Some v ->
             InlineDescriptorPool_Resolve p service method = method_of v m)
  /\ (forall v, servicesByFQN p !! s = None ->
                servicesByFQN p !! ("." +:+ s) = Some v ->
                InlineDescriptorPool_Resolve p service method = method_of v m)
  /\ (servicesByFQN p !! s = None -> servicesByFQN p !! ("." +:+ s) = None ->
      (forall v, candidates = [v] ->
                 InlineDescriptorPool_Resolve p service method = method_of v m)
      /\ ((2 <= length candidates)%nat ->
          InlineDescriptorPool_Resolve p service method
          = Err (ErrAmbiguousServiceName s (map GetFullyQualifiedName candidates)))
      /\ (candidates = [] ->
          InlineDescriptorPool_Resolve p service method = Err (ErrServiceNotFound s)))
  /\ (forall k v, servicesByFQN p !! k = Some v ->
                  In v (all_services files)
                  /\ (k = GetFullyQualifiedName v \/ k = "." +:+ GetFullyQualifiedName v))
  /\ (forall v, In v (all_services files) ->
                is_Some (servicesByFQN p !! GetFullyQualifiedName v))
  /\ (forall v, (forall md, In md (sd_methods v) -> md_name md <> m) ->
                method_of v m = Err (ErrMethodNotFound m (GetFullyQualifiedName v)))
  /\ (forall v rm, method_of v m = Ok rm ->
                   In (Method rm) (sd_methods v) /\ md_name (Method rm) = m
                   /\ ServiceFQN rm = GetFullyQualifiedName v).
Proof.
  intros Hn Hs Hm p candidates.
  pose proof (Resolve_normalized p service method s m Hn Hs Hm) as HR.
  unfold select_service in HR.
  assert (Hc : default [] (servicesByName p !! s) = candidates).
  { unfold p, candidates. rewrite pool_of_files_services. apply servicesByName_spec. }
  rewrite Hc in HR.
  split; [| split; [| split; [| split; [| split; [| split]]]]].
  - intros v Hv. rewrite HR, Hv. reflexivity.
  - intros v H0 Hv. rewrite HR, H0, Hv. reflexivity.
  - intros H0 H1. rewrite H0, H1 in HR. repeat split.
    + intros v Hv. rewrite HR, Hv. reflexivity.
    + intros Hlen. rewrite HR.
      destruct candidates as [| v [| w l]]; cbn in Hlen; try lia. reflexivity.
    + intros Hnil. rewrite HR, Hnil. reflexivity.
  - intros k v. unfold p. rewrite pool_of_files_services. apply servicesByFQN_sound.
  - intros v. unfold p. rewrite pool_of_files_services. apply servicesByFQN_complete.
  - intros v Hno. unfold method_of.
    destruct (FindMethodByName v m) as [md |] eqn:E; [| reflexivity].
    destruct (FindMethodByName_some _ _ _ E) as [Hin Hname].
    exfalso. apply (Hno md Hin Hname).
  - intros v rm. unfold method_of.
    destruct (FindMethodByName v m) as [md |] eqn:E; [| discriminate].
    intros [= <-]. cbn [Method ServiceFQN].
    destruct (FindMethodByName_some _ _ _ E) as [Hin Hname]. auto.
Qed.

End Pool.

(** ** Resolution by fully-qualified name and by short name *)

Lemma NoDup_map_injective {A B : Type} (f : A -> B) (l : list A) (x y : A) :
  List.NoDup (map f l) -> In x l -> In y l -> f x = f y -> x = y.
Proof.
  induction l as [| a l IH]; [intros _ [] |].
  cbn [map]. intros Hnd Hx Hy E. inversion Hnd as [| ? ? Hnotin Hnd']; subst.
  destruct Hx as [-> | Hx], Hy as [-> | Hy]; [reflexivity | | | auto].
  - exfalso. apply Hnotin. rewrite E. apply in_map. exact Hy.
  - exfalso. apply Hnotin. rewrite <- E. apply in_map. exact Hx.
Qed.

Lemma filter_all_false {A : Type} (f : A -> bool) (l : list A) :
  (forall y, In y l -> f y = false) -> List.filter f l = [].
Proof.
  induction l as [| a l IH]; [reflexivity |]. intros H. cbn [List.filter].
  rewrite (H a) by (left; reflexivity). apply IH. intros y Hy. apply H. right. exact Hy.
Qed.

Lemma filter_only {A : Type} (f : A -> bool) (l : list A) (x : A) :
  List.NoDup l -> In x l -> f x = true ->
  (forall y, In y l -> f y = true -> y = x) ->
  List.filter f l = [x].
Proof.
  induction l as [| a l IH]; [intros _ [] |].
  intros Hnd Hx Hfx Huniq. inversion Hnd as [| ? ? Hnotin Hnd']; subst.
  cbn [List.filter]. destruct (f a) eqn:Hfa.
  - assert (a = x) by (apply Huniq; [left; reflexivity | exact Hfa]). subst a.
    f_equal. apply filter_all_false. intros y Hy.
    destruct (f y) eqn:Hfy; [| reflexivity].
    exfalso. apply Hnotin.
    rewrite <- (Huniq y (or_intror Hy) Hfy). exact Hy.
  - destruct Hx as [-> | Hx]; [congruence |].
    apply IH; auto. intros y Hy. apply Huniq. right. exact Hy.
Qed.

Section FqnAndShortName.

Import desc core props.

Context {FileDescriptorSet : Type}.
Variable proto_Unmarshal : list ascii -> result string FileDescriptorSet.
Variable CreateFileDescriptorsFromSet :
  FileDescriptorSet -> result string (list FileDescriptor).

(** A service whose fully-qualified name is an identifier has no
    package: the name is its short name. *)
Lemma fqn_ident_short_name (w : ServiceDescriptor) :
  props.ident_chars (GetFullyQualifiedName w) = true ->
  GetFullyQualifiedName w = sd_name w.
Proof.
  unfold GetFullyQualifiedName.
  destruct (String.eqb (sd_package w) ""); [reflexivity |].
  rewrite ident_chars_no_dot. discriminate.
Qed.

Lemma starts_ident_not_dotted (s t : string) :
  props.starts_ident s = true -> s <> "." +:+ t.
Proof. intros H ->. discriminate H. Qed.

Lemma dot_injective (s t : string) : "." +:+ s = "." +:+ t -> s = t.
Proof. intros [= E]. exact E. Qed.

(** C7.  In the pool built from the bytes of a valid descriptor set, a
    method that is present resolves to one and the same Resolved Method by
    the fully-qualified name of its service and by the short name of the
    service, when no other service of the set has that short name; the
    Resolved Method carries the fully-qualified name of the service. *)
Theorem Resolve_fqn_and_short_name (bytes : list ascii) (fds : FileDescriptorSet)
    (files : list FileDescriptor) (svc : ServiceDescriptor) (md : MethodDescriptor) :
  proto_Unmarshal bytes = Ok fds ->
  CreateFileDescriptorsFromSet fds = Ok files ->
  valid_descriptor_set files ->
  In svc (all_services files) ->
  In md (sd_methods svc) ->
  (forall svc', In svc' (all_services files) -> sd_name svc' = sd_name svc -> svc' = svc) ->
  exists pool rm,
    newInlineDescriptorPool proto_Unmarshal CreateFileDescriptorsFromSet bytes = Ok pool
    /\ InlineDescriptorPool_Resolve pool (GetFullyQualifiedName svc) (md_name md) = Ok rm
    /\ InlineDescriptorPool_Resolve pool (sd_name svc) (md_name md) = Ok rm
    /\ ServiceFQN rm = GetFullyQualifiedName svc
    /\ FindMethodByName svc (md_name md) = Some (Method rm).
Proof.
  intros HU HC [Hvalid Hnd] Hsvc Hmd Huniq.
  assert (Hv : forall w, In w (all_services files) -> valid_service w = true).
  { apply (proj1 (List.Forall_forall _ _) Hvalid). }
  destruct (valid_service_facts svc (Hv svc Hsvc)) as (Hname & Hfs & Hfc & Hms).
  destruct (is_ident_facts _ Hname) as (Hns & Hni & Hnc).
  destruct (FindMethodByName_present svc md Hmd) as [md' Hfind].
  exists (pool_of_files files), {| Method := md'; ServiceFQN := GetFullyQualifiedName svc |}.
  assert (Hmo : method_of svc (md_name md)
                = Ok {| Method := md'; ServiceFQN := GetFullyQualifiedName svc |}).
  { unfold method_of. rewrite Hfind. reflexivity. }
  assert (Hsame : forall w, In w (all_services files) ->
                            GetFullyQualifiedName w = GetFullyQualifiedName svc -> w = svc).
  { intros w Hw E. apply (NoDup_map_injective _ _ w svc Hnd Hw Hsvc E). }
  assert (Hshort : forall w, In w (all_services files) ->
                             GetFullyQualifiedName w = sd_name svc -> w = svc).
  { intros w Hw E. apply Huniq; [exact Hw |].
    rewrite <- E. symmetry. apply fqn_ident_short_name. rewrite E. exact Hni. }
  set (p := pool_of_files files).
  assert (Hsound : forall k v, servicesByFQN p !! k = Some v ->
                     In v (all_services files)
                     /\ (k = GetFullyQualifiedName v \/ k = "." +:+ GetFullyQualifiedName v)).
  { intros k v. unfold p. rewrite pool_of_files_services. apply servicesByFQN_sound. }
  split; [| split; [| split; [| split]]].
  - unfold newInlineDescriptorPool. rewrite HU, HC. reflexivity.
  - destruct (normalize_names (GetFullyQualifiedName svc) (md_name md) Hfs Hfc
                (Hms md Hmd)) as (Hn & Hs & Hm).
    rewrite (Resolve_normalized p _ _ _ _ Hn Hs Hm). unfold select_service.
    assert (His : is_Some (servicesByFQN p !! GetFullyQualifiedName svc)).
    { unfold p. rewrite pool_of_files_services. apply servicesByFQN_complete. exact Hsvc. }
    destruct His as [w Hw]. rewrite Hw.
    destruct (Hsound _ _ Hw) as [Hin [E | E]].
    + rewrite (Hsame w Hin (eq_sym E)). exact Hmo.
    + exfalso. apply (starts_ident_not_dotted _ _ Hfs E).
  - destruct (normalize_names (sd_name svc) (md_name md) Hns Hnc (Hms md Hmd))
      as (Hn & Hs & Hm).
    rewrite (Resolve_normalized p _ _ _ _ Hn Hs Hm). unfold select_service.
    destruct (servicesByFQN p !! sd_name svc) as [w |] eqn:Hw.
    { destruct (Hsound _ _ Hw) as [Hin [E | E]].
      - rewrite (Hshort w Hin (eq_sym E)). exact Hmo.
      - exfalso. apply (starts_ident_not_dotted _ _ Hns E). }
    destruct (servicesByFQN p !! ("." +:+ sd_name svc)) as [w |] eqn:Hw'.
    { destruct (Hsound _ _ Hw') as [Hin [E | E]].
      - exfalso. destruct (valid_service_facts w (Hv w Hin)) as (_ & Hws & _).
        apply (starts_ident_not_dotted _ _ Hws (eq_sym E)).
      - apply dot_injective in E. rewrite (Hshort w Hin (eq_sym E)). exact Hmo. }
    unfold p. rewrite pool_of_files_services, servicesByName_spec.
    unfold with_short_name.
    rewrite (filter_only _ _ svc); [exact Hmo | | exact Hsvc | | ].
    + apply (NoDup_map_inv _ _ Hnd).
    + apply String.eqb_refl.
    + intros y Hy E. apply String.eqb_eq in E. apply Huniq; assumption.
  - reflexivity.
  - exact Hfind.
Qed.

End FqnAndShortName.

(** ** Descriptor pools at work *)

Example Resolve_by_fqn :
  core.InlineDescriptorPool_Resolve fixtures.pool_v1 "echo.EchoService" "Echo"
  = Ok {| core.Method := fixtures.Echo; core.ServiceFQN := "echo.EchoService" |}.
Proof. vm_compute. reflexivity. Qed.

Example Resolve_by_dotted_fqn :
  core.InlineDescriptorPool_Resolve fixtures.pool_v1 " .echo.EchoService " "/Echo"
  = Ok {| core.Method := fixtures.Echo; core.ServiceFQN := "echo.EchoService" |}.
Proof. vm_compute. reflexivity. Qed.

Example Resolve_by_short_name :
  core.InlineDescriptorPool_Resolve fixtures.pool_v1 "EchoService" "Echo"
  = Ok {| core.Method := fixtures.Echo; core.ServiceFQN := "echo.EchoService" |}.
Proof. vm_compute. reflexivity. Qed.

Example Resolve_by_full_method_name :
  core.InlineDescriptorPool_Resolve fixtures.pool_v1 "" "/echo.EchoService/Echo"
  = Ok {| core.Method := fixtures.Echo; core.ServiceFQN := "echo.EchoService" |}.
Proof. vm_compute. reflexivity. Qed.

Example Resolve_method_not_found :
  core.InlineDescriptorPool_Resolve fixtures.pool_v1 "EchoService" "echo"
  = Err (core.ErrMethodNotFound "echo" "echo.EchoService").
Proof. vm_compute. reflexivity. Qed.

Example Resolve_service_not_found :
  core.InlineDescriptorPool_Resolve fixtures.pool_v1 "Echo" "Echo"
  = Err (core.ErrServiceNotFound "Echo").
Proof. vm_compute. reflexivity. Qed.

Example Resolve_missing_method :
  core.InlineDescriptorPool_Resolve fixtures.pool_v1 "EchoService" " "
  = Err core.ErrMissingServiceOrMethod.
Proof. vm_compute. reflexivity. Qed.

Example Resolve_ambiguous :
  core.InlineDescriptorPool_Resolve (core.pool_of_files fixtures.set_two) "EchoService" "Echo"
  = Err (core.ErrAmbiguousServiceName "EchoService"
           ["echo.EchoService"; "admin.EchoService"]).
Proof. vm_compute. reflexivity. Qed.

Lemma Resolve_lookup_order_witness :
  core.normalize "EchoService" "Echo" = ("EchoService", "Echo")
  /\ "EchoService" <> "" /\ "Echo" <> ""
  /\ core.InlineDescriptorPool_Resolve (core.pool_of_files fixtures.set_two)
       "EchoService" "Echo"
     = Err (core.ErrAmbiguousServiceName "EchoService"
              (map desc.GetFullyQualifiedName
                 (props.with_short_name "EchoService"
                    (props.all_services fixtures.set_two)))).
Proof.
  assert (Hn : core.normalize "EchoService" "Echo" = ("EchoService", "Echo"))
    by (vm_compute; reflexivity).
  assert (Hs : "EchoService" <> "") by discriminate.
  assert (Hm : "Echo" <> "") by discriminate.
  split; [exact Hn |]. split; [exact Hs |]. split; [exact Hm |].
  destruct (Resolve_lookup_order fixtures.set_two "EchoService" "Echo"
              "EchoService" "Echo" Hn Hs Hm) as (_ & _ & Hc & _).
  destruct Hc as (_ & Hamb & _); [vm_compute; reflexivity | vm_compute; reflexivity |].
  apply Hamb. vm_compute. lia.
Defined.

Lemma valid_set_v1 : props.valid_descriptor_set fixtures.set_v1.
Proof.
  split.
  - repeat constructor.
  - cbn. repeat constructor. intros [].
Qed.

Lemma Resolve_fqn_and_short_name_witness :
  fixtures.Unmarshal (fixtures.bytes_of "echo-v1") = Ok fixtures.set_v1
  /\ props.valid_descriptor_set fixtures.set_v1
  /\ In fixtures.EchoService (props.all_services fixtures.set_v1)
  /\ In fixtures.Echo (desc.sd_methods fixtures.EchoService)
  /\ exists rm,
       core.InlineDescriptorPool_Resolve fixtures.pool_v1 "echo.EchoService" "Echo" = Ok rm
       /\ core.InlineDescriptorPool_Resolve fixtures.pool_v1 "EchoService" "Echo" = Ok rm
       /\ core.ServiceFQN rm = "echo.EchoService".
Proof.
  assert (HU : fixtures.Unmarshal (fixtures.bytes_of "echo-v1") = Ok fixtures.set_v1)
    by (vm_compute; reflexivity).
  assert (Hsvc : In fixtures.EchoService (props.all_services fixtures.set_v1))
    by (left; reflexivity).
  assert (Hmd : In fixtures.Echo (desc.sd_methods fixtures.EchoService))
    by (left; reflexivity).
  split; [exact HU |]. split; [exact valid_set_v1 |].
  split; [exact Hsvc |]. split; [exact Hmd |].
  destruct (Resolve_fqn_and_short_name fixtures.Unmarshal fixtures.Create
              (fixtures.bytes_of "echo-v1") fixtures.set_v1 fixtures.set_v1
              fixtures.EchoService fixtures.Echo HU eq_refl valid_set_v1 Hsvc Hmd)
    as (pool & rm & Hp & H1 & H2 & Hf & _).
  { intros svc' [<- | []] _. reflexivity. }
  assert (E : core.newInlineDescriptorPool fixtures.Unmarshal fixtures.Create
                (fixtures.bytes_of "echo-v1") = Ok fixtures.pool_v1) by reflexivity.
  rewrite E in Hp. injection Hp as <-.
  exists rm. auto.
Defined.

(** ** The transport encoding at work *)

Example encodeBase64V1_path :
  sdk.encodeBase64V1 (list_ascii_of_string "/healthx") = "=gHa0xWYlh2L".
Proof. vm_compute. reflexivity. Qed.

(** The path that [DefaultOptions] decodes. *)
Example decodeBase64V1_path :
  sdk.decodeBase64V1 "=gHa0xWYlh2L" = (Some (list_ascii_of_string "/healthx"), None).
Proof. vm_compute. reflexivity. Qed.

Example decodeBase64V1_empty : sdk.decodeBase64V1 "" = (None, None).
Proof. reflexivity. Qed.

(** The body of [TestDecodeRequestBody_InvalidBase64]. *)
Example decodeRequestBody_invalid :
  sdk.decodeRequestBody (Ok (list_ascii_of_string "not-a-valid-b64v1"))
  = Err (sdk.ErrDecodeB64V1 (base64.CorruptInput 5)).
Proof. vm_compute. reflexivity. Qed.

(** * Further properties *)

(** ** Parsing full method names *)

Lemma cut_byte_sound (s before after : string) :
  strings.cut_byte "/"%char s = Some (before, after) ->
  s = before +:+ "/" +:+ after /\ strings.Contains before "/" = false.
Proof.
  revert before. induction s as [| c s IH]; intros before; [discriminate |].
  cbn [strings.cut_byte]. unfold strings.byte_eqb.
  destruct (Ascii.eqb_spec c "/"%char) as [-> | Hc].
  - intros [= <- <-]. split; reflexivity.
  - destruct (strings.cut_byte "/"%char s) as [[b a] |]; [| discriminate].
    intros [= <- <-]. destruct (IH b eq_refl) as [-> Hb]. split; [reflexivity |].
    cbn [strings.Contains]. rewrite HasPrefix_slash, Hb.
    destruct (Ascii.eqb_spec "/"%char c) as [E | _]; [congruence | reflexivity].
Qed.

Lemma cut_byte_joined (a b : string) :
  strings.Contains a "/" = false ->
  strings.cut_byte "/"%char (a +:+ "/" +:+ b) = Some (a, b).
Proof.
  induction a as [| c a IH].
  - intros _. reflexivity.
  - cbn [strings.Contains]. rewrite HasPrefix_slash. intros H.
    apply orb_false_iff in H. destruct H as [Hc Ha].
    change (String c a +:+ "/" +:+ b) with (String c (a +:+ "/" +:+ b)).
    cbn [strings.cut_byte]. unfold strings.byte_eqb.
    rewrite Ascii.eqb_sym, Hc, (IH Ha). reflexivity.
Qed.

(** X1.  [ParseFullMethodName] splits at the first separator after the
    optional leading one: a success returns the two parts of the trimmed
    name around that separator, the first free of separators; a failure
    means the trimmed name has no separator, and reports that name. *)
Theorem ParseFullMethodName_spec (s : string) :
  match core.ParseFullMethodName s with
  | Ok (service, method) =>
      strings.TrimPrefix s "/" = service +:+ "/" +:+ method
      /\ strings.Contains service "/" = false
  | Err e =>
      e = core.ErrInvalidFullMethodName (strings.TrimPrefix s "/")
      /\ strings.Contains (strings.TrimPrefix s "/") "/" = false
  end.
Proof.
  unfold core.ParseFullMethodName, strings.SplitN2.
  destruct (strings.cut_byte "/"%char (strings.TrimPrefix s "/")) as [[a b] |] eqn:E.
  - cbn. apply cut_byte_sound. exact E.
  - cbn. split; [reflexivity |].
    destruct (strings.Contains (strings.TrimPrefix s "/") "/") eqn:Hc; [| reflexivity].
    destruct (cut_byte_some _ Hc) as (b & a & E'). congruence.
Qed.

Lemma ParseFullMethodName_slash_joined (a b : string) :
  strings.Contains a "/" = false ->
  core.ParseFullMethodName ("/" +:+ a +:+ "/" +:+ b) = Ok (a, b).
Proof.
  intros Ha. unfold core.ParseFullMethodName, strings.SplitN2.
  change ("/" +:+ a +:+ "/" +:+ b) with (String "/"%char (a +:+ "/" +:+ b)).
  assert (Ht : strings.TrimPrefix (String "/"%char (a +:+ "/" +:+ b)) "/"
               = a +:+ "/" +:+ b).
  { unfold strings.TrimPrefix. rewrite HasPrefix_slash. reflexivity. }
  rewrite Ht, (cut_byte_joined a b Ha). reflexivity.
Qed.

(** X2.  Parsing undoes joining: a service name without separator and a
    method name, joined by a separator after a leading separator, parse
    back into the two names; so they do without the leading separator when
    the service name is not empty. *)
Theorem ParseFullMethodName_joined (service method : string) :
  strings.Contains service "/" = false ->
  core.ParseFullMethodName ("/" +:+ service +:+ "/" +:+ method) = Ok (service, method)
  /\ (service <> "" ->
      core.ParseFullMethodName (service +:+ "/" +:+ method) = Ok (service, method)).
Proof.
  intros Ha. split; [apply ParseFullMethodName_slash_joined; exact Ha |].
  intros Hne. unfold core.ParseFullMethodName, strings.SplitN2.
  assert (Ht : strings.TrimPrefix (service +:+ "/" +:+ method) "/"
               = service +:+ "/" +:+ method).
  { destruct service as [| c a]; [congruence |].
    cbn [strings.Contains] in Ha. rewrite HasPrefix_slash in Ha.
    apply orb_false_iff in Ha. destruct Ha as [Hc _].
    change (String c a +:+ "/" +:+ method) with (String c (a +:+ "/" +:+ method)).
    unfold strings.TrimPrefix. rewrite HasPrefix_slash, Hc. reflexivity. }
  rewrite Ht, (cut_byte_joined service method Ha). reflexivity.
Qed.

Lemma ParseFullMethodName_joined_witness :
  strings.Contains "echo.EchoService" "/" = false
  /\ core.ParseFullMethodName "/echo.EchoService/Echo" = Ok ("echo.EchoService", "Echo").
Proof.
  split; [reflexivity |].
  exact (proj1 (ParseFullMethodName_joined "echo.EchoService" "Echo" eq_refl)).
Defined.

(** ** The cache of the static resolver *)

Section StaticCache.

Import desc core props caches.

Context {FileDescriptorSet : Type}.
Variable proto_Unmarshal : list ascii -> result string FileDescriptorSet.
Variable CreateFileDescriptorsFromSet :
  FileDescriptorSet -> result string (list FileDescriptor).
Variable filepath_Join : string -> string -> string.
Variable os_ReadFile : string -> result string (list ascii).

Abbreviation StaticResolve :=
  (MethodResolver_Resolve proto_Unmarshal CreateFileDescriptorsFromSet
     filepath_Join os_ReadFile).

Lemma StaticResolve_cases r s :
  (exists e, StaticResolve r s = (Err e, r))
  \/ (exists md, StaticResolve r s
                 = (Ok md, {| descriptorDir := descriptorDir r;
                              cache := <[s := md]> (cache r) |})
                 /\ (cache r !! s = Some md
                     \/ exists svc files, In (svc, md) (all_methods files)
                                          /\ full_name (svc, md) = s)).
Proof.
  unfold MethodResolver_Resolve.
  destruct (cache r !! s) as [md |] eqn:Hhit.
  { right. exists md. split; [| left; reflexivity].
    rewrite (insert_id _ _ _ Hhit). destruct r; reflexivity. }
  destruct (ParseFullMethodName s) as [[svc m] |]; [| left; eauto].
  destruct (os_ReadFile _); [| left; eauto].
  destruct (proto_Unmarshal _) as [fds |]; [| left; eauto].
  destruct (CreateFileDescriptorsFromSet fds) as [files |]; [| left; eauto].
  destruct (find _ (all_methods files)) as [[svc' m'] |] eqn:Hf; [| left; eauto].
  right. exists m'. split; [reflexivity |]. right. exists svc', files.
  apply find_some in Hf. destruct Hf as [Hin E]. apply String.eqb_eq in E. auto.
Qed.

(** X3.  A resolution that fails leaves the static resolver as it was; one
    that succeeds leaves the directory alone and the cache with the method
    under the requested name, exactly as requested, and with every other
    entry as before. *)
Theorem MethodResolver_Resolve_effect (r : MethodResolver) (s : string) :
  match fst (StaticResolve r s) with
  | Err _ => snd (StaticResolve r s) = r
  | Ok md =>
      snd (StaticResolve r s)
      = {| descriptorDir := descriptorDir r; cache := <[s := md]> (cache r) |}
  end.
Proof.
  destruct (StaticResolve_cases r s) as [[e E] | (md & E & _)]; rewrite E; reflexivity.
Qed.


End StaticCache.



(** X4.  Memoization: once a name has resolved, resolving it again
    returns the same method out of the cache, whatever the file system and
    the decoder have become, and changes nothing. *)
Theorem MethodResolver_Resolve_memoized
    {FDS1 FDS2 : Type}
    (Unmarshal1 : list ascii -> result string FDS1)
    (Create1 : FDS1 -> result string (list desc.FileDescriptor))
    (Join1 : string -> string -> string)
    (ReadFile1 : string -> result string (list ascii))
    (Unmarshal2 : list ascii -> result string FDS2)
    (Create2 : FDS2 -> result string (list desc.FileDescriptor))
    (Join2 : string -> string -> string)
    (ReadFile2 : string -> result string (list ascii))
    (r : core.MethodResolver) (s : string) (md : desc.MethodDescriptor) :
  fst (core.MethodResolver_Resolve Unmarshal1 Create1 Join1 ReadFile1 r s) = Ok md ->
  core.MethodResolver_Resolve Unmarshal2 Create2 Join2 ReadFile2
    (snd (core.MethodResolver_Resolve Unmarshal1 Create1 Join1 ReadFile1 r s)) s
  = (Ok md, snd (core.MethodResolver_Resolve Unmarshal1 Create1 Join1 ReadFile1 r s)).
Proof.
  intros Hok.
  destruct (StaticResolve_cases Unmarshal1 Create1 Join1 ReadFile1 r s)
    as [[e E] | (md' & E & _)]; rewrite E in Hok |- *; cbn [fst snd] in *;
    [discriminate |].
  injection Hok as ->. unfold core.MethodResolver_Resolve. cbn [core.cache].
  rewrite lookup_insert_eq. reflexivity.
Qed.

Lemma MethodResolver_Resolve_memoized_witness :
  fst (fixtures.resolve_static (core.NewMethodResolver "core") "/echo.EchoService/Echo")
  = Ok fixtures.Echo
  /\ core.MethodResolver_Resolve fixtures.Unmarshal fixtures.Create fixtures.Join
       (fun _ => Err "gone")
       (snd (fixtures.resolve_static (core.NewMethodResolver "core")
               "/echo.EchoService/Echo"))
       "/echo.EchoService/Echo"
     = (Ok fixtures.Echo,
        snd (fixtures.resolve_static (core.NewMethodResolver "core")
               "/echo.EchoService/Echo")).
Proof.
  assert (Hok : fst (fixtures.resolve_static (core.NewMethodResolver "core")
                       "/echo.EchoService/Echo") = Ok fixtures.Echo)
    by (vm_compute; reflexivity).
  split; [exact Hok |].
  exact (MethodResolver_Resolve_memoized fixtures.Unmarshal fixtures.Create
           fixtures.Join fixtures.ReadFile fixtures.Unmarshal fixtures.Create
           fixtures.Join (fun _ => Err "gone") (core.NewMethodResolver "core")
           "/echo.EchoService/Echo" fixtures.Echo Hok).
Defined.

(** ** The two resolvers on one descriptor set *)

Lemma joined_injective (a b a' b' : string) :
  strings.Contains a "/" = false -> strings.Contains a' "/" = false ->
  a +:+ "/" +:+ b = a' +:+ "/" +:+ b' -> a = a' /\ b = b'.
Proof.
  intros Ha Ha' E.
  pose proof (cut_byte_joined a b Ha) as H1.
  pose proof (cut_byte_joined a' b' Ha') as H2.
  rewrite E in H1. rewrite H1 in H2. injection H2 as -> ->. auto.
Qed.

Lemma append_cancel_head (a x y : string) : a +:+ x = a +:+ y -> x = y.
Proof.
  induction a as [| c a IH]; [intros E; exact E |].
  intros E. injection E as E. apply IH. exact E.
Qed.

Lemma find_app_first {A : Type} (f : A -> bool) (l1 l2 : list A) :
  find f (l1 ++ l2) = match find f l1 with Some x => Some x | None => find f l2 end.
Proof.
  induction l1 as [| a l1 IH]; [reflexivity |].
  cbn [app find]. destruct (f a); [reflexivity | exact IH].
Qed.

Lemma all_methods_services (files : list desc.FileDescriptor) :
  core.all_methods files
  = flat_map (fun svc => map (fun m => (svc, m)) (desc.sd_methods svc))
      (props.all_services files).
Proof.
  unfold core.all_methods, props.all_services.
  induction files as [| fd files IH]; [reflexivity |].
  cbn [flat_map]. rewrite flat_map_app, IH. reflexivity.
Qed.

Section TwoResolvers.

Import desc core props caches.

Lemma find_full_name_in_service svc m ms :
  find (fun sm => String.eqb (full_name sm)
                    ("/" +:+ GetFullyQualifiedName svc +:+ "/" +:+ m))
    (map (fun m' => (svc, m')) ms)
  = option_map (fun m' => (svc, m')) (find (fun m' => String.eqb (md_name m') m) ms).
Proof.
  induction ms as [| m' ms IH]; [reflexivity |].
  cbn [map find]. unfold full_name at 1. cbn [fst snd].
  destruct (String.eqb_spec (md_name m') m) as [-> | Hne].
  - rewrite String.eqb_refl. reflexivity.
  - destruct (String.eqb_spec
                ("/" +:+ GetFullyQualifiedName svc +:+ "/" +:+ md_name m')
                ("/" +:+ GetFullyQualifiedName svc +:+ "/" +:+ m)) as [E | _];
      [| exact IH].
    exfalso. apply Hne. injection E as E.
    apply (append_cancel_head (GetFullyQualifiedName svc)) in E.
    apply (append_cancel_head "/") in E. exact E.
Qed.

Lemma find_full_name_other_service svc w m ms :
  strings.Contains (GetFullyQualifiedName svc) "/" = false ->
  strings.Contains (GetFullyQualifiedName w) "/" = false ->
  GetFullyQualifiedName w <> GetFullyQualifiedName svc ->
  find (fun sm => String.eqb (full_name sm)
                    ("/" +:+ GetFullyQualifiedName svc +:+ "/" +:+ m))
    (map (fun m' => (w, m')) ms) = None.
Proof.
  intros Hs Hw Hne. induction ms as [| m' ms IH]; [reflexivity |].
  cbn [map find]. unfold full_name at 1. cbn [fst snd].
  destruct (String.eqb_spec
              ("/" +:+ GetFullyQualifiedName w +:+ "/" +:+ md_name m')
              ("/" +:+ GetFullyQualifiedName svc +:+ "/" +:+ m)) as [E | _];
    [| exact IH].
  exfalso. apply Hne. injection E as E.
  destruct (joined_injective _ _ _ _ Hw Hs E) as [E' _]. exact E'.
Qed.

(** The search of the static resolver finds the method that
    [FindMethodByName] finds in the service of that name. *)
Lemma find_full_name_services services svc m md :
  (forall w, In w services -> strings.Contains (GetFullyQualifiedName w) "/" = false) ->
  List.NoDup (map GetFullyQualifiedName services) ->
  In svc services ->
  FindMethodByName svc m = Some md ->
  find (fun sm => String.eqb (full_name sm)
                    ("/" +:+ GetFullyQualifiedName svc +:+ "/" +:+ m))
    (flat_map (fun w => map (fun m' => (w, m')) (sd_methods w)) services)
  = Some (svc, md).
Proof.
  intros Hns Hnd Hin Hfind. induction services as [| w services IH]; [destruct Hin |].
  cbn [flat_map]. rewrite find_app_first.
  cbn [map] in Hnd. inversion Hnd as [| ? ? Hnotin Hnd']; subst.
  destruct Hin as [-> | Hin].
  - rewrite find_full_name_in_service. unfold FindMethodByName in Hfind.
    rewrite Hfind. reflexivity.
  - rewrite find_full_name_other_service.
    + apply IH; auto. intros w' Hw'. apply Hns. right. exact Hw'.
    + apply Hns. right. exact Hin.
    + apply Hns. left. reflexivity.
    + intros E. apply Hnotin. rewrite E. apply in_map. exact Hin.
Qed.

(** In a valid descriptor set, the fully-qualified name of a service
    selects the service. *)
Lemma select_service_fqn files svc :
  valid_descriptor_set files -> In svc (all_services files) ->
  select_service (pool_of_files files) (GetFullyQualifiedName svc) = Ok svc.
Proof.
  intros [Hvalid Hnd] Hsvc. unfold select_service.
  rewrite pool_of_files_services.
  destruct (servicesByFQN_complete _ _ Hsvc) as [w Hw]. rewrite Hw.
  destruct (servicesByFQN_sound _ _ _ Hw) as [Hin [E | E]].
  - f_equal. apply (NoDup_map_injective _ _ w svc Hnd Hin Hsvc). symmetry. exact E.
  - exfalso.
    destruct (valid_service_facts svc
                (proj1 (List.Forall_forall _ _) Hvalid svc Hsvc)) as (_ & Hs & _).
    rewrite E in Hs. discriminate Hs.
Qed.

Context {FileDescriptorSet : Type}.
Variable proto_Unmarshal : list ascii -> result string FileDescriptorSet.
Variable CreateFileDescriptorsFromSet :
  FileDescriptorSet -> result string (list FileDescriptor).
Variable filepath_Join : string -> string -> string.
Variable os_ReadFile : string -> result string (list ascii).

(** X6.  The two resolvers agree.  When the descriptor file of a service
    holds a valid descriptor set, the static resolver, asked for
    "/" service "/" method by the fully-qualified name of the service,
    reads that file and returns the very method that the pool built from
    the same bytes resolves the service and the method to; the method is
    then cached under the requested name. *)
Theorem Resolve_static_inline_agree (r : MethodResolver) (data : list ascii)
    (fds : FileDescriptorSet) (files : list FileDescriptor)
    (svc : ServiceDescriptor) (md : MethodDescriptor) :
  os_ReadFile (filepath_Join (descriptorDir r) (GetFullyQualifiedName svc +:+ ".pb"))
  = Ok data ->
  proto_Unmarshal data = Ok fds ->
  CreateFileDescriptorsFromSet fds = Ok files ->
  valid_descriptor_set files ->
  In svc (all_services files) ->
  In md (sd_methods svc) ->
  cache r !! ("/" +:+ GetFullyQualifiedName svc +:+ "/" +:+ md_name md) = None ->
  exists pool md',
    newInlineDescriptorPool proto_Unmarshal CreateFileDescriptorsFromSet data = Ok pool
    /\ InlineDescriptorPool_Resolve pool (GetFullyQualifiedName svc) (md_name md)
       = Ok {| Method := md'; ServiceFQN := GetFullyQualifiedName svc |}
    /\ MethodResolver_Resolve proto_Unmarshal CreateFileDescriptorsFromSet
         filepath_Join os_ReadFile r
         ("/" +:+ GetFullyQualifiedName svc +:+ "/" +:+ md_name md)
       = (Ok md',
          {| descriptorDir := descriptorDir r;
             cache := <["/" +:+ GetFullyQualifiedName svc +:+ "/" +:+ md_name md := md']>
                        (cache r) |}).
Proof.
  intros Hread HU HC Hvalid Hsvc Hmd Hmiss.
  pose proof Hvalid as [Hall Hnd].
  assert (Hv : forall w, In w (all_services files) -> valid_service w = true)
    by apply (proj1 (List.Forall_forall _ _) Hall).
  assert (Hns : forall w, In w (all_services files) ->
                          strings.Contains (GetFullyQualifiedName w) "/" = false).
  { intros w Hw. destruct (valid_service_facts w (Hv w Hw)) as (_ & _ & Hc & _).
    apply Contains_name. exact Hc. }
  destruct (valid_service_facts svc (Hv svc Hsvc)) as (_ & Hfs & Hfc & Hms).
  destruct (FindMethodByName_present svc md Hmd) as [md' Hfind].
  exists (pool_of_files files), md'. split; [| split].
  - unfold newInlineDescriptorPool. rewrite HU, HC. reflexivity.
  - destruct (normalize_names _ _ Hfs Hfc (Hms md Hmd)) as (Hn & Hs & Hm).
    rewrite (Resolve_normalized _ _ _ _ _ Hn Hs Hm).
    rewrite (select_service_fqn files svc Hvalid Hsvc).
    unfold method_of. rewrite Hfind. reflexivity.
  - unfold MethodResolver_Resolve. rewrite Hmiss.
    rewrite (ParseFullMethodName_slash_joined _ _ (Hns svc Hsvc)).
    rewrite Hread, HU, HC, all_methods_services.
    rewrite (find_full_name_services _ svc (md_name md) md' Hns Hnd Hsvc Hfind).
    reflexivity.
Qed.

End TwoResolvers.

Lemma Resolve_static_inline_agree_witness :
  fixtures.ReadFile (fixtures.Join "core" (desc.GetFullyQualifiedName fixtures.EchoService
                                            +:+ ".pb"))
  = Ok (fixtures.bytes_of "echo-v1")
  /\ props.valid_descriptor_set fixtures.set_v1
  /\ exists pool md',
       core.newInlineDescriptorPool fixtures.Unmarshal fixtures.Create
         (fixtures.bytes_of "echo-v1") = Ok pool
       /\ core.InlineDescriptorPool_Resolve pool "echo.EchoService" "Watch"
          = Ok {| core.Method := md'; core.ServiceFQN := "echo.EchoService" |}
       /\ fst (fixtures.resolve_static (core.NewMethodResolver "core")
                 "/echo.EchoService/Watch") = Ok md'.
Proof.
  split; [vm_compute; reflexivity |]. split; [exact valid_set_v1 |].
  destruct (Resolve_static_inline_agree fixtures.Unmarshal fixtures.Create
              fixtures.Join fixtures.ReadFile (core.NewMethodResolver "core")
              (fixtures.bytes_of "echo-v1") fixtures.set_v1 fixtures.set_v1
              fixtures.EchoService fixtures.Watch)
    as (pool & md' & Hp & Hi & Hs);
    [vm_compute; reflexivity | vm_compute; reflexivity | reflexivity
    | exact valid_set_v1 | left; reflexivity | right; left; reflexivity
    | vm_compute; reflexivity |].
  exists pool, md'. split; [exact Hp |]. split; [exact Hi |].
  unfold fixtures.resolve_static.
  change "/echo.EchoService/Watch"
    with ("/" +:+ desc.GetFullyQualifiedName fixtures.EchoService +:+ "/"
          +:+ desc.md_name fixtures.Watch).
  rewrite Hs. reflexivity.
Defined.

(** ** Names that the pool normalizes *)

Lemma list_ascii_of_string_append (a b : string) :
  list_ascii_of_string (a +:+ b) = list_ascii_of_string a ++ list_ascii_of_string b.
Proof.
  induction a as [| c a IH]; [reflexivity |].
  change (String c a +:+ b) with (String c (a +:+ b)).
  cbn [list_ascii_of_string app]. rewrite IH. reflexivity.
Qed.

Lemma plain_char_facts (c : ascii) :
  caches.plain_char c = true -> N_of_ascii c < 128 /\ strings.asciiSpace c = false.
Proof.
  unfold caches.plain_char. intros H. apply andb_true_iff in H. destruct H as [Hlt Hsp].
  apply N.ltb_lt in Hlt. apply negb_true_iff in Hsp. auto.
Qed.

Lemma name_char_plain_char (c : ascii) :
  props.name_char c = true -> caches.plain_char c = true.
Proof.
  intros H. destruct (name_char_plain c H) as (Hlt & Hsp & _).
  unfold caches.plain_char. apply N.ltb_lt in Hlt. rewrite Hlt, Hsp. reflexivity.
Qed.

Lemma trim_left_plain_char (c : ascii) (l : list ascii) :
  caches.plain_char c = true -> strings.trim_left (c :: l) = c :: l.
Proof.
  intros H. destruct (plain_char_facts c H) as (Hlt & Hsp).
  cbn [strings.trim_left]. rewrite Hsp.
  destruct l as [| b1 [| b2 l]]; [reflexivity | |].
  - rewrite space2_first by exact Hlt. reflexivity.
  - rewrite space2_first, space3_first by exact Hlt. reflexivity.
Qed.

Lemma trim_right_plain_char (l : list ascii) (d : ascii) :
  caches.plain_char d = true -> strings.trim_right (l ++ [d]) = l ++ [d].
Proof.
  intros H. destruct (plain_char_facts d H) as (Hlt & Hsp).
  unfold strings.trim_right. rewrite rev_app_distr. cbn [rev app].
  assert (E : strings.trim_left_rev (d :: rev l) = d :: rev l).
  { cbn [strings.trim_left_rev]. rewrite Hsp.
    destruct (rev l) as [| b1 [| b2 t]]; [reflexivity | |].
    - rewrite space2_last by exact Hlt. reflexivity.
    - rewrite space2_last, space3_last by exact Hlt. reflexivity. }
  rewrite E. cbn [rev]. rewrite rev_involutive. reflexivity.
Qed.

(** [TrimSpace] looks at the ends only: a text that begins with a plain
    byte and ends in a name is left as it is. *)
Lemma TrimSpace_ends (c : ascii) (mid s : string) :
  caches.plain_char c = true -> props.name_chars s = true -> s <> "" ->
  strings.TrimSpace (String c (mid +:+ s)) = String c (mid +:+ s).
Proof.
  intros Hc Hs Hne. unfold strings.TrimSpace.
  rewrite <- (string_of_list_ascii_of_string (String c (mid +:+ s))) at 2. f_equal.
  cbn [list_ascii_of_string]. rewrite list_ascii_of_string_append.
  rewrite trim_left_plain_char by exact Hc.
  apply name_chars_Forall in Hs.
  destruct (rev (list_ascii_of_string s)) as [| d t] eqn:Er.
  - exfalso. apply Hne. apply (f_equal (@rev ascii)) in Er.
    rewrite rev_involutive in Er. cbn in Er.
    rewrite <- (string_of_list_ascii_of_string s), Er. reflexivity.
  - assert (Hd : caches.plain_char d = true).
    { apply name_char_plain_char. apply (proj1 (List.Forall_forall _ _) Hs).
      apply in_rev. rewrite Er. left. reflexivity. }
    apply (f_equal (@rev ascii)) in Er. rewrite rev_involutive in Er. cbn [rev] in Er.
    rewrite Er.
    change (c :: list_ascii_of_string mid ++ rev t ++ [d])
      with ((c :: list_ascii_of_string mid) ++ rev t ++ [d]).
    rewrite app_assoc. apply trim_right_plain_char. exact Hd.
Qed.

Lemma append_assoc_string (a b c : string) : (a +:+ b) +:+ c = a +:+ b +:+ c.
Proof.
  induction a as [| x a IH]; [reflexivity |].
  change ((String x a +:+ b) +:+ c) with (String x ((a +:+ b) +:+ c)).
  rewrite IH. reflexivity.
Qed.

Lemma TrimPrefix_char (p c : ascii) (s : string) :
  strings.TrimPrefix (String c s) (String p EmptyString)
  = if Ascii.eqb p c then s else String c s.
Proof.
  unfold strings.TrimPrefix. cbn [strings.HasPrefix]. unfold strings.byte_eqb.
  destruct s; cbn [strings.HasPrefix]; rewrite andb_true_r;
    destruct (Ascii.eqb p c); reflexivity.
Qed.

Section PoolNames.

Import desc core props caches.

Lemma normalize_full_method_name (svc m : string) :
  starts_ident svc = true -> name_chars svc = true -> is_ident m = true ->
  normalize "" ("/" +:+ svc +:+ "/" +:+ m) = (svc, m).
Proof.
  intros Hs Hc Hm. destruct (is_ident_facts _ Hm) as (Hms & _ & Hmc).
  assert (Hmne : m <> "") by (destruct m; [discriminate Hms | discriminate]).
  unfold normalize.
  change (strings.TrimSpace "") with "".
  change ("/" +:+ svc +:+ "/" +:+ m) with (String "/"%char (svc +:+ "/" +:+ m)).
  rewrite <- (append_assoc_string svc "/" m).
  rewrite (TrimSpace_ends "/"%char (svc +:+ "/") m eq_refl Hmc Hmne).
  rewrite (append_assoc_string svc "/" m).
  change (String "/"%char (svc +:+ "/" +:+ m)) with ("/" +:+ svc +:+ "/" +:+ m).
  assert (Hcont : strings.Contains ("/" +:+ svc +:+ "/" +:+ m) "/" = true).
  { change ("/" +:+ svc +:+ "/" +:+ m) with (String "/"%char (svc +:+ "/" +:+ m)).
    cbn [strings.Contains]. rewrite HasPrefix_slash. reflexivity. }
  rewrite Hcont, (ParseFullMethodName_slash_joined svc m (Contains_name svc Hc)).
  cbn [String.eqb].
  change "/" with (String "/"%char EmptyString).
  change "." with (String "."%char EmptyString).
  rewrite (TrimPrefix_starts_ident svc "/"%char Hs eq_refl).
  rewrite (TrimPrefix_starts_ident svc "."%char Hs eq_refl).
  rewrite (TrimPrefix_starts_ident m "/"%char Hms eq_refl).
  reflexivity.
Qed.

(** X8.  A full method name in the place of the method, with no service
    given, is taken apart: the pool resolves "/" service "/" method as it
    resolves the service and the method given separately. *)
Theorem Resolve_method_as_full_name (p : InlineDescriptorPool) (svc m : string) :
  starts_ident svc = true -> name_chars svc = true -> is_ident m = true ->
  InlineDescriptorPool_Resolve p "" ("/" +:+ svc +:+ "/" +:+ m)
  = InlineDescriptorPool_Resolve p svc m.
Proof.
  intros Hs Hc Hm. unfold InlineDescriptorPool_Resolve.
  rewrite (normalize_full_method_name svc m Hs Hc Hm).
  destruct (normalize_names svc m Hs Hc Hm) as (Hn & _ & _). rewrite Hn. reflexivity.
Qed.

Lemma normalize_service_prefix (pre s m : string) :
  starts_ident s = true -> name_chars s = true ->
  strings.TrimSpace (pre +:+ s) = pre +:+ s ->
  strings.TrimPrefix (strings.TrimPrefix (pre +:+ s) "/") "." = s ->
  pre <> "" ->
  normalize (pre +:+ s) m = normalize s m.
Proof.
  intros Hs Hc Ht Hp Hpre. unfold normalize.
  rewrite Ht, (TrimSpace_name s Hc).
  assert (E1 : String.eqb (pre +:+ s) "" = false).
  { destruct pre; [congruence | reflexivity]. }
  assert (E2 : String.eqb s "" = false).
  { destruct s; [discriminate Hs | reflexivity]. }
  assert (E3 : strings.TrimPrefix (strings.TrimPrefix s "/") "." = s).
  { change "/" with (String "/"%char EmptyString).
    change "." with (String "."%char EmptyString).
    rewrite (TrimPrefix_starts_ident s "/"%char Hs eq_refl).
    apply (TrimPrefix_starts_ident s "."%char Hs eq_refl). }
  destruct (strings.Contains (strings.TrimSpace m) "/").
  - destruct (ParseFullMethodName (strings.TrimSpace m)) as [[a b] |].
    + rewrite E1, E2, Hp, E3. reflexivity.
    + rewrite Hp, E3. reflexivity.
  - rewrite Hp, E3. reflexivity.
Qed.

(** X9.  A leading dot, a leading separator, or both before the name of
    the service are dropped: the pool resolves the name as it resolves it
    without them, whatever the method is. *)
Theorem Resolve_service_prefix (p : InlineDescriptorPool) (s m : string) :
  starts_ident s = true -> name_chars s = true ->
  InlineDescriptorPool_Resolve p ("." +:+ s) m = InlineDescriptorPool_Resolve p s m
  /\ InlineDescriptorPool_Resolve p ("/" +:+ s) m = InlineDescriptorPool_Resolve p s m
  /\ InlineDescriptorPool_Resolve p ("/." +:+ s) m = InlineDescriptorPool_Resolve p s m.
Proof.
  intros Hs Hc.
  assert (Hne : s <> "") by (destruct s; [discriminate Hs | discriminate]).
  assert (Hstrip1 : strings.TrimPrefix s "." = s).
  { change "." with (String "."%char EmptyString).
    apply (TrimPrefix_starts_ident s "."%char Hs eq_refl). }
  unfold InlineDescriptorPool_Resolve.
  repeat split.
  - rewrite (normalize_service_prefix "." s m Hs Hc); [reflexivity | | | discriminate].
    + apply TrimSpace_name. apply (name_chars_append "." s eq_refl Hc).
    + change ("." +:+ s) with (String "."%char s).
      change "/" with (String "/"%char EmptyString).
      change "." with (String "."%char EmptyString).
      rewrite TrimPrefix_char. change (Ascii.eqb "/" ".") with false. cbv iota.
      rewrite TrimPrefix_char. reflexivity.
  - rewrite (normalize_service_prefix "/" s m Hs Hc); [reflexivity | | | discriminate].
    + apply (TrimSpace_ends "/"%char "" s eq_refl Hc Hne).
    + change ("/" +:+ s) with (String "/"%char s).
      rewrite TrimPrefix_char. exact Hstrip1.
  - rewrite (normalize_service_prefix "/." s m Hs Hc); [reflexivity | | | discriminate].
    + apply (TrimSpace_ends "/"%char "." s eq_refl Hc Hne).
    + change ("/." +:+ s) with (String "/"%char (String "."%char s)).
      change "/" with (String "/"%char EmptyString).
      change "." with (String "."%char EmptyString).
      rewrite TrimPrefix_char. change (Ascii.eqb "/" "/") with true. cbv iota.
      rewrite TrimPrefix_char. reflexivity.
Qed.

(** X7.  Soundness of the pool: a Resolved Method that [Resolve] returns
    is a method of a service of the descriptor set, has the normalized
    method name, carries the fully-qualified name of that service, and the
    normalized service name is that fully-qualified name, with or without
    a dot before either, or the short name of the service, which no other
    service has. *)
Theorem InlineDescriptorPool_Resolve_sound (files : list FileDescriptor)
    (service method : string) (rm : ResolvedMethod) :
  InlineDescriptorPool_Resolve (pool_of_files files) service method = Ok rm ->
  exists svc,
    In svc (all_services files)
    /\ ServiceFQN rm = GetFullyQualifiedName svc
    /\ In (Method rm) (sd_methods svc)
    /\ md_name (Method rm) = snd (normalize service method)
    /\ (fst (normalize service method) = GetFullyQualifiedName svc
        \/ fst (normalize service method) = "." +:+ GetFullyQualifiedName svc
        \/ "." +:+ fst (normalize service method) = GetFullyQualifiedName svc
        \/ with_short_name (fst (normalize service method)) (all_services files) = [svc]).
Proof.
  unfold InlineDescriptorPool_Resolve.
  destruct (normalize service method) as [s m]. cbn [fst snd].
  destruct (String.eqb s "" || String.eqb m ""); [discriminate |].
  destruct (select_service (pool_of_files files) s) as [svc | e] eqn:Hsel; [| discriminate].
  destruct (FindMethodByName svc m) as [md |] eqn:Hfind; [| discriminate].
  intros [= <-]. cbn [Method ServiceFQN]. exists svc.
  destruct (FindMethodByName_some _ _ _ Hfind) as [Hin Hname].
  assert (Hsvc : In svc (all_services files)
                 /\ (s = GetFullyQualifiedName svc
                     \/ s = "." +:+ GetFullyQualifiedName svc
                     \/ "." +:+ s = GetFullyQualifiedName svc
                     \/ with_short_name s (all_services files) = [svc])).
  { unfold select_service in Hsel. rewrite pool_of_files_services in Hsel.
    destruct (servicesByFQN (pool_from (all_services files)) !! s) as [v |] eqn:H0.
    { injection Hsel as <-. destruct (servicesByFQN_sound _ _ _ H0) as [Hi [E | E]]; auto. }
    destruct (servicesByFQN (pool_from (all_services files)) !! ("." +:+ s))
      as [v |] eqn:H1.
    { injection Hsel as <-. destruct (servicesByFQN_sound _ _ _ H1) as [Hi [E | E]].
      - auto.
      - split; [exact Hi |]. left. apply (append_cancel_head "." _ _ E). }
    rewrite servicesByName_spec in Hsel.
    destruct (with_short_name s (all_services files)) as [| v [| w l]] eqn:Hc;
      [discriminate | | discriminate].
    injection Hsel as <-. split; [| auto].
    assert (Hv : In v (with_short_name s (all_services files)))
      by (rewrite Hc; left; reflexivity).
    unfold with_short_name in Hv. apply List.filter_In in Hv. tauto. }
  tauto.
Qed.

End PoolNames.

Lemma Resolve_method_as_full_name_witness :
  props.starts_ident "echo.EchoService" = true
  /\ props.name_chars "echo.EchoService" = true
  /\ props.is_ident "Echo" = true
  /\ core.InlineDescriptorPool_Resolve fixtures.pool_v1 "" "/echo.EchoService/Echo"
     = core.InlineDescriptorPool_Resolve fixtures.pool_v1 "echo.EchoService" "Echo".
Proof.
  split; [reflexivity |]. split; [reflexivity |]. split; [reflexivity |].
  exact (Resolve_method_as_full_name fixtures.pool_v1 "echo.EchoService" "Echo"
           eq_refl eq_refl eq_refl).
Defined.

Lemma Resolve_service_prefix_witness :
  props.starts_ident "echo.EchoService" = true
  /\ props.name_chars "echo.EchoService" = true
  /\ core.InlineDescriptorPool_Resolve fixtures.pool_v1 ".echo.EchoService" "Echo"
     = core.InlineDescriptorPool_Resolve fixtures.pool_v1 "echo.EchoService" "Echo".
Proof.
  split; [reflexivity |]. split; [reflexivity |].
  exact (proj1 (Resolve_service_prefix fixtures.pool_v1 "echo.EchoService" "Echo"
                  eq_refl eq_refl)).
Defined.

Lemma InlineDescriptorPool_Resolve_sound_witness :
  core.InlineDescriptorPool_Resolve (core.pool_of_files fixtures.set_v1)
    "EchoService" "Watch"
  = Ok {| core.Method := fixtures.Watch; core.ServiceFQN := "echo.EchoService" |}
  /\ exists svc,
       In svc (props.all_services fixtures.set_v1)
       /\ "echo.EchoService" = desc.GetFullyQualifiedName svc
       /\ In fixtures.Watch (desc.sd_methods svc).
Proof.
  assert (Hok : core.InlineDescriptorPool_Resolve (core.pool_of_files fixtures.set_v1)
                  "EchoService" "Watch"
                = Ok {| core.Method := fixtures.Watch;
                        core.ServiceFQN := "echo.EchoService" |})
    by (vm_compute; reflexivity).
  split; [exact Hok |].
  destruct (InlineDescriptorPool_Resolve_sound fixtures.set_v1 "EchoService" "Watch"
              _ Hok) as (svc & H1 & H2 & H3 & _).
  exists svc. auto.
Defined.

(** ** The cache of the inline resolver *)

Section InlineCache.

Import desc core props caches.

Context {FileDescriptorSet : Type}.
Variable proto_Unmarshal : list ascii -> result string FileDescriptorSet.
Variable CreateFileDescriptorsFromSet :
  FileDescriptorSet -> result string (list FileDescriptor).

Abbreviation InlineResolve :=
  (InlineMethodResolver_Resolve proto_Unmarshal CreateFileDescriptorsFromSet).
Abbreviation parsePool :=
  (newInlineDescriptorPool proto_Unmarshal CreateFileDescriptorsFromSet).
Abbreviation afterCalls := (after_calls proto_Unmarshal CreateFileDescriptorsFromSet).
Abbreviation firstParsed := (first_parsed proto_Unmarshal CreateFileDescriptorsFromSet).

Lemma length_ltb_0 {A : Type} (l : list A) : (0 <? length l)%nat = negb (length l =? 0)%nat.
Proof. destruct l; reflexivity. Qed.

(** What one call does to a key that is not cached. *)
Lemma Resolve_absent_key r bytes id service method k :
  pools r !! k = None ->
  pools (snd (InlineResolve r bytes id service method)) !! k
  = if (0 <? length bytes)%nat && String.eqb (cache_key bytes id) k
    then match parsePool bytes with Ok pool => Some pool | Err _ => None end
    else None.
Proof.
  intros Hk. destruct (String.eqb_spec (cache_key bytes id) k) as [E | E].
  - subst k. destruct bytes as [| b bytes].
    + cbn [length Nat.ltb Nat.leb andb]. unfold InlineMethodResolver_Resolve.
      destruct (String.eqb (cache_key [] id) ""); [exact Hk |].
      rewrite Hk. exact Hk.
    + assert (Hb : b :: bytes <> []) by discriminate.
      change ((0 <? length (b :: bytes))%nat) with true. cbn [andb].
      destruct (parsePool (b :: bytes)) as [pool | e] eqn:Hp.
      * rewrite (Resolve_fresh_parsed _ _ r _ id service method pool Hb Hk Hp).
        cbn [snd pools]. apply lookup_insert_eq.
      * rewrite (Resolve_fresh_parse_error _ _ r _ id service method e Hb Hk Hp).
        exact Hk.
  - rewrite andb_false_r.
    rewrite Resolve_other_keys by (intros E'; apply E; symmetry; exact E').
    exact Hk.
Qed.

(** X10.  The cache of the inline resolver after a sequence of calls: an
    entry it had before is still there, unchanged; any other key holds the
    pool parsed from the first call that supplied bytes under it that
    parsed, and is absent when there was none.  Entries are never replaced
    and never removed. *)
Theorem pools_after_calls (r : InlineMethodResolver) (calls : list call) (k : string) :
  pools (afterCalls r calls) !! k
  = match pools r !! k with
    | Some pool => Some pool
    | None => firstParsed k calls
    end.
Proof.
  revert r. induction calls as [| c calls IH]; intros r.
  - cbn. destruct (pools r !! k); reflexivity.
  - cbn [after_calls fold_left first_parsed].
    change (fold_left _ calls ?x) with (afterCalls x calls).
    rewrite IH. unfold do_call.
    destruct (pools r !! k) as [pool |] eqn:Hk.
    + rewrite (Resolve_keeps _ _ r _ _ _ _ k pool Hk). reflexivity.
    + rewrite (Resolve_absent_key r _ _ _ _ k Hk).
      destruct ((0 <? length (c_bytes c))%nat
                && String.eqb (cache_key (c_bytes c) (c_id c)) k); [| reflexivity].
      destruct (parsePool (c_bytes c)); reflexivity.
Qed.

(** X11.  A call repeated at once returns what it returned the first
    time and leaves the cache as the first call left it. *)
Theorem InlineMethodResolver_Resolve_idempotent (r : InlineMethodResolver)
    (bytes : list ascii) (id service method : string) :
  InlineResolve (snd (InlineResolve r bytes id service method)) bytes id service method
  = InlineResolve r bytes id service method.
Proof.
  destruct (String.eqb_spec (cache_key bytes id) "") as [Hk | Hk].
  { unfold InlineMethodResolver_Resolve. rewrite Hk. reflexivity. }
  destruct (pools r !! cache_key bytes id) as [pool |] eqn:Hp.
  { rewrite (Resolve_cached _ _ r bytes id service method pool Hk Hp). cbn [snd].
    apply (Resolve_cached _ _ r bytes id service method pool Hk Hp). }
  destruct bytes as [| b bytes].
  { assert (E : InlineResolve r [] id service method
                 = (Err (ErrDescriptorNotFound (cache_key [] id)), r)).
    { unfold InlineMethodResolver_Resolve. apply String.eqb_neq in Hk.
      rewrite Hk, Hp. reflexivity. }
    rewrite E. cbn [snd]. exact E. }
  assert (Hb : b :: bytes <> []) by discriminate.
  destruct (parsePool (b :: bytes)) as [pool | e] eqn:Hparse.
  - rewrite (Resolve_fresh_parsed _ _ r _ id service method pool Hb Hp Hparse).
    cbn [snd]. apply Resolve_cached; [exact Hk |]. cbn [pools].
    apply lookup_insert_eq.
  - rewrite (Resolve_fresh_parse_error _ _ r _ id service method e Hb Hp Hparse).
    cbn [snd]. apply (Resolve_fresh_parse_error _ _ r _ id service method e Hb Hp Hparse).
Qed.

(** X12.  The key that a successful resolution returns, be it the
    identifier supplied or the digest of the bytes, serves as identifier
    afterwards: with that key and no bytes, the same service and method
    resolve to the same method under the same key, whatever calls were
    made in between. *)
Theorem Resolve_returned_key_reusable (r : InlineMethodResolver) (bytes : list ascii)
    (id service method : string) (rm : ResolvedMethod) (key : string)
    (between : list call) :
  fst (InlineResolve r bytes id service method) = Ok (rm, key) ->
  InlineResolve (afterCalls (snd (InlineResolve r bytes id service method)) between)
    [] key service method
  = (Ok (rm, key), afterCalls (snd (InlineResolve r bytes id service method)) between).
Proof.
  intros Hok.
  destruct (Resolve_ok_cached _ _ _ _ _ _ _ _ _ Hok) as (_ & Hne & pool & Hp & Hr).
  assert (Hkey : cache_key [] key = key) by (apply cache_key_id; exact Hne).
  rewrite (Resolve_cached _ _ _ [] key service method pool).
  - rewrite Hkey. unfold resolved_in. rewrite Hr. reflexivity.
  - rewrite Hkey. exact Hne.
  - rewrite Hkey. apply after_calls_keeps. exact Hp.
Qed.

End InlineCache.

Lemma Resolve_returned_key_reusable_witness :
  fst (core.InlineMethodResolver_Resolve fixtures.Unmarshal fixtures.Create
         core.NewInlineMethodResolver (fixtures.bytes_of "echo-v1") ""
         "echo.EchoService" "Echo")
  = Ok ({| core.Method := fixtures.Echo; core.ServiceFQN := "echo.EchoService" |},
        "2d2ce1fad1e49fd8de5ff1c74d49b02556f280e33864c7ea1413d72dd6be7b08")
  /\ core.InlineMethodResolver_Resolve fixtures.Unmarshal fixtures.Create
       (props.after_calls fixtures.Unmarshal fixtures.Create
          (snd (core.InlineMethodResolver_Resolve fixtures.Unmarshal fixtures.Create
                  core.NewInlineMethodResolver (fixtures.bytes_of "echo-v1") ""
                  "echo.EchoService" "Echo")) [])
       [] "2d2ce1fad1e49fd8de5ff1c74d49b02556f280e33864c7ea1413d72dd6be7b08"
       "echo.EchoService" "Echo"
     = (Ok ({| core.Method := fixtures.Echo; core.ServiceFQN := "echo.EchoService" |},
            "2d2ce1fad1e49fd8de5ff1c74d49b02556f280e33864c7ea1413d72dd6be7b08"),
        props.after_calls fixtures.Unmarshal fixtures.Create
          (snd (core.InlineMethodResolver_Resolve fixtures.Unmarshal fixtures.Create
                  core.NewInlineMethodResolver (fixtures.bytes_of "echo-v1") ""
                  "echo.EchoService" "Echo")) []).
Proof.
  assert (Hok : fst (core.InlineMethodResolver_Resolve fixtures.Unmarshal fixtures.Create
                       core.NewInlineMethodResolver (fixtures.bytes_of "echo-v1") ""
                       "echo.EchoService" "Echo")
                = Ok ({| core.Method := fixtures.Echo;
                         core.ServiceFQN := "echo.EchoService" |},
                      "2d2ce1fad1e49fd8de5ff1c74d49b02556f280e33864c7ea1413d72dd6be7b08"))
    by (vm_compute; reflexivity).
  split; [exact Hok |].
  exact (Resolve_returned_key_reusable fixtures.Unmarshal fixtures.Create
           core.NewInlineMethodResolver (fixtures.bytes_of "echo-v1") ""
           "echo.EchoService" "Echo"
           {| core.Method := fixtures.Echo; core.ServiceFQN := "echo.EchoService" |}
           "2d2ce1fad1e49fd8de5ff1c74d49b02556f280e33864c7ea1413d72dd6be7b08"
           [] Hok).
Defined.

(** ** What an invocation does *)

Section InvokeEffects.

Import desc core props.

Context {FileDescriptorSet Message ClientConn : Type}.
Variable proto_Unmarshal : list ascii -> result string FileDescriptorSet.
Variable CreateFileDescriptorsFromSet :
  FileDescriptorSet -> result string (list FileDescriptor).
Variable filepath_Join : string -> string -> string.
Variable os_ReadFile : string -> result string (list ascii).
Variable jsonpb_Unmarshal : MessageDescriptor -> list ascii -> result string Message.
Variable jsonpb_Marshal : bool -> Message -> result string (list ascii).
Variable grpc_DialContext : option Z -> string -> result string ClientConn.
Variable grpcdynamic_InvokeRpc :
  option Z -> ClientConn -> MethodDescriptor -> Message -> result string Message.

Abbreviation resolveReq :=
  (resolve_request proto_Unmarshal CreateFileDescriptorsFromSet filepath_Join os_ReadFile).
Abbreviation InvokeIt :=
  (Invoke proto_Unmarshal CreateFileDescriptorsFromSet filepath_Join os_ReadFile
     jsonpb_Unmarshal jsonpb_Marshal grpc_DialContext grpcdynamic_InvokeRpc).

(** The invoker that [Invoke] leaves is the one the resolution left. *)
Lemma Invoke_invoker inv ctx req :
  snd (fst (InvokeIt inv ctx req)) = snd (resolveReq inv req).
Proof.
  unfold Invoke.
  destruct (resolveReq inv req) as [[[method name] | e] inv']; [| reflexivity].
  destruct (md_client_streaming (Method method) || md_server_streaming (Method method));
    [reflexivity |].
  destruct (JSONToMessage _ _ _); [| reflexivity].
  destruct (grpc_DialContext _ _); [| reflexivity].
  destruct (grpcdynamic_InvokeRpc _ _ _ _); reflexivity.
Qed.

(** X13.  [Invoke] returns a response only for a unary method, and only
    after all five steps: the body was decoded, the target of the request
    dialed, the call made, the response encoded and the connection
    closed, in this order. *)
Theorem Invoke_ok_unary (inv inv' : Invoker) (ctx : option Z) (req : InvokeRequest)
    (json : list ascii) (tr : list event) :
  InvokeIt inv ctx req = (Ok json, inv', tr) ->
  exists method methodName,
    resolveReq inv req = (Ok (method, methodName), inv')
    /\ md_client_streaming (Method method) = false
    /\ md_server_streaming (Method method) = false
    /\ tr = [EvJSONToMessage; EvDial (Target req); EvInvokeRpc; EvMessageToJSON; EvClose].
Proof.
  unfold Invoke.
  destruct (resolveReq inv req) as [[[method name] | e] inv1]; [| discriminate].
  destruct (md_client_streaming (Method method)) eqn:Hc; [discriminate |].
  destruct (md_server_streaming (Method method)) eqn:Hs; [discriminate |].
  cbn [orb].
  destruct (JSONToMessage _ _ _); [| discriminate].
  destruct (grpc_DialContext _ _); [| discriminate].
  destruct (grpcdynamic_InvokeRpc _ _ _ _); [| discriminate].
  destruct (MessageToJSON _ _); [| discriminate].
  intros [= <- <- <-]. exists method, name. auto.
Qed.

(** X14.  No connection outlives an invocation, and none is closed that
    was not opened: the events of an invocation are nothing, or the
    decoding alone, or the decoding and a dial that failed, or, after a
    dial that succeeded, the call and, last, the closing of the
    connection.  The only target dialed is the target of the request, under
    the deadline of the configured timeout when that is positive. *)
Theorem Invoke_events (inv : Invoker) (ctx : option Z) (req : InvokeRequest) :
  let ctx' := if (0 <? timeout inv)%Z then WithTimeout ctx (timeout inv) else ctx in
  let tr := snd (InvokeIt inv ctx req) in
  tr = []
  \/ tr = [EvJSONToMessage]
  \/ (tr = [EvJSONToMessage; EvDial (Target req)]
      /\ exists e, grpc_DialContext ctx' (Target req) = Err e)
  \/ ((exists conn, grpc_DialContext ctx' (Target req) = Ok conn)
      /\ (tr = [EvJSONToMessage; EvDial (Target req); EvInvokeRpc; EvClose]
          \/ tr = [EvJSONToMessage; EvDial (Target req); EvInvokeRpc;
                   EvMessageToJSON; EvClose])).
Proof.
  cbv zeta. unfold Invoke.
  destruct (resolveReq inv req) as [[[method name] | e] inv1]; [| left; reflexivity].
  destruct (md_client_streaming (Method method) || md_server_streaming (Method method));
    [left; reflexivity |].
  destruct (JSONToMessage _ _ _); [| right; left; reflexivity].
  destruct (grpc_DialContext _ _) as [conn | e] eqn:Hd.
  - right. right. right. split; [eauto |].
    destruct (grpcdynamic_InvokeRpc _ _ _ _); [right | left]; reflexivity.
  - right. right. left. split; [reflexivity | eauto].
Qed.

(** X15.  What [Invoke] leaves alone: the timeout and the descriptor
    directory always; the static resolver when the request carries inline
    descriptor bytes or a descriptor identifier; the inline resolver when
    it carries neither. *)
Theorem Invoke_frame (inv : Invoker) (ctx : option Z) (req : InvokeRequest) :
  let inv' := snd (fst (InvokeIt inv ctx req)) in
  timeout inv' = timeout inv
  /\ descriptorDir (resolver inv') = descriptorDir (resolver inv)
  /\ (InlineDescriptorSet req <> [] \/ DescriptorID req <> "" ->
      resolver inv' = resolver inv)
  /\ (InlineDescriptorSet req = [] -> DescriptorID req = "" ->
      inlineResolver inv' = inlineResolver inv).
Proof.
  cbv zeta. rewrite Invoke_invoker. unfold resolve_request.
  destruct ((0 <? length (InlineDescriptorSet req))%nat
            || negb (String.eqb (DescriptorID req) "")) eqn:Hpath.
  - assert (Hnot : ~ (InlineDescriptorSet req = [] /\ DescriptorID req = "")).
    { intros [E1 E2]. rewrite E1, E2 in Hpath. discriminate Hpath. }
    destruct (String.eqb (MethodName req) ""); [cbn; tauto |].
    destruct (InlineMethodResolver_Resolve _ _ _ _ _ _ _) as [[[rm key] | e] ir];
      cbn; tauto.
  - apply orb_false_iff in Hpath. destruct Hpath as [Hb Hid].
    assert (Hnot : ~ (InlineDescriptorSet req <> [] \/ DescriptorID req <> "")).
    { intros [H | H].
      - destruct (InlineDescriptorSet req); [congruence | discriminate Hb].
      - apply negb_false_iff, String.eqb_eq in Hid. congruence. }
    destruct (String.eqb (FullMethodName req) ""); [cbn; tauto |].
    pose proof (StaticResolve_cases proto_Unmarshal CreateFileDescriptorsFromSet
                  filepath_Join os_ReadFile (resolver inv) (FullMethodName req)) as Hc.
    destruct Hc as [[e E] | (md & E & _)]; rewrite E; cbn; tauto.
Qed.

End InvokeEffects.

Lemma Invoke_ok_unary_witness :
  fixtures.invoke (core.NewInvoker "core" 0) None
    (fixtures.echo_request "localhost:50051" (fixtures.bytes_of "{}"))
  = (Ok (fixtures.bytes_of "{}"),
     {| core.resolver :=
          {| core.descriptorDir := "core";
             core.cache := {["/echo.EchoService/Echo" := fixtures.Echo]} |};
        core.inlineResolver := core.NewInlineMethodResolver;
        core.timeout := 0 |},
     [core.EvJSONToMessage; core.EvDial "localhost:50051"; core.EvInvokeRpc;
      core.EvMessageToJSON; core.EvClose])
  /\ exists method methodName,
       desc.md_client_streaming (core.Method method) = false
       /\ desc.md_server_streaming (core.Method method) = false
       /\ methodName = "/echo.EchoService/Echo".
Proof.
  assert (H : fixtures.invoke (core.NewInvoker "core" 0) None
                (fixtures.echo_request "localhost:50051" (fixtures.bytes_of "{}"))
              = (Ok (fixtures.bytes_of "{}"),
                 {| core.resolver :=
                      {| core.descriptorDir := "core";
                         core.cache := {["/echo.EchoService/Echo" := fixtures.Echo]} |};
                    core.inlineResolver := core.NewInlineMethodResolver;
                    core.timeout := 0 |},
                 [core.EvJSONToMessage; core.EvDial "localhost:50051"; core.EvInvokeRpc;
                  core.EvMessageToJSON; core.EvClose]))
    by (vm_compute; reflexivity).
  split; [exact H |].
  destruct (Invoke_ok_unary fixtures.Unmarshal fixtures.Create fixtures.Join
              fixtures.ReadFile fixtures.Unmarshal_json fixtures.Marshal_json
              fixtures.Dial fixtures.InvokeRpc _ _ _ _ _ _ H)
    as (method & name & Hr & Hc & Hs & _).
  exists method, name. split; [exact Hc |]. split; [exact Hs |].
  vm_compute in Hr. congruence.
Defined.

(** ** Request bodies in the transport encoding *)

Lemma encodeBase64V1_rev (b : list ascii) :
  sdk.encodeBase64V1 b = string_of_list_ascii (rev (base64.Encode b)).
Proof.
  unfold sdk.encodeBase64V1, base64.EncodeToString.
  apply reverse_runes_ascii, Encode_ascii.
Qed.

Lemma string_of_list_ascii_injective (l1 l2 : list ascii) :
  string_of_list_ascii l1 = string_of_list_ascii l2 -> l1 = l2.
Proof.
  intros E. apply (f_equal list_ascii_of_string) in E.
  rewrite !list_ascii_of_string_of_list_ascii in E. exact E.
Qed.

Lemma Encode_injective (b1 b2 : list ascii) :
  base64.Encode b1 = base64.Encode b2 -> b1 = b2.
Proof.
  intros E. pose proof (Decode_Encode b1) as H1. rewrite E, Decode_Encode in H1.
  congruence.
Qed.

(** X16.  The transport encoding loses nothing: different bodies have
    different encodings. *)
Theorem encodeBase64V1_injective (b1 b2 : list ascii) :
  sdk.encodeBase64V1 b1 = sdk.encodeBase64V1 b2 -> b1 = b2.
Proof.
  rewrite !encodeBase64V1_rev. intros E.
  apply string_of_list_ascii_injective in E.
  apply (f_equal (@rev ascii)) in E. rewrite !rev_involutive in E.
  apply Encode_injective. exact E.
Qed.

Lemma encodeBase64V1_injective_witness :
  sdk.encodeBase64V1 (list_ascii_of_string "{}") = sdk.encodeBase64V1 [ "{"%char; "}"%char ]
  /\ list_ascii_of_string "{}" = [ "{"%char; "}"%char ].
Proof.
  split; [reflexivity |].
  apply (encodeBase64V1_injective (list_ascii_of_string "{}") [ "{"%char; "}"%char ]).
  reflexivity.
Defined.

Lemma decodeBase64V1_encoded (b : list ascii) :
  sdk.decodeBase64V1 (sdk.encodeBase64V1 b) = (bodies.slice_of b, None).
Proof.
  rewrite encodeBase64V1_rev. unfold sdk.decodeBase64V1.
  destruct (String.eqb_spec (string_of_list_ascii (rev (base64.Encode b))) "") as [E | E].
  - change "" with (string_of_list_ascii []) in E.
    apply string_of_list_ascii_injective in E.
    apply (f_equal (@rev ascii)) in E. rewrite rev_involutive in E. cbn in E.
    apply Encode_nil_inv in E. subst b. reflexivity.
  - rewrite reverse_runes_ascii by (apply List.Forall_rev, Encode_ascii).
    rewrite rev_involutive. unfold base64.DecodeString.
    rewrite list_ascii_of_string_of_list_ascii, Decode_Encode.
    destruct b; [exfalso; apply E; reflexivity | reflexivity].
Qed.

(** X17.  [decodeRequestBody] undoes [encodeBase64V1]: a request body that
    is the encoding of [b] decodes to [b] without error (to nil when [b] is
    empty); a body that could not be read is reported as such. *)
Theorem decodeRequestBody_encoded (b : list ascii) :
  sdk.decodeRequestBody (Ok (list_ascii_of_string (sdk.encodeBase64V1 b)))
  = Ok (bodies.slice_of b)
  /\ forall cause, sdk.decodeRequestBody (Err cause) = Err (sdk.ErrReadBody cause).
Proof.
  split; [| reflexivity]. unfold sdk.decodeRequestBody.
  rewrite string_of_list_ascii_of_string, decodeBase64V1_encoded. reflexivity.
Qed.

Lemma Encode_length (b : list ascii) :
  length (base64.Encode b) = (4 * ((length b + 2) / 3))%nat.
Proof.
  induction b as [| a | a b | a b c l IH] using list_ind3; try reflexivity.
  cbn [base64.Encode length]. rewrite IH.
  replace (S (S (S (length l))) + 2)%nat with ((length l + 2) + 1 * 3)%nat by lia.
  rewrite Nat.div_add by discriminate. lia.
Qed.

Lemma string_length_of_list (l : list ascii) :
  String.length (string_of_list_ascii l) = length l.
Proof. induction l as [| c l IH]; [reflexivity |]. cbn. rewrite IH. reflexivity. Qed.

(** X18.  The encoding of [n] bytes is text of [4 * ceil (n / 3)] bytes,
    all of them below 128: letters, digits, [+], [/] and the padding. *)
Theorem encodeBase64V1_shape (b : list ascii) :
  String.length (sdk.encodeBase64V1 b) = (4 * ((length b + 2) / 3))%nat
  /\ props.ascii_only (list_ascii_of_string (sdk.encodeBase64V1 b)).
Proof.
  rewrite encodeBase64V1_rev. split.
  - rewrite string_length_of_list, length_rev. apply Encode_length.
  - rewrite list_ascii_of_string_of_list_ascii. apply List.Forall_rev, Encode_ascii.
Qed.

Lemma skip_newlines_In (c : ascii) (src : list ascii) (si : nat) :
  base64.is_newline c = false -> In c src -> In c (fst (base64.skip_newlines src si)).
Proof.
  intros Hc. revert si. induction src as [| x src IH]; intros si Hin; [destruct Hin |].
  cbn [base64.skip_newlines]. destruct (base64.is_newline x) eqn:Hx.
  - apply IH. destruct Hin as [-> | Hin]; [congruence | exact Hin].
  - exact Hin.
Qed.

Lemma after_padding_foreign (c : ascii) (j : nat) (dbuf : list N)
    (src : list ascii) (si : nat) :
  bodies.foreign_byte c = true -> In c src ->
  snd (base64.after_padding j dbuf src si) <> None.
Proof.
  intros Hf Hin. unfold bodies.foreign_byte in Hf.
  apply andb_true_iff in Hf. destruct Hf as [Hf Hpad].
  apply andb_true_iff in Hf. destruct Hf as [_ Hnl].
  apply negb_true_iff in Hnl. apply negb_true_iff in Hpad.
  assert (Hrest : forall src2 si2,
             In c src2 ->
             snd (let '(src3, si3) := base64.skip_newlines src2 si2 in
                  (base64.quantum_bytes j dbuf,
                   match src3 with
                   | [] => None
                   | _ :: _ => Some (base64.CorruptInput si3)
                   end)) <> None).
  { intros src2 si2 H2. pose proof (skip_newlines_In c src2 si2 Hnl H2) as H3.
    destruct (base64.skip_newlines src2 si2) as [src3 si3]. cbn [fst] in H3.
    destruct src3; [destruct H3 | discriminate]. }
  unfold base64.after_padding.
  destruct j as [| [| j]]; [discriminate | discriminate |].
  destruct (S (S j) =? 2)%nat.
  - pose proof (skip_newlines_In c src si Hnl Hin) as H1.
    destruct (base64.skip_newlines src si) as [src1 si1]. cbn [fst] in H1.
    destruct src1 as [| d src2]; [discriminate |].
    destruct (Ascii.eqb_spec d base64.padChar) as [-> | Hd]; [| discriminate].
    apply Hrest. destruct H1 as [<- | H1]; [| exact H1].
    rewrite Ascii.eqb_refl in Hpad. discriminate Hpad.
  - apply Hrest. exact Hin.
Qed.

Lemma decode_from_foreign (c : ascii) (src : list ascii) :
  bodies.foreign_byte c = true -> In c src ->
  forall si dbuf, snd (base64.decode_from src si dbuf) <> None.
Proof.
  intros Hf. pose proof Hf as Hf'. unfold bodies.foreign_byte in Hf'.
  apply andb_true_iff in Hf'. destruct Hf' as [Hf' Hpad].
  apply andb_true_iff in Hf'. destruct Hf' as [Hmap Hnl].
  apply negb_true_iff in Hnl. apply negb_true_iff in Hpad.
  induction src as [| x src IH]; intros Hin si dbuf; [destruct Hin |].
  cbn [base64.decode_from].
  destruct (negb (base64.decodeMap x =? 0xFF)) eqn:Hx.
  - assert (Hin' : In c src).
    { destruct Hin as [-> | Hin]; [| exact Hin]. rewrite Hmap in Hx. discriminate Hx. }
    destruct (length dbuf =? 3)%nat.
    + specialize (IH Hin' (S si) []).
      destruct (base64.decode_from src (S si) []) as [rest err]. exact IH.
    + apply IH. exact Hin'.
  - destruct (base64.is_newline x) eqn:Hxn.
    + apply IH. destruct Hin as [-> | Hin]; [congruence | exact Hin].
    + destruct (Ascii.eqb_spec x base64.padChar) as [-> | Hxp]; [| discriminate].
      cbn [negb]. apply (after_padding_foreign c); [exact Hf |].
      destruct Hin as [<- | Hin]; [| exact Hin].
      rewrite Ascii.eqb_refl in Hpad. discriminate Hpad.
Qed.

(** X19.  A body of bytes below 128 that holds a byte foreign to base64
    is rejected: [decodeRequestBody] fails with a decoding error. *)
Theorem decodeRequestBody_foreign_byte (raw : list ascii) (c : ascii) :
  props.ascii_only raw -> In c raw -> bodies.foreign_byte c = true ->
  exists e, sdk.decodeRequestBody (Ok raw) = Err (sdk.ErrDecodeB64V1 e).
Proof.
  intros Hascii Hin Hf. unfold sdk.decodeRequestBody, sdk.decodeBase64V1.
  assert (Hne : String.eqb (string_of_list_ascii raw) "" = false).
  { destruct raw; [destruct Hin | reflexivity]. }
  rewrite Hne, (reverse_runes_ascii raw Hascii). unfold base64.DecodeString, base64.Decode.
  rewrite list_ascii_of_string_of_list_ascii.
  pose proof (decode_from_foreign c (rev raw) Hf (proj1 (in_rev _ _) Hin) 0%nat []) as H.
  destruct (base64.decode_from (rev raw) 0 []) as [decoded [e |]]; [eauto |].
  exfalso. apply H. reflexivity.
Qed.

Lemma decodeRequestBody_foreign_byte_witness :
  props.ascii_only (list_ascii_of_string "not-a-valid-b64v1")
  /\ In "-"%char (list_ascii_of_string "not-a-valid-b64v1")
  /\ bodies.foreign_byte "-"%char = true
  /\ exists e, sdk.decodeRequestBody (Ok (list_ascii_of_string "not-a-valid-b64v1"))
               = Err (sdk.ErrDecodeB64V1 e).
Proof.
  assert (H1 : props.ascii_only (list_ascii_of_string "not-a-valid-b64v1"))
    by (repeat constructor).
  assert (H2 : In "-"%char (list_ascii_of_string "not-a-valid-b64v1"))
    by (cbn; tauto).
  split; [exact H1 |]. split; [exact H2 |]. split; [reflexivity |].
  exact (decodeRequestBody_foreign_byte _ _ H1 H2 eq_refl).
Defined.

(** ** The HTTP handler *)

Lemma select_target_cases (opts : gateway.Options) (req : gateway.gatewayRequest) :
  (gateway.Target req <> "" -> gateway.select_target opts req = gateway.Target req)
  /\ (gateway.Target req = "" -> gateway.TargetAddr req <> "" ->
      gateway.select_target opts req = gateway.TargetAddr req)
  /\ (gateway.Target req = "" -> gateway.TargetAddr req = "" ->
      gateway.select_target opts req = gateway.DefaultTarget opts).
Proof.
  unfold gateway.select_target.
  destruct (String.eqb (gateway.Target req) "") eqn:E1.
  - apply String.eqb_eq in E1.
    destruct (String.eqb (gateway.TargetAddr req) "") eqn:E2.
    + apply String.eqb_eq in E2. repeat split; intros; congruence.
    + apply String.eqb_neq in E2. repeat split; intros; congruence.
  - rewrite E1. apply String.eqb_neq in E1. repeat split; intros; congruence.
Qed.

Lemma invoke_request_ok (opts : gateway.Options) (req : gateway.gatewayRequest)
    (ireq : core.InvokeRequest) :
  gateway.invoke_request opts req = Ok ireq ->
  core.Target ireq = gateway.select_target opts req
  /\ core.Target ireq <> ""
  /\ core.Body ireq = gateway.select_body req
  /\ ((gateway.Descriptor req <> ""
       /\ gateway.Method req <> ""
       /\ base64.DecodeString (gateway.Descriptor req)
          = (core.InlineDescriptorSet ireq, None)
       /\ core.DescriptorID ireq = gateway.DescriptorID req
       /\ core.ServiceName ireq = gateway.Service req
       /\ core.MethodName ireq = gateway.Method req
       /\ core.FullMethodName ireq = "")
      \/ (gateway.Descriptor req = ""
          /\ gateway.DescriptorID req <> ""
          /\ gateway.Method req <> ""
          /\ core.InlineDescriptorSet ireq = []
          /\ core.DescriptorID ireq = gateway.DescriptorID req
          /\ core.ServiceName ireq = gateway.Service req
          /\ core.MethodName ireq = gateway.Method req
          /\ core.FullMethodName ireq = "")
      \/ (gateway.Descriptor req = ""
          /\ gateway.DescriptorID req = ""
          /\ core.InlineDescriptorSet ireq = []
          /\ core.DescriptorID ireq = ""
          /\ core.ServiceName ireq = "" /\ core.MethodName ireq = ""
          /\ core.FullMethodName ireq <> ""
          /\ core.FullMethodName ireq
             = (if String.eqb (gateway.Method req) ""
                then gateway.FullMethodNameAlt req else gateway.Method req))).
Proof.
  unfold gateway.invoke_request.
  destruct (String.eqb_spec (gateway.select_target opts req) "") as [| Ht];
    [discriminate |].
  destruct (String.eqb_spec (gateway.Descriptor req) "") as [Hd | Hd]; cbn [negb].
  - destruct (String.eqb_spec (gateway.DescriptorID req) "") as [Hi | Hi]; cbn [negb].
    + destruct (String.eqb_spec
                  (if String.eqb (gateway.Method req) ""
                   then gateway.FullMethodNameAlt req else gateway.Method req) "")
        as [| Hf]; [discriminate |].
      intros [= <-]. cbn. repeat split; auto. right. right. repeat split; auto.
    + destruct (String.eqb_spec (gateway.Method req) "") as [| Hm]; [discriminate |].
      intros [= <-]. cbn. repeat split; auto. right. left. repeat split; auto.
  - destruct (String.eqb_spec (gateway.Method req) "") as [| Hm]; [discriminate |].
    destruct (base64.DecodeString (gateway.Descriptor req)) as [descBytes [err |]];
      [discriminate |].
    intros [= <-]. cbn. repeat split; auto. left. repeat split; auto.
Qed.

Lemma invoke_request_refusal (opts : gateway.Options) (req : gateway.gatewayRequest)
    (resp : gateway.HttpResponse) :
  gateway.invoke_request opts req = Err resp ->
  gateway.status resp = gateway.StatusBadRequest
  /\ gateway.content_type resp = Some "application/json".
Proof.
  unfold gateway.invoke_request.
  destruct (String.eqb (gateway.select_target opts req) "").
  { intros [= <-]. split; reflexivity. }
  destruct (negb (String.eqb (gateway.Descriptor req) "")).
  { destruct (String.eqb (gateway.Method req) "").
    - intros [= <-]. split; reflexivity.
    - destruct (base64.DecodeString (gateway.Descriptor req)) as [b [err |]];
        [| discriminate].
      intros [= <-]. split; reflexivity. }
  destruct (negb (String.eqb (gateway.DescriptorID req) "")).
  { destruct (String.eqb (gateway.Method req) ""); [| discriminate].
    intros [= <-]. split; reflexivity. }
  destruct (String.eqb _ ""); [| discriminate].
  intros [= <-]. split; reflexivity.
Qed.

(** X20.  The target of an invocation is the first that is not empty of
    target, target_addr and the default target of the options; a request
    for which all three are empty is answered 400, "missing target",
    whatever else it holds; and every request the handler refuses before
    the invocation is answered 400 with a JSON error. *)
Theorem invoke_request_target (opts : gateway.Options) (req : gateway.gatewayRequest) :
  match gateway.invoke_request opts req with
  | Ok ireq =>
      core.Target ireq <> ""
      /\ (gateway.Target req <> "" -> core.Target ireq = gateway.Target req)
      /\ (gateway.Target req = "" -> gateway.TargetAddr req <> "" ->
          core.Target ireq = gateway.TargetAddr req)
      /\ (gateway.Target req = "" -> gateway.TargetAddr req = "" ->
          core.Target ireq = gateway.DefaultTarget opts)
  | Err resp =>
      gateway.status resp = gateway.StatusBadRequest
      /\ gateway.content_type resp = Some "application/json"
      /\ (gateway.Target req = "" -> gateway.TargetAddr req = "" ->
          gateway.DefaultTarget opts = "" ->
          resp = gateway.writeJSONError gateway.StatusBadRequest
                   (gateway.MsgText "missing target"))
  end.
Proof.
  destruct (gateway.invoke_request opts req) as [ireq | resp] eqn:E.
  - destruct (invoke_request_ok opts req ireq E) as (Ht & Hne & _).
    destruct (select_target_cases opts req) as (H1 & H2 & H3).
    rewrite Ht in *. auto.
  - destruct (select_target_cases opts req) as (_ & _ & H3).
    unfold gateway.invoke_request in E.
    destruct (String.eqb_spec (gateway.select_target opts req) "") as [Ht | Ht].
    { injection E as <-. repeat split. }
    assert (Hno : ~ (gateway.Target req = "" /\ gateway.TargetAddr req = ""
                     /\ gateway.DefaultTarget opts = "")).
    { intros (A & B & C). apply Ht. rewrite (H3 A B). exact C. }
    destruct (negb (String.eqb (gateway.Descriptor req) "")).
    { destruct (String.eqb (gateway.Method req) "").
      - injection E as <-. repeat split. tauto.
      - destruct (base64.DecodeString (gateway.Descriptor req)) as [b [err |]];
          [| discriminate].
        injection E as <-. repeat split. tauto. }
    destruct (negb (String.eqb (gateway.DescriptorID req) "")).
    { destruct (String.eqb (gateway.Method req) ""); [| discriminate].
      injection E as <-. repeat split. tauto. }
    destruct (String.eqb _ ""); [| discriminate].
    injection E as <-. repeat split. tauto.
Qed.

Section HandlerProps.

Import desc core.

Context {FileDescriptorSet Message ClientConn : Type}.
Variable proto_Unmarshal : list ascii -> result string FileDescriptorSet.
Variable CreateFileDescriptorsFromSet :
  FileDescriptorSet -> result string (list FileDescriptor).
Variable filepath_Join : string -> string -> string.
Variable os_ReadFile : string -> result string (list ascii).
Variable jsonpb_Unmarshal : MessageDescriptor -> list ascii -> result string Message.
Variable jsonpb_Marshal : bool -> Message -> result string (list ascii).
Variable grpc_DialContext : option Z -> string -> result string ClientConn.
Variable grpcdynamic_InvokeRpc :
  option Z -> ClientConn -> MethodDescriptor -> Message -> result string Message.
Variable json_Unmarshal : list ascii -> result string gateway.gatewayRequest.

Abbreviation invokeCore :=
  (Invoke proto_Unmarshal CreateFileDescriptorsFromSet filepath_Join os_ReadFile
     jsonpb_Unmarshal jsonpb_Marshal grpc_DialContext grpcdynamic_InvokeRpc).
Abbreviation serve :=
  (gateway.ServeHTTP proto_Unmarshal CreateFileDescriptorsFromSet filepath_Join
     os_ReadFile jsonpb_Unmarshal jsonpb_Marshal grpc_DialContext grpcdynamic_InvokeRpc
     json_Unmarshal).

(** X21.  The answers of the handler.  The status is 200, 400, 404 or
    502.  It is 200 exactly for a response of [Invoke], which is then the
    body, as JSON; 502 exactly for an error of [Invoke].  A request
    answered 400 or 404 never reaches the invoker: its caches are as before
    and nothing was decoded, dialed or called.  A 404 has no body and no
    content type, and is the answer to every method but POST and to every
    body that is not in the transport encoding. *)
Theorem ServeHTTP_answers (opts : gateway.Options) (inv : Invoker)
    (r : gateway.HttpRequest) :
  let '(resp, inv', events) := serve opts inv r in
  ((exists ireq json,
       invokeCore inv (gateway.http_context r) ireq = (Ok json, inv', events)
       /\ resp = {| gateway.status := gateway.StatusOK;
                    gateway.content_type := Some "application/json";
                    gateway.body := gateway.Payload json |})
   \/ (exists ireq err,
         invokeCore inv (gateway.http_context r) ireq = (Err err, inv', events)
         /\ resp = gateway.writeJSONError gateway.StatusBadGateway (gateway.MsgInvoke err))
   \/ (gateway.status resp = gateway.StatusBadRequest
       /\ gateway.content_type resp = Some "application/json"
       /\ inv' = inv /\ events = [])
   \/ (resp = gateway.not_found /\ inv' = inv /\ events = []))
  /\ (gateway.http_method r <> "POST" -> resp = gateway.not_found)
  /\ (forall e, sdk.decodeRequestBody (gateway.http_body r) = Err e ->
                resp = gateway.not_found).
Proof.
  unfold gateway.ServeHTTP.
  destruct (String.eqb_spec (gateway.http_method r) "POST") as [Hm | Hm]; cbn [negb].
  2: { split; [right; right; right; auto | auto]. }
  destruct (sdk.decodeRequestBody (gateway.http_body r)) as [decoded | e].
  2: { split; [right; right; right; auto | auto]. }
  destruct (json_Unmarshal (default [] decoded)) as [req | err].
  2: { split; [right; right; left; repeat split | split; [congruence | discriminate]]. }
  destruct (gateway.invoke_request opts req) as [ireq | resp] eqn:Hreq.
  2: { destruct (invoke_request_refusal opts req resp Hreq) as (Hs & Hc).
       split; [right; right; left; auto | split; [congruence | discriminate]]. }
  destruct (invokeCore inv (gateway.http_context r) ireq) as [[res inv'] events] eqn:Hi.
  destruct res as [json | err].
  - split; [left; exists ireq, json; auto | split; [congruence | discriminate]].
  - split; [right; left; exists ireq, err; auto | split; [congruence | discriminate]].
Qed.

(** After a resolution that succeeded, [Invoke] does not complain of
    missing selector fields. *)
Lemma Invoke_after_resolution inv ctx req :
  match fst (resolve_request proto_Unmarshal CreateFileDescriptorsFromSet filepath_Join
               os_ReadFile inv req) with
  | Err e => fst (fst (invokeCore inv ctx req)) = Err e
  | Ok _ =>
      fst (fst (invokeCore inv ctx req)) <> Err ErrMissingMethodInline
      /\ fst (fst (invokeCore inv ctx req)) <> Err ErrMissingFullMethodName
  end.
Proof.
  unfold Invoke.
  destruct (resolve_request _ _ _ _ inv req) as [[[method name] | e] inv1];
    cbn [fst]; [| reflexivity].
  destruct (md_client_streaming (Method method) || md_server_streaming (Method method));
    [split; discriminate |].
  destruct (JSONToMessage _ _ _); [| split; discriminate].
  destruct (grpc_DialContext _ _); [| split; discriminate].
  destruct (grpcdynamic_InvokeRpc _ _ _ _); [| split; discriminate].
  destruct (MessageToJSON _ _); split; discriminate.
Qed.

Lemma resolve_request_missing_selector inv req :
  (fst (resolve_request proto_Unmarshal CreateFileDescriptorsFromSet filepath_Join
          os_ReadFile inv req) = Err ErrMissingMethodInline <->
   (InlineDescriptorSet req <> [] \/ DescriptorID req <> "") /\ MethodName req = "")
  /\ (fst (resolve_request proto_Unmarshal CreateFileDescriptorsFromSet filepath_Join
              os_ReadFile inv req) = Err ErrMissingFullMethodName <->
      InlineDescriptorSet req = [] /\ DescriptorID req = "" /\ FullMethodName req = "").
Proof.
  clear json_Unmarshal. unfold resolve_request.
  destruct (InlineDescriptorSet req) as [| b bytes] eqn:Hb;
    destruct (String.eqb_spec (DescriptorID req) "") as [Hid | Hid];
    cbn [length Nat.ltb Nat.leb orb negb].
  - destruct (String.eqb_spec (FullMethodName req) "") as [Hf | Hf].
    + cbn [fst]. intuition (try discriminate; try congruence).
    + destruct (MethodResolver_Resolve _ _ _ _ _ _) as [[md | e] sr];
        cbn [fst]; intuition (try discriminate; try congruence).
  - destruct (String.eqb_spec (MethodName req) "") as [Hm | Hm].
    + cbn [fst]. intuition (try discriminate; try congruence).
    + destruct (InlineMethodResolver_Resolve _ _ _ _ _ _ _) as [[[rm key] | e] ir];
        cbn [fst]; intuition (try discriminate; try congruence).
  - destruct (String.eqb_spec (MethodName req) "") as [Hm | Hm].
    + cbn [fst]. intuition (try discriminate; try congruence).
    + destruct (InlineMethodResolver_Resolve _ _ _ _ _ _ _) as [[[rm key] | e] ir];
        cbn [fst]; intuition (try discriminate; try congruence).
  - destruct (String.eqb_spec (MethodName req) "") as [Hm | Hm].
    + cbn [fst]. intuition (try discriminate; try congruence).
    + destruct (InlineMethodResolver_Resolve _ _ _ _ _ _ _) as [[[rm key] | e] ir];
        cbn [fst]; intuition (try discriminate; try congruence).
Qed.

(** The two errors of [Invoke] for missing selector fields. *)
Lemma Invoke_missing_selector inv ctx req :
  (fst (fst (invokeCore inv ctx req)) = Err ErrMissingMethodInline <->
   (InlineDescriptorSet req <> [] \/ DescriptorID req <> "") /\ MethodName req = "")
  /\ (fst (fst (invokeCore inv ctx req)) = Err ErrMissingFullMethodName <->
      InlineDescriptorSet req = [] /\ DescriptorID req = "" /\ FullMethodName req = "").
Proof.
  pose proof (Invoke_after_resolution inv ctx req) as Ha.
  pose proof (resolve_request_missing_selector inv req) as [H1 H2].
  destruct (fst (resolve_request _ _ _ _ inv req)) as [ok | e].
  - destruct Ha as [Ha1 Ha2]. split; split; intros H.
    + contradiction.
    + exfalso. apply H1 in H. discriminate H.
    + contradiction.
    + exfalso. apply H2 in H. discriminate H.
  - rewrite Ha.
    assert (Hinj : forall (A : Type) (c : error), @Err error A e = Err c <-> e = c).
    { intros A c. split; [intros [= ->] | intros ->]; reflexivity. }
    rewrite Hinj in H1, H2. rewrite !Hinj. split; assumption.
Qed.

(** X22.  The requests that the handler hands to [Invoke] have their
    selector fields: [Invoke] never fails on them with "missing method for
    inline descriptor invocation", and fails with "missing full method
    name" in one case only, that of a descriptor that decodes to no bytes
    and comes without a descriptor identifier. *)
Theorem handler_requests_have_selectors (opts : gateway.Options)
    (req : gateway.gatewayRequest) (ireq : InvokeRequest) :
  gateway.invoke_request opts req = Ok ireq ->
  forall inv ctx,
    fst (fst (invokeCore inv ctx ireq)) <> Err ErrMissingMethodInline
    /\ (fst (fst (invokeCore inv ctx ireq)) = Err ErrMissingFullMethodName <->
        gateway.Descriptor req <> "" /\ gateway.DescriptorID req = ""
        /\ base64.DecodeString (gateway.Descriptor req) = ([], None)).
Proof.
  intros Hreq inv ctx.
  destruct (invoke_request_ok opts req ireq Hreq) as (_ & _ & _ & Hshape).
  destruct (Invoke_missing_selector inv ctx ireq) as [H1 H2].
  rewrite H1, H2.
  destruct Hshape as [(Hd & Hm & Hdec & Hid & _ & Hmn & Hfn)
                     | [(Hd & Hid & Hm & Hb & Hid' & _ & Hmn & Hfn)
                       | (Hd & Hid & Hb & Hid' & _ & _ & Hfn & _)]].
  - split; [intros [_ E]; congruence |]. split.
    + intros (Hb & Hi & _). rewrite Hb in Hdec. repeat split; congruence.
    + intros (_ & Hi & Hdec'). rewrite Hdec' in Hdec. injection Hdec as Hb.
      repeat split; congruence.
  - split; [intros [_ E]; congruence |]. split.
    + intros (_ & Hi & _). congruence.
    + intros (Hd' & _). congruence.
  - split; [intros [[E | E] _]; congruence |]. split.
    + intros (_ & _ & E). congruence.
    + intros (Hd' & _). congruence.
Qed.

Lemma decode_line_breaks (s : string) :
  bodies.line_breaks s = true ->
  forall si, base64.decode_from (list_ascii_of_string s) si [] = ([], None).
Proof.
  induction s as [| c s IH]; intros H si; [reflexivity |].
  cbn [bodies.line_breaks] in H. apply andb_true_iff in H. destruct H as [Hc Hs].
  cbn [list_ascii_of_string base64.decode_from].
  assert (Hmap : base64.decodeMap c = 0xFF).
  { unfold base64.is_newline in Hc. apply orb_true_iff in Hc.
    destruct Hc as [Hc | Hc]; apply N.eqb_eq in Hc;
      rewrite <- (ascii_N_embedding c), Hc; reflexivity. }
  rewrite Hmap, Hc. cbn [N.eqb Pos.eqb negb]. apply IH. exact Hs.
Qed.

(** X23.  A descriptor that holds line breaks only is taken for the
    base64 text of no bytes.  Sent without a descriptor identifier, such a
    request is not refused by the handler; the invoker takes it for a
    request by full method name, and the answer is 502, "missing full
    method name", although a method was given.  Nothing is resolved,
    decoded or dialed. *)
Theorem ServeHTTP_line_break_descriptor (opts : gateway.Options) (inv : Invoker)
    (r : gateway.HttpRequest) (decoded : option (list ascii))
    (req : gateway.gatewayRequest) :
  gateway.http_method r = "POST" ->
  sdk.decodeRequestBody (gateway.http_body r) = Ok decoded ->
  json_Unmarshal (default [] decoded) = Ok req ->
  gateway.select_target opts req <> "" ->
  gateway.Method req <> "" ->
  gateway.Descriptor req <> "" ->
  bodies.line_breaks (gateway.Descriptor req) = true ->
  gateway.DescriptorID req = "" ->
  serve opts inv r
  = (gateway.writeJSONError gateway.StatusBadGateway
       (gateway.MsgInvoke ErrMissingFullMethodName), inv, []).
Proof.
  intros Hpost Hbody Hjson Ht Hm Hd Hlb Hid. unfold gateway.ServeHTTP.
  rewrite Hpost, Hbody, Hjson. cbn [String.eqb Ascii.eqb Bool.eqb negb].
  unfold gateway.invoke_request.
  apply String.eqb_neq in Ht, Hm, Hd. rewrite Ht, Hd, Hm. cbn [negb].
  unfold base64.DecodeString, base64.Decode.
  rewrite (decode_line_breaks _ Hlb 0%nat).
  unfold Invoke, resolve_request. cbn [InlineDescriptorSet DescriptorID FullMethodName].
  rewrite Hid. cbn [length Nat.ltb Nat.leb String.eqb orb negb].
  reflexivity.
Qed.

End HandlerProps.

Example samples_echo_call :
  samples.serve samples.no_options (core.NewInvoker "core" 0) (samples.post "echo call")
  = ({| gateway.status := 200; gateway.content_type := Some "application/json";
        gateway.body := gateway.Payload (list_ascii_of_string "{}") |},
     {| core.resolver :=
          {| core.descriptorDir := "core";
             core.cache := {["/echo.EchoService/Echo" := fixtures.Echo]} |};
        core.inlineResolver := core.NewInlineMethodResolver;
        core.timeout := 0 |},
     [core.EvJSONToMessage; core.EvDial "localhost:50051"; core.EvInvokeRpc;
      core.EvMessageToJSON; core.EvClose]).
Proof. vm_compute. reflexivity. Qed.

Example samples_not_json :
  fst (fst (samples.serve samples.no_options (core.NewInvoker "core" 0)
              (samples.post "hello")))
  = gateway.writeJSONError 400 (gateway.MsgInvalidJSONBody "invalid character").
Proof. vm_compute. reflexivity. Qed.

Example samples_get :
  samples.serve samples.no_options (core.NewInvoker "core" 0)
    {| gateway.http_method := "GET"; gateway.http_body := Ok [];
       gateway.http_context := None |}
  = (gateway.not_found, core.NewInvoker "core" 0, []).
Proof. vm_compute. reflexivity. Qed.

Lemma handler_requests_have_selectors_witness :
  gateway.invoke_request samples.no_options samples.echo_call
  = Ok (fixtures.echo_request "localhost:50051" (list_ascii_of_string "{}"))
  /\ fst (fst (fixtures.invoke (core.NewInvoker "core" 0) None
                 (fixtures.echo_request "localhost:50051" (list_ascii_of_string "{}"))))
     <> Err core.ErrMissingMethodInline.
Proof.
  assert (H : gateway.invoke_request samples.no_options samples.echo_call
              = Ok (fixtures.echo_request "localhost:50051" (list_ascii_of_string "{}")))
    by (vm_compute; reflexivity).
  split; [exact H |].
  exact (proj1 (handler_requests_have_selectors fixtures.Unmarshal fixtures.Create
                  fixtures.Join fixtures.ReadFile fixtures.Unmarshal_json
                  fixtures.Marshal_json fixtures.Dial fixtures.InvokeRpc
                  samples.no_options samples.echo_call _ H
                  (core.NewInvoker "core" 0) None)).
Defined.

Lemma ServeHTTP_line_break_descriptor_witness :
  bodies.line_breaks (gateway.Descriptor samples.blank_descriptor_call) = true
  /\ samples.serve samples.no_options (core.NewInvoker "core" 0)
       (samples.post "blank descriptor call")
     = (gateway.writeJSONError gateway.StatusBadGateway
          (gateway.MsgInvoke core.ErrMissingFullMethodName),
        core.NewInvoker "core" 0, []).
Proof.
  split; [reflexivity |].
  apply (ServeHTTP_line_break_descriptor fixtures.Unmarshal fixtures.Create
           fixtures.Join fixtures.ReadFile fixtures.Unmarshal_json
           fixtures.Marshal_json fixtures.Dial fixtures.InvokeRpc samples.parse_json
           samples.no_options (core.NewInvoker "core" 0)
           (samples.post "blank descriptor call")
           (Some (list_ascii_of_string "blank descriptor call"))
           samples.blank_descriptor_call).
  - reflexivity.
  - vm_compute. reflexivity.
  - vm_compute. reflexivity.
  - discriminate.
  - discriminate.
  - discriminate.
  - reflexivity.
  - reflexivity.
Defined.

Section EndToEnd.

Import desc core.

Context {FileDescriptorSet Message ClientConn : Type}.
Variable proto_Unmarshal : list ascii -> result string FileDescriptorSet.
Variable CreateFileDescriptorsFromSet :
  FileDescriptorSet -> result string (list FileDescriptor).
Variable filepath_Join : string -> string -> string.
Variable os_ReadFile : string -> result string (list ascii).
Variable jsonpb_Unmarshal : MessageDescriptor -> list ascii -> result string Message.
Variable jsonpb_Marshal : bool -> Message -> result string (list ascii).
Variable grpc_DialContext : option Z -> string -> result string ClientConn.
Variable grpcdynamic_InvokeRpc :
  option Z -> ClientConn -> MethodDescriptor -> Message -> result string Message.
Variable json_Unmarshal : list ascii -> result string gateway.gatewayRequest.

(** X24.  From the client to the invoker and back: a POST whose body is
    the transport encoding of a document makes the handler parse that very
    document; when the document is a request the handler accepts, the
    answer is what [Invoke] returns for it: its response with status 200 as
    JSON, or its error with status 502. *)
Theorem ServeHTTP_encoded_document (opts : gateway.Options) (inv : Invoker)
    (ctx : option Z) (doc : list ascii) (req : gateway.gatewayRequest)
    (ireq : InvokeRequest) :
  json_Unmarshal doc = Ok req ->
  gateway.invoke_request opts req = Ok ireq ->
  gateway.ServeHTTP proto_Unmarshal CreateFileDescriptorsFromSet filepath_Join
    os_ReadFile jsonpb_Unmarshal jsonpb_Marshal grpc_DialContext grpcdynamic_InvokeRpc
    json_Unmarshal opts inv
    {| gateway.http_method := "POST";
       gateway.http_body := Ok (list_ascii_of_string (sdk.encodeBase64V1 doc));
       gateway.http_context := ctx |}
  = let '(res, inv', events) :=
      Invoke proto_Unmarshal CreateFileDescriptorsFromSet filepath_Join os_ReadFile
        jsonpb_Unmarshal jsonpb_Marshal grpc_DialContext grpcdynamic_InvokeRpc
        inv ctx ireq in
    (match res with
     | Ok json =>
         {| gateway.status := gateway.StatusOK;
            gateway.content_type := Some "application/json";
            gateway.body := gateway.Payload json |}
     | Err err => gateway.writeJSONError gateway.StatusBadGateway (gateway.MsgInvoke err)
     end, inv', events).
Proof.
  intros Hjson Hreq. unfold gateway.ServeHTTP.
  cbn [gateway.http_method gateway.http_body gateway.http_context String.eqb
       Ascii.eqb Bool.eqb negb].
  unfold sdk.decodeRequestBody.
  rewrite string_of_list_ascii_of_string, decodeBase64V1_encoded.
  assert (E : default [] (bodies.slice_of doc) = doc) by (destruct doc; reflexivity).
  rewrite E, Hjson, Hreq.
  destruct (Invoke _ _ _ _ _ _ _ _ inv ctx ireq) as [[[json | err] inv'] events];
    reflexivity.
Qed.

End EndToEnd.

Lemma ServeHTTP_encoded_document_witness :
  samples.parse_json (list_ascii_of_string "echo call") = Ok samples.echo_call
  /\ gateway.invoke_request samples.no_options samples.echo_call
     = Ok (fixtures.echo_request "localhost:50051" (list_ascii_of_string "{}"))
  /\ fst (fst (samples.serve samples.no_options (core.NewInvoker "core" 0)
                 (samples.post "echo call")))
     = {| gateway.status := gateway.StatusOK;
          gateway.content_type := Some "application/json";
          gateway.body := gateway.Payload (list_ascii_of_string "{}") |}.
Proof.
  assert (H1 : samples.parse_json (list_ascii_of_string "echo call") = Ok samples.echo_call)
    by reflexivity.
  assert (H2 : gateway.invoke_request samples.no_options samples.echo_call
               = Ok (fixtures.echo_request "localhost:50051" (list_ascii_of_string "{}")))
    by (vm_compute; reflexivity).
  split; [exact H1 |]. split; [exact H2 |].
  unfold samples.serve, samples.post.
  rewrite (ServeHTTP_encoded_document fixtures.Unmarshal fixtures.Create fixtures.Join
             fixtures.ReadFile fixtures.Unmarshal_json fixtures.Marshal_json
             fixtures.Dial fixtures.InvokeRpc samples.parse_json samples.no_options
             (core.NewInvoker "core" 0) None (list_ascii_of_string "echo call")
             samples.echo_call _ H1 H2).
  vm_compute. reflexivity.
Defined.

(** ** Short names shared by several services *)

Section SharedShortNames.

Import desc core props.

Lemma fqn_ident_no_package (w : ServiceDescriptor) :
  ident_chars (GetFullyQualifiedName w) = true ->
  sd_package w = "" /\ GetFullyQualifiedName w = sd_name w.
Proof.
  unfold GetFullyQualifiedName.
  destruct (String.eqb_spec (sd_package w) "") as [E | E]; [auto |].
  rewrite ident_chars_no_dot. discriminate.
Qed.

Lemma fqn_no_package (w : ServiceDescriptor) :
  sd_package w = "" -> GetFullyQualifiedName w = sd_name w.
Proof. unfold GetFullyQualifiedName. intros ->. reflexivity. Qed.

(** X25.  In a valid descriptor set, a short name that two or more
    services have, all of them in packages, is ambiguous: resolving by it
    fails with the error that lists the fully-qualified name of every one
    of these services, in the order of the set. *)
Theorem Resolve_ambiguous_short_name (files : list FileDescriptor) (n m : string) :
  valid_descriptor_set files ->
  is_ident n = true -> is_ident m = true ->
  (2 <= length (with_short_name n (all_services files)))%nat ->
  (forall svc, In svc (all_services files) -> sd_name svc = n -> sd_package svc <> "") ->
  InlineDescriptorPool_Resolve (pool_of_files files) n m
  = Err (ErrAmbiguousServiceName n
           (map GetFullyQualifiedName (with_short_name n (all_services files)))).
Proof.
  intros [Hvalid Hnd] Hn Hm Hlen Hpkg.
  assert (Hv : forall w, In w (all_services files) -> valid_service w = true)
    by apply (proj1 (List.Forall_forall _ _) Hvalid).
  destruct (is_ident_facts _ Hn) as (Hns & Hni & Hnc).
  destruct (normalize_names n m Hns Hnc Hm) as (Hnorm & Hne & Hmne).
  rewrite (Resolve_normalized _ _ _ _ _ Hnorm Hne Hmne). unfold select_service.
  rewrite pool_of_files_services.
  assert (Hnone : forall w, In w (all_services files) -> n <> GetFullyQualifiedName w).
  { intros w Hw E.
    assert (Hi : ident_chars (GetFullyQualifiedName w) = true) by (rewrite <- E; exact Hni).
    destruct (fqn_ident_no_package w Hi) as [Hp Hname].
    apply (Hpkg w Hw); [| exact Hp]. rewrite <- Hname. symmetry. exact E. }
  destruct (servicesByFQN (pool_from (all_services files)) !! n) as [v |] eqn:H0.
  { exfalso. destruct (servicesByFQN_sound _ _ _ H0) as [Hin [E | E]].
    - apply (Hnone v Hin E).
    - rewrite E in Hns. discriminate Hns. }
  destruct (servicesByFQN (pool_from (all_services files)) !! ("." +:+ n)) as [v |] eqn:H1.
  { exfalso. destruct (servicesByFQN_sound _ _ _ H1) as [Hin [E | E]].
    - destruct (valid_service_facts v (Hv v Hin)) as (_ & Hs & _).
      rewrite <- E in Hs. discriminate Hs.
    - apply (Hnone v Hin). apply (append_cancel_head "." _ _ E). }
  rewrite servicesByName_spec.
  destruct (with_short_name n (all_services files)) as [| a [| b l]];
    cbn [length] in Hlen; try lia.
  reflexivity.
Qed.

(** X26.  A service without package is found by its name whatever other
    services have that short name: its name is its fully-qualified name,
    which is looked up first. *)
Theorem Resolve_service_without_package (files : list FileDescriptor)
    (svc : ServiceDescriptor) (m : string) :
  valid_descriptor_set files ->
  In svc (all_services files) ->
  sd_package svc = "" ->
  is_ident m = true ->
  InlineDescriptorPool_Resolve (pool_of_files files) (sd_name svc) m = method_of svc m.
Proof.
  intros Hvalid Hsvc Hp Hm. pose proof Hvalid as [Hall Hnd].
  destruct (valid_service_facts svc (proj1 (List.Forall_forall _ _) Hall svc Hsvc))
    as (Hname & _).
  destruct (is_ident_facts _ Hname) as (Hns & _ & Hnc).
  destruct (normalize_names _ m Hns Hnc Hm) as (Hnorm & Hne & Hmne).
  rewrite (Resolve_normalized _ _ _ _ _ Hnorm Hne Hmne).
  rewrite <- (fqn_no_package svc Hp) at 1.
  rewrite (select_service_fqn files svc Hvalid Hsvc). reflexivity.
Qed.

End SharedShortNames.

Lemma valid_set_two : props.valid_descriptor_set fixtures.set_two.
Proof.
  split.
  - repeat constructor.
  - cbn. repeat constructor; cbn; intros H; intuition discriminate.
Qed.

Lemma valid_set_bare : props.valid_descriptor_set samples.set_bare.
Proof.
  split.
  - repeat constructor.
  - cbn. repeat constructor; cbn; intros H; intuition discriminate.
Qed.

Lemma Resolve_ambiguous_short_name_witness :
  props.valid_descriptor_set fixtures.set_two
  /\ core.InlineDescriptorPool_Resolve (core.pool_of_files fixtures.set_two)
       "EchoService" "Echo"
     = Err (core.ErrAmbiguousServiceName "EchoService"
              (map desc.GetFullyQualifiedName
                 (props.with_short_name "EchoService"
                    (props.all_services fixtures.set_two)))).
Proof.
  split; [exact valid_set_two |].
  apply (Resolve_ambiguous_short_name fixtures.set_two "EchoService" "Echo"
           valid_set_two eq_refl eq_refl).
  - cbn. lia.
  - intros svc [<- | [<- | []]] _; discriminate.
Defined.

Lemma Resolve_service_without_package_witness :
  props.valid_descriptor_set samples.set_bare
  /\ core.InlineDescriptorPool_Resolve (core.pool_of_files samples.set_bare)
       "EchoService" "Echo"
     = Ok {| core.Method := fixtures.Echo_v2; core.ServiceFQN := "EchoService" |}.
Proof.
  split; [exact valid_set_bare |].
  exact (Resolve_service_without_package samples.set_bare samples.BareEcho "Echo"
           valid_set_bare (or_intror (or_introl eq_refl)) eq_refl eq_refl).
Defined.
